(** * Credential redaction of recorded HTTP exchanges (superfaceai/testing-lib)

    A shallow embedding of the recording utilities
    ([replaceCredential], the exchange field editors, the scheme dispatch
    [replaceCredentialInDefinition] and [replaceParameterInDefinition]),
    together with the fragment of the JavaScript runtime they call:
    [RegExp] with the global flag and [String.prototype.replace],
    [JSON.stringify] / [JSON.parse], and the WHATWG [URL] class with its
    [searchParams].

    Conventions.
    - A JavaScript string is a [string]: one [ascii] per code unit, so the
      model covers strings whose code units are below 256.
    - The editors mutate the exchange in place and may throw; they are
      functions in a state-and-exception monad over [RecordingDefinition],
      in which the state survives a throw.
    - Where the runtime is modelled only on a fragment of its inputs, the
      model answers [Beyond] outside the fragment instead of guessing. *)

From Stdlib Require Import Ascii String List ZArith Bool Lia DecimalString.
From Stdlib Require Import DecimalPos DecimalFacts.
From stdpp Require Import gmap strings list fin_maps.

Import ListNotations.
Set Warnings "-register-all".
Local Open Scope string_scope.
Local Open Scope list_scope.

(** ** Outcomes *)

Inductive error : Type :=
| SyntaxError (msg : string)
| TypeError (msg : string)
| UnexpectedError (msg : string).

Inductive outcome (A : Type) : Type :=
| Ok (a : A)
| Throw (e : error)
| Beyond.

Arguments Ok {A} a.
Arguments Throw {A} e.
Arguments Beyond {A}.

Definition obind {A B : Type} (x : outcome A) (f : A -> outcome B) : outcome B :=
  match x with
  | Ok a => f a
  | Throw e => Throw e
  | Beyond => Beyond
  end.

Definition omap {A B : Type} (f : A -> B) (x : outcome A) : outcome B :=
  obind x (fun a => Ok (f a)).

(** ** Strings as sequences of code units *)

Definition chars (s : string) : list ascii := list_ascii_of_string s.
Definition text (l : list ascii) : string := string_of_list_ascii l.

Definition code (c : ascii) : nat := nat_of_ascii c.

(** The double quote, code unit 34. *)
Definition dquote : ascii := "034".

Fixpoint starts_with (p s : list ascii) : bool :=
  match p, s with
  | [], _ => true
  | _ :: _, [] => false
  | x :: p', y :: s' => Ascii.eqb x y && starts_with p' s'
  end.

(** [String.prototype.includes] on code-unit lists. *)
Fixpoint includes_chars (s sub : list ascii) : bool :=
  starts_with sub s ||
  match s with
  | [] => false
  | _ :: s' => includes_chars s' sub
  end.

Definition includes (s sub : string) : bool := includes_chars (chars s) (chars sub).

(** [Array.prototype.join]. *)
Fixpoint join (sep : string) (l : list string) : string :=
  match l with
  | [] => ""
  | [x] => x
  | x :: rest => x ++ sep ++ join sep rest
  end.

(** ** Regular expressions: the pattern language of [new RegExp(src, 'g')]

    The fragment: pattern characters, [.], the assertions [^] and [$],
    identity escapes of syntax characters, alternation, capturing groups
    (as grouping) and the greedy quantifiers [*], [+], [?].  Character
    classes, braces, lazy quantifiers, [(?...)] groups and the other
    escapes are outside the fragment. *)

Module Regex.

Inductive regex : Type :=
| REmpty
| RChar (c : ascii)
| RAny
| RBol
| REol
| RSeq (a b : regex)
| RAlt (a b : regex)
| RStar (a : regex)
| ROpt (a : regex)
| RGroup (a : regex).

Definition is_syntax_char (c : ascii) : bool :=
  existsb (Ascii.eqb c) (chars "^$\.*+?()[]{}|").

Definition is_line_terminator (c : ascii) : bool :=
  Ascii.eqb c "010" || Ascii.eqb c "013".

Definition seq_of (l : list regex) : regex :=
  fold_right (fun a acc => match acc with REmpty => a | _ => RSeq a acc end) REmpty l.

Definition nothing_to_repeat {A} : outcome A := Throw (SyntaxError "Nothing to repeat").

(** The term [a] under the quantifier character [q]. *)
Definition quantify (q : ascii) (a : regex) : regex :=
  if Ascii.eqb q "*" then RStar a
  else if Ascii.eqb q "+" then RSeq a (RStar a)
  else ROpt a.

Definition finish (alts terms : list regex) : regex :=
  fold_left (fun acc a => RAlt a acc) alts (seq_of (rev terms)).

(** Parser of a Pattern, one character at a time.  [alts] holds the
    finished alternatives of the disjunction being read and [terms] the
    terms of its current alternative (both reversed); [stack] holds the
    same pair for every enclosing group; [q] tells whether the last term
    is an atom, which may take a quantifier. *)
Fixpoint parse_pattern (stack : list (list regex * list regex))
    (alts terms : list regex) (q : bool) (s : list ascii) : outcome regex :=
  match s with
  | [] =>
    match stack with
    | [] => Ok (finish alts terms)
    | _ :: _ => Throw (SyntaxError "Unterminated group")
    end
  | c :: s' =>
    if Ascii.eqb c ")" then
      match stack with
      | [] => Throw (SyntaxError "Unmatched ')'")
      | (alts0, terms0) :: stack' =>
        parse_pattern stack' alts0 (RGroup (finish alts terms) :: terms0) true s'
      end
    else if Ascii.eqb c "(" then
      match s' with
      | "?"%char :: _ => Beyond
      | _ => parse_pattern ((alts, terms) :: stack) [] [] false s'
      end
    else if Ascii.eqb c "|" then
      parse_pattern stack (seq_of (rev terms) :: alts) [] false s'
    else if Ascii.eqb c "*" || Ascii.eqb c "+" || Ascii.eqb c "?" then
      match q, terms with
      | true, a :: terms' =>
        match s' with
        | "?"%char :: _ => Beyond
        | _ => parse_pattern stack alts (quantify c a :: terms') false s'
        end
      | _, _ => nothing_to_repeat
      end
    else if Ascii.eqb c "." then parse_pattern stack alts (RAny :: terms) true s'
    else if Ascii.eqb c "^" then parse_pattern stack alts (RBol :: terms) false s'
    else if Ascii.eqb c "$" then parse_pattern stack alts (REol :: terms) false s'
    else if Ascii.eqb c "\" then
      match s' with
      | [] => Throw (SyntaxError "\ at end of pattern")
      | e :: s'' =>
        if is_syntax_char e || Ascii.eqb e "/"
        then parse_pattern stack alts (RChar e :: terms) true s''
        else Beyond
      end
    else if is_syntax_char c then Beyond
    else parse_pattern stack alts (RChar c :: terms) true s'
  end.

(** [new RegExp(src, 'g')]. *)
Definition compile (src : string) : outcome regex :=
  parse_pattern [] [] [] false (chars src).

(** The backtracking matcher: [rmatch r total s k] matches [r] at the
    front of [s] and hands the rest to the continuation [k]; alternatives
    are tried in priority order, and an iteration of [*] or [?] that
    consumes nothing is rejected.  [total] is the length of the whole
    input, so that [^] can tell the start.  The answer is the rest of the
    input after the whole match. *)
Fixpoint rmatch (r : regex) (total : nat) (s : list ascii)
    (k : list ascii -> option (list ascii)) {struct r} : option (list ascii) :=
  match r with
  | REmpty => k s
  | RChar c =>
    match s with
    | x :: s' => if Ascii.eqb x c then k s' else None
    | [] => None
    end
  | RAny =>
    match s with
    | x :: s' => if is_line_terminator x then None else k s'
    | [] => None
    end
  | RBol => if (List.length s =? total)%nat then k s else None
  | REol => match s with [] => k s | _ :: _ => None end
  | RSeq a b => rmatch a total s (fun s' => rmatch b total s' k)
  | RAlt a b =>
    match rmatch a total s k with
    | Some e => Some e
    | None => rmatch b total s k
    end
  | RStar a =>
    (fix star (fuel : nat) (s : list ascii) {struct fuel} : option (list ascii) :=
       match fuel with
       | 0 => k s
       | S fuel' =>
         match rmatch a total s
                 (fun s' => if (List.length s' <? List.length s)%nat then star fuel' s' else None) with
         | Some e => Some e
         | None => k s
         end
       end) (List.length s) s
  | ROpt a =>
    match rmatch a total s (fun s' => if (List.length s' <? List.length s)%nat then k s' else None) with
    | Some e => Some e
    | None => k s
    end
  | RGroup a => rmatch a total s k
  end.

(** One attempt of the matcher at the current position. *)
Definition match_here (r : regex) (total : nat) (s : list ascii) : option (list ascii) :=
  rmatch r total s Some.

(** The replacement text of [String.prototype.replace] (GetSubstitution):
    [$$], [$&], [$`] and [$'] are substituted; with no capturing group in
    the pattern every other [$] stands for itself. *)
Inductive piece : Type :=
| PLit (c : ascii)
| PMatched
| PBefore
| PAfter.

Definition is_decimal (c : ascii) : bool := ((48 <=? code c)%nat && (code c <=? 57)%nat).

Fixpoint parse_template (captures : bool) (s : list ascii) : outcome (list piece) :=
  match s with
  | [] => Ok []
  | c :: s' =>
    if Ascii.eqb c "$" then
      match s' with
      | d :: s'' =>
        if Ascii.eqb d "$" then omap (cons (PLit "$")) (parse_template captures s'')
        else if Ascii.eqb d "&" then omap (cons PMatched) (parse_template captures s'')
        else if Ascii.eqb d "`" then omap (cons PBefore) (parse_template captures s'')
        else if Ascii.eqb d "'" then omap (cons PAfter) (parse_template captures s'')
        else if captures && is_decimal d then Beyond
        else omap (cons (PLit c)) (parse_template captures s')
      | [] => Ok [PLit c]
      end
    else omap (cons (PLit c)) (parse_template captures s')
  end.

Definition expand (t : list piece) (before matched after : list ascii) : list ascii :=
  flat_map (fun p =>
    match p with
    | PLit c => [c]
    | PMatched => matched
    | PBefore => before
    | PAfter => after
    end) t.

Fixpoint has_groups (r : regex) : bool :=
  match r with
  | RSeq a b | RAlt a b => has_groups a || has_groups b
  | RStar a | ROpt a => has_groups a
  | RGroup _ => true
  | _ => false
  end.

(** The loop of [replace] with a global pattern: successive matches from
    left to right; after an empty match the search moves one code unit on.
    [skip] counts the code units of the current match still to be passed
    over and [before] is the input already passed, reversed. *)
Fixpoint replace_from (r : regex) (t : list piece) (total : nat)
    (before : list ascii) (s : list ascii) (skip : nat) : list ascii :=
  match skip with
  | S n =>
    match s with
    | c :: s' => replace_from r t total (c :: before) s' n
    | [] => []
    end
  | 0 =>
    match match_here r total s with
    | Some rest =>
      let m := List.length s - List.length rest in
      let out := expand t (rev before) (firstn m s) rest in
      match s with
      | [] => out
      | c :: s' =>
        if (m =? 0)%nat
        then out ++ c :: replace_from r t total (c :: before) s' 0
        else out ++ replace_from r t total (c :: before) s' (m - 1)
      end
    | None =>
      match s with
      | [] => []
      | c :: s' => c :: replace_from r t total (c :: before) s' 0
      end
    end
  end.

(** [payload.replace(new RegExp(src, 'g'), replacement)]. *)
Definition replace_global (payload src replacement : string) : outcome string :=
  obind (compile src) (fun r =>
  obind (parse_template (has_groups r) (chars replacement)) (fun t =>
  Ok (text (replace_from r t (List.length (chars payload)) [] (chars payload) 0)))).

End Regex.

(** ** JSON values, [JSON.stringify] and [JSON.parse]

    Numbers are the integers a double holds exactly (magnitude below 2^53);
    the entries of an object are kept in the object's property order.  The
    parser answers [Beyond] on fractions, exponents, negative zero, escapes
    of code units above 255, and on objects with a repeated or an
    integer-like key (which JavaScript would reorder). *)

Module JSON.

Inductive json : Type :=
| JNull
| JBool (b : bool)
| JNum (z : Z)
| JStr (s : string)
| JArr (items : list json)
| JObj (members : list (string * json)).

Definition hex_digit (upper : bool) (n : nat) : ascii :=
  if (n <? 10)%nat then ascii_of_nat (48 + n)
  else ascii_of_nat ((if upper then 55 else 87) + n).

Definition escape_char (c : ascii) : list ascii :=
  let n := code c in
  if Ascii.eqb c dquote then ["\"%char; dquote]
  else if Ascii.eqb c "\" then chars "\\"
  else if (n =? 8)%nat then chars "\b"
  else if (n =? 9)%nat then chars "\t"
  else if (n =? 10)%nat then chars "\n"
  else if (n =? 12)%nat then chars "\f"
  else if (n =? 13)%nat then chars "\r"
  else if (n <? 32)%nat
       then chars "\u00" ++ [hex_digit false (n / 16); hex_digit false (n mod 16)]
  else [c].

Definition quote (s : string) : list ascii :=
  dquote :: flat_map escape_char (chars s) ++ [dquote].

Definition number_text (z : Z) : list ascii :=
  chars (DecimalString.NilZero.string_of_int (Z.to_int z)).

Fixpoint commas (l : list (list ascii)) : list ascii :=
  match l with
  | [] => []
  | [x] => x
  | x :: rest => x ++ ","%char :: commas rest
  end.

Fixpoint stringify_chars (v : json) : list ascii :=
  match v with
  | JNull => chars "null"
  | JBool true => chars "true"
  | JBool false => chars "false"
  | JNum z => number_text z
  | JStr s => quote s
  | JArr items => "["%char :: commas (map stringify_chars items) ++ ["]"%char]
  | JObj members =>
    "{"%char ::
      commas (map (fun m => quote (fst m) ++ ":"%char :: stringify_chars (snd m)) members)
      ++ ["}"%char]
  end.

(** [JSON.stringify(v)]. *)
Definition stringify (v : json) : string := text (stringify_chars v).

Definition is_ws (c : ascii) : bool :=
  let n := code c in (n =? 32)%nat || (n =? 9)%nat || (n =? 10)%nat || (n =? 13)%nat.

Fixpoint skip_ws (s : list ascii) : list ascii :=
  match s with
  | c :: s' => if is_ws c then skip_ws s' else s
  | [] => []
  end.

Definition unexpected {A} : outcome A := Throw (SyntaxError "Unexpected token in JSON").

Definition hex_value (c : ascii) : option nat :=
  let n := code c in
  if (48 <=? n)%nat && (n <=? 57)%nat then Some (n - 48)
  else if (65 <=? n)%nat && (n <=? 70)%nat then Some (n - 55)
  else if (97 <=? n)%nat && (n <=? 102)%nat then Some (n - 87)
  else None.

(** The characters of a string literal after its opening quote. *)
Fixpoint parse_string (s : list ascii) : outcome (list ascii * list ascii) :=
  match s with
  | [] => unexpected
  | c :: s' =>
    if Ascii.eqb c dquote then Ok ([], s')
    else if Ascii.eqb c "\" then
      match s' with
      | e :: s'' =>
        let plain (x : ascii) :=
          obind (parse_string s'') (fun r => Ok (x :: fst r, snd r)) in
        if Ascii.eqb e dquote then plain dquote
        else if Ascii.eqb e "\" then plain "\"%char
        else if Ascii.eqb e "/" then plain "/"%char
        else if Ascii.eqb e "b" then plain (ascii_of_nat 8)
        else if Ascii.eqb e "f" then plain (ascii_of_nat 12)
        else if Ascii.eqb e "n" then plain (ascii_of_nat 10)
        else if Ascii.eqb e "r" then plain (ascii_of_nat 13)
        else if Ascii.eqb e "t" then plain (ascii_of_nat 9)
        else if Ascii.eqb e "u" then
          match s'' with
          | h1 :: h2 :: h3 :: h4 :: s3 =>
            match hex_value h1, hex_value h2, hex_value h3, hex_value h4 with
            | Some a, Some b, Some c3, Some d =>
              if (a =? 0)%nat && (b =? 0)%nat
              then obind (parse_string s3)
                     (fun r => Ok (ascii_of_nat (16 * c3 + d) :: fst r, snd r))
              else Beyond
            | _, _, _, _ => unexpected
            end
          | _ => unexpected
          end
        else unexpected
      | [] => unexpected
      end
    else if (code c <? 32)%nat then unexpected
    else obind (parse_string s') (fun r => Ok (c :: fst r, snd r))
  end.

Definition is_digit (c : ascii) : bool := ((48 <=? code c)%nat && (code c <=? 57)%nat).

Fixpoint parse_digits (acc : Z) (s : list ascii) : Z * list ascii :=
  match s with
  | c :: s' =>
    if is_digit c then parse_digits (10 * acc + Z.of_nat (code c - 48)) s' else (acc, s)
  | [] => (acc, [])
  end.

Definition starts_fraction (s : list ascii) : bool :=
  match s with
  | c :: _ => Ascii.eqb c "." || Ascii.eqb c "e" || Ascii.eqb c "E"
  | [] => false
  end.

(** A number whose first digit is [d]; [neg] tells a leading minus. *)
Definition parse_number (neg : bool) (d : ascii) (s : list ascii)
  : outcome (json * list ascii) :=
  let '(z, rest) :=
    if Ascii.eqb d "0" then (0%Z, s) else parse_digits (Z.of_nat (code d - 48)) s in
  if starts_fraction rest then Beyond
  else if neg && (z =? 0)%Z then Beyond
  else if (2 ^ 53 <=? z)%Z then Beyond
  else Ok (JNum (if neg then - z else z)%Z, rest).

Definition integer_like (k : list ascii) : bool :=
  match k with
  | [] => false
  | [c] => is_digit c
  | c :: _ => negb (Ascii.eqb c "0") && forallb is_digit k
  end.

Definition key_ok (k : string) (members : list (string * json)) : bool :=
  negb (integer_like (chars k)) && negb (existsb (fun m => String.eqb (fst m) k) members).

(** Whether [s] starts with the closing character [c]. *)
Definition closes (c : ascii) (s : list ascii) : bool :=
  match s with
  | x :: _ => Ascii.eqb x c
  | [] => false
  end.

Fixpoint parse_value (fuel : nat) (s : list ascii) : outcome (json * list ascii) :=
  match fuel with
  | 0 => Beyond
  | S fuel' =>
    match skip_ws s with
    | [] => unexpected
    | c :: s' =>
      if Ascii.eqb c dquote then
        obind (parse_string s') (fun r => Ok (JStr (text (fst r)), snd r))
      else if Ascii.eqb c "[" then
        if closes "]" (skip_ws s') then Ok (JArr [], tl (skip_ws s'))
        else obind (parse_items fuel' s') (fun r => Ok (JArr (fst r), snd r))
      else if Ascii.eqb c "{" then
        if closes "}" (skip_ws s') then Ok (JObj [], tl (skip_ws s'))
        else obind (parse_members fuel' s') (fun r => Ok (JObj (fst r), snd r))
      else if Ascii.eqb c "-" then
        match s' with
        | d :: s'' => if is_digit d then parse_number true d s'' else unexpected
        | [] => unexpected
        end
      else if is_digit c then parse_number false c s'
      else if starts_with (chars "null") (c :: s') then Ok (JNull, skipn 3 s')
      else if starts_with (chars "true") (c :: s') then Ok (JBool true, skipn 3 s')
      else if starts_with (chars "false") (c :: s') then Ok (JBool false, skipn 4 s')
      else unexpected
    end
  end
with parse_items (fuel : nat) (s : list ascii) : outcome (list json * list ascii) :=
  match fuel with
  | 0 => Beyond
  | S fuel' =>
    obind (parse_value fuel' s) (fun r =>
    match skip_ws (snd r) with
    | c :: rest =>
      if Ascii.eqb c "," then
        obind (parse_items fuel' rest) (fun r' => Ok (fst r :: fst r', snd r'))
      else if Ascii.eqb c "]" then Ok ([fst r], rest)
      else unexpected
    | [] => unexpected
    end)
  end
with parse_members (fuel : nat) (s : list ascii)
  : outcome (list (string * json) * list ascii) :=
  match fuel with
  | 0 => Beyond
  | S fuel' =>
    match skip_ws s with
    | q :: s1 =>
      if Ascii.eqb q dquote then
        obind (parse_string s1) (fun k =>
        match skip_ws (snd k) with
        | colon :: s2 =>
          if Ascii.eqb colon ":" then
            obind (parse_value fuel' s2) (fun r =>
            match skip_ws (snd r) with
            | c :: rest =>
              if Ascii.eqb c "," then
                obind (parse_members fuel' rest) (fun r' =>
                if key_ok (text (fst k)) (fst r')
                then Ok ((text (fst k), fst r) :: fst r', snd r')
                else Beyond)
              else if Ascii.eqb c "}" then
                if integer_like (fst k) then Beyond
                else Ok ([(text (fst k), fst r)], rest)
              else unexpected
            | [] => unexpected
            end)
          else unexpected
        | [] => unexpected
        end)
      else unexpected
    | [] => unexpected
    end
  end.

(** [JSON.parse(t)]. *)
Definition parse (t : string) : outcome json :=
  let s := chars t in
  obind (parse_value (2 * List.length s + 2) s) (fun r =>
  match skip_ws (snd r) with
  | [] => Ok (fst r)
  | _ :: _ => unexpected
  end).

(** Truthiness of a defined JSON value. *)
Definition truthy (v : json) : bool :=
  match v with
  | JNull => false
  | JBool b => b
  | JNum z => negb (z =? 0)%Z
  | JStr s => negb (String.eqb s "")
  | JArr _ | JObj _ => true
  end.

End JSON.

(** ** The WHATWG [URL] class

    The fragment: [http] and [https] URLs written with a lower-case scheme
    and [//], a host of dot-separated labels over [a-z0-9-] whose last label
    starts with a letter and none of which starts with [xn--], and an
    optional decimal port; no credentials.  Path, query and fragment are
    parsed in full: dot segments, the percent-encode sets, and the
    [application/x-www-form-urlencoded] parser and serializer behind
    [searchParams]. *)

Module Url.

Record URL : Type := mkURL {
  origin : string;
  pathname : string;
  query : string;
  fragment : string;
  searchParams : list (string * string)
}.

Definition search (u : URL) : string :=
  if String.eqb (query u) "" then "" else "?" ++ query u.

Definition hash (u : URL) : string :=
  if String.eqb (fragment u) "" then "" else "#" ++ fragment u.

Definition invalid_url {A} : outcome A := Throw (TypeError "Invalid URL").

Definition one_of (set : string) (c : ascii) : bool := existsb (Ascii.eqb c) (chars set).

Definition percent (n : nat) : list ascii :=
  ["%"%char; JSON.hex_digit true (n / 16); JSON.hex_digit true (n mod 16)].

(** UTF-8 bytes of a code unit below 256, percent-encoded. *)
Definition percent_utf8 (c : ascii) : list ascii :=
  let n := code c in
  if (n <? 128)%nat then percent n
  else percent (192 + n / 64) ++ percent (128 + n mod 64).

Definition c0_control_set (c : ascii) : bool :=
  (code c <? 32)%nat || (126 <? code c)%nat.

Definition fragment_set (c : ascii) : bool :=
  c0_control_set c || Ascii.eqb c dquote || one_of " <>`" c.

Definition special_query_set (c : ascii) : bool :=
  c0_control_set c || Ascii.eqb c dquote || one_of " #<>'" c.

Definition path_set (c : ascii) : bool :=
  c0_control_set c || Ascii.eqb c dquote || one_of " #<>?`{}" c.

Definition encode_with (set : ascii -> bool) (s : list ascii) : list ascii :=
  flat_map (fun c => if set c then percent_utf8 c else [c]) s.

Definition lower (c : ascii) : ascii :=
  if (65 <=? code c)%nat && (code c <=? 90)%nat then ascii_of_nat (code c + 32) else c.

Definition is_single_dot (b : list ascii) : bool :=
  let t := text (map lower b) in String.eqb t "." || String.eqb t "%2e".

Definition is_double_dot (b : list ascii) : bool :=
  let t := text (map lower b) in
  String.eqb t ".." || String.eqb t ".%2e" || String.eqb t "%2e." || String.eqb t "%2e%2e".

(** The end of a path segment whose encoded text is [buf]; [slash] tells
    whether a slash ended it.  [segs] is the path so far, reversed. *)
Definition close_segment (segs : list (list ascii)) (buf : list ascii) (slash : bool)
  : list (list ascii) :=
  if is_double_dot buf then
    let shortened := tl segs in
    if slash then shortened else [] :: shortened
  else if is_single_dot buf then
    if slash then segs else [] :: segs
  else buf :: segs.

(** The path state.  With [override] (the [pathname] setter) [?] and [#]
    are ordinary path characters.  A [^] is outside the fragment: whether
    it is encoded depends on the version of the URL Standard. *)
Fixpoint path_state (segs : list (list ascii)) (buf : list ascii) (s : list ascii)
  : outcome (list (list ascii)) :=
  match s with
  | [] => Ok (close_segment segs (rev buf) false)
  | c :: s' =>
    if Ascii.eqb c "/" || Ascii.eqb c "\" then
      path_state (close_segment segs (rev buf) true) [] s'
    else if Ascii.eqb c "^" then Beyond
    else path_state segs (rev (encode_with path_set [c]) ++ buf) s'
  end.

Definition serialize_path (segs : list (list ascii)) : list ascii :=
  flat_map (fun seg => "/"%char :: seg) (rev segs).

(** The path start state followed by the path state. *)
Definition parse_path (s : list ascii) : outcome string :=
  let s' :=
    match s with
    | c :: rest => if Ascii.eqb c "/" || Ascii.eqb c "\" then rest else s
    | [] => []
    end in
  omap (fun segs => text (serialize_path segs)) (path_state [] [] s').

Definition is_tab_or_newline (c : ascii) : bool :=
  let n := code c in (n =? 9)%nat || (n =? 10)%nat || (n =? 13)%nat.

Definition is_c0_or_space (c : ascii) : bool := (code c <=? 32)%nat.

Fixpoint drop_while {A} (f : A -> bool) (l : list A) : list A :=
  match l with
  | x :: l' => if f x then drop_while f l' else l
  | [] => []
  end.

Definition strip (s : list ascii) : list ascii :=
  rev (drop_while is_c0_or_space (rev (drop_while is_c0_or_space s))).

Definition without_tab_or_newline (s : list ascii) : list ascii :=
  List.filter (fun c => negb (is_tab_or_newline c)) s.

(** [span f l] splits [l] before its first element satisfying [f]. *)
Fixpoint span {A} (f : A -> bool) (l : list A) : list A * list A :=
  match l with
  | x :: l' => if f x then ([], l) else let '(a, b) := span f l' in (x :: a, b)
  | [] => ([], [])
  end.

Fixpoint split_on (sep : ascii) (s : list ascii) : list (list ascii) :=
  match s with
  | [] => [[]]
  | c :: s' =>
    if Ascii.eqb c sep then [] :: split_on sep s'
    else match split_on sep s' with
         | piece :: pieces => (c :: piece) :: pieces
         | [] => [[c]]
         end
  end.

(** ** [application/x-www-form-urlencoded] *)

Fixpoint percent_decode (s : list ascii) : outcome (list ascii) :=
  match s with
  | [] => Ok []
  | c :: s' =>
    let keep := omap (cons c) (percent_decode s') in
    if Ascii.eqb c "%" then
      match s' with
      | h1 :: ((h2 :: s'') as t) =>
        match JSON.hex_value h1, JSON.hex_value h2 with
        | Some a, Some b =>
          if (a <? 8)%nat
          then omap (cons (ascii_of_nat (16 * a + b)))
                 (match t with _ :: u => percent_decode u | [] => Ok [] end)
          else Beyond
        | _, _ => keep
        end
      | _ => keep
      end
    else if (127 <? code c)%nat then Beyond
    else keep
  end.

Definition plus_to_space (s : list ascii) : list ascii :=
  map (fun c => if Ascii.eqb c "+" then " "%char else c) s.

Definition parse_pair (piece : list ascii) : outcome (string * string) :=
  let '(name, rest) := span (Ascii.eqb "="%char) piece in
  let value := tl rest in
  obind (percent_decode (plus_to_space name)) (fun n =>
  obind (percent_decode (plus_to_space value)) (fun v =>
  Ok (text n, text v))).

Fixpoint parse_pairs (pieces : list (list ascii)) : outcome (list (string * string)) :=
  match pieces with
  | [] => Ok []
  | [] :: rest => parse_pairs rest
  | piece :: rest =>
    obind (parse_pair piece) (fun p => omap (cons p) (parse_pairs rest))
  end.

Definition parse_query (q : string) : outcome (list (string * string)) :=
  parse_pairs (split_on "&" (chars q)).

Definition is_alnum (c : ascii) : bool :=
  let n := code c in
  ((48 <=? n)%nat && (n <=? 57)%nat) || ((65 <=? n)%nat && (n <=? 90)%nat)
  || ((97 <=? n)%nat && (n <=? 122)%nat).

Definition urlencode (s : string) : list ascii :=
  flat_map (fun c =>
    if Ascii.eqb c " " then ["+"%char]
    else if is_alnum c || one_of "*-._" c then [c]
    else percent_utf8 c) (chars s).

Fixpoint serialize_pairs (l : list (string * string)) : list ascii :=
  match l with
  | [] => []
  | [(n, v)] => urlencode n ++ "="%char :: urlencode v
  | (n, v) :: rest => urlencode n ++ "="%char :: urlencode v ++ "&"%char :: serialize_pairs rest
  end.

(** ** [URLSearchParams] *)

Definition sp_get (l : list (string * string)) (name : string) : option string :=
  option_map snd (List.find (fun p => String.eqb (fst p) name) l).

Definition sp_has (l : list (string * string)) (name : string) : bool :=
  existsb (fun p => String.eqb (fst p) name) l.

(** [set]: the first pair named [name] takes the value and the others are
    removed; with no such pair, one is appended. *)
Fixpoint sp_set (l : list (string * string)) (name value : string)
  : list (string * string) :=
  match l with
  | [] => [(name, value)]
  | (n, v) :: rest =>
    if String.eqb n name
    then (n, value) :: List.filter (fun p => negb (String.eqb (fst p) name)) rest
    else (n, v) :: sp_set rest name value
  end.

(** [url.searchParams.set(name, value)], which also updates the query. *)
Definition set_param (u : URL) (name value : string) : URL :=
  let l := sp_set (searchParams u) name value in
  {| origin := origin u; pathname := pathname u;
     query := text (serialize_pairs l); fragment := fragment u;
     searchParams := l |}.

(** [url.pathname = value]. *)
Definition set_pathname (u : URL) (value : string) : outcome URL :=
  omap (fun p =>
    {| origin := origin u; pathname := p; query := query u;
       fragment := fragment u; searchParams := searchParams u |})
    (parse_path (without_tab_or_newline (chars value))).

(** ** The parser *)

Definition is_label_char (c : ascii) : bool :=
  let n := code c in
  ((48 <=? n)%nat && (n <=? 57)%nat) || ((97 <=? n)%nat && (n <=? 122)%nat)
  || Ascii.eqb c "-".

Definition is_lower_letter (c : ascii) : bool :=
  ((97 <=? code c)%nat && (code c <=? 122)%nat).

Definition label_ok (l : list ascii) : bool :=
  negb (Nat.eqb (List.length l) 0) && forallb is_label_char l
  && negb (starts_with (chars "xn--") l).

Definition host_ok (h : list ascii) : bool :=
  let labels := split_on "." h in
  forallb label_ok labels &&
  match List.last labels [] with
  | c :: _ => is_lower_letter c
  | [] => false
  end.

Definition parse_port (default : Z) (p : list ascii) : outcome string :=
  if forallb JSON.is_digit p then
    match p with
    | [] => Ok ""
    | _ :: _ =>
      let n := fst (JSON.parse_digits 0 p) in
      if (65535 <? n)%Z then invalid_url
      else if (n =? default)%Z then Ok ""
      else Ok (":" ++ text (JSON.number_text n))%string
    end
  else Beyond.

Definition parse_authority (default : Z) (a : list ascii) : outcome string :=
  let '(h, rest) := span (Ascii.eqb ":"%char) a in
  if host_ok h then
    match rest with
    | [] => Ok (text h)
    | _ :: p => omap (fun port => (text h ++ port)%string) (parse_port default p)
    end
  else Beyond.

Definition parse_after_scheme (scheme : string) (default : Z) (s : list ascii)
  : outcome URL :=
  let '(a, rest) := span (one_of "/\?#") s in
  let '(p, rest1) := span (one_of "?#") rest in
  let '(q, rest2) := span (Ascii.eqb "#"%char) (match rest1 with
                                                | "?"%char :: r => r
                                                | _ => rest1
                                                end) in
  let f := tl rest2 in
  obind (parse_authority default a) (fun host =>
  obind (parse_path p) (fun path =>
  let qs := text (encode_with special_query_set q) in
  obind (parse_query qs) (fun params =>
  Ok {| origin := (scheme ++ "://" ++ host)%string; pathname := path; query := qs;
        fragment := text (encode_with fragment_set f); searchParams := params |}))).

(** [new URL(input)]. *)
Definition new_URL (input : string) : outcome URL :=
  let s := without_tab_or_newline (strip (chars input)) in
  if starts_with (chars "https://") s then parse_after_scheme "https" 443 (skipn 8 s)
  else if starts_with (chars "http://") s then parse_after_scheme "http" 80 (skipn 7 s)
  else Beyond.

End Url.

Import JSON.

(** ** The JSON values of the model *)

Definition not_digit_led (rest : list ascii) : bool :=
  match rest with
  | c :: _ => negb (is_digit c)
  | [] => true
  end.

(** What may follow a value in a JSON text written by [stringify]. *)
Definition is_delim (rest : list ascii) : bool :=
  match rest with
  | c :: _ => Ascii.eqb c "," || Ascii.eqb c "]" || Ascii.eqb c "}"
  | [] => true
  end.

Fixpoint keys_ok (l : list (string * json)) : bool :=
  match l with
  | [] => true
  | m :: rest =>
    negb (integer_like (chars (fst m)))
    && negb (existsb (fun m' => String.eqb (fst m') (fst m)) rest)
    && keys_ok rest
  end.

(** The JSON values of the model: integers below 2^53 in magnitude, and
    objects whose keys are distinct and not integer-like. *)
Fixpoint well_formed (v : json) : bool :=
  match v with
  | JNum z => (Z.abs z <? 2 ^ 53)%Z
  | JArr items => forallb well_formed items
  | JObj members => forallb (fun m => well_formed (snd m)) members && keys_ok members
  | _ => true
  end.

Definition member_chars (m : string * json) : list ascii :=
  quote (fst m) ++ ":"%char :: stringify_chars (snd m).

(** ** The data model *)

Inductive ApiKeyPlacement : Type := HEADER | BODY | PATH | QUERY.

Inductive HttpScheme : Type := BASIC | BEARER | DIGEST.

(** [SecurityScheme]: the [type] is [APIKEY] or [HTTP]. *)
Inductive SecurityScheme : Type :=
| ApiKey (id : string) (placement : ApiKeyPlacement) (name : option string)
| Http (id : string) (scheme : HttpScheme).

(** A request header value: a string or an array of strings. *)
Inductive HeaderValue : Type :=
| HStr (s : string)
| HArr (l : list string).

(** [value.toString()]: an array joins its elements with a comma. *)
Definition toString (v : HeaderValue) : string :=
  match v with
  | HStr s => s
  | HArr l => join "," l
  end.

Record RecordingDefinition : Type := mkDefinition {
  scope : string;
  path : string;
  method : option string;
  status : option Z;
  reqheaders : option (gmap string HeaderValue);
  rawHeaders : option (list string);
  body : option json;
  response : option json
}.

Definition with_reqheaders (h : gmap string HeaderValue) (d : RecordingDefinition) :=
  {| scope := scope d; path := path d; method := method d; status := status d;
     reqheaders := Some h; rawHeaders := rawHeaders d; body := body d;
     response := response d |}.

Definition with_rawHeaders (h : list string) (d : RecordingDefinition) :=
  {| scope := scope d; path := path d; method := method d; status := status d;
     reqheaders := reqheaders d; rawHeaders := Some h; body := body d;
     response := response d |}.

Definition with_body (b : json) (d : RecordingDefinition) :=
  {| scope := scope d; path := path d; method := method d; status := status d;
     reqheaders := reqheaders d; rawHeaders := rawHeaders d; body := Some b;
     response := response d |}.

Definition with_response (r : json) (d : RecordingDefinition) :=
  {| scope := scope d; path := path d; method := method d; status := status d;
     reqheaders := reqheaders d; rawHeaders := rawHeaders d; body := body d;
     response := Some r |}.

Definition with_scope (s : string) (d : RecordingDefinition) :=
  {| scope := s; path := path d; method := method d; status := status d;
     reqheaders := reqheaders d; rawHeaders := rawHeaders d; body := body d;
     response := response d |}.

Definition with_path (p : string) (d : RecordingDefinition) :=
  {| scope := scope d; path := p; method := method d; status := status d;
     reqheaders := reqheaders d; rawHeaders := rawHeaders d; body := body d;
     response := response d |}.

(** ** The monad of the editors: the exchange is mutated in place, and a
    throw leaves it as the statements before the throw made it. *)

Definition M (A : Type) : Type := RecordingDefinition -> outcome A * RecordingDefinition.

Definition ret {A} (a : A) : M A := fun d => (Ok a, d).

Definition bind {A B} (m : M A) (f : A -> M B) : M B :=
  fun d =>
    match m d with
    | (Ok a, d') => f a d'
    | (Throw e, d') => (Throw e, d')
    | (Beyond, d') => (Beyond, d')
    end.

Definition lift {A} (x : outcome A) : M A := fun d => (x, d).

Definition throw {A} (e : error) : M A := lift (Throw e).

Definition get : M RecordingDefinition := fun d => (Ok d, d).

Definition modify (f : RecordingDefinition -> RecordingDefinition) : M unit :=
  fun d => (Ok tt, f d).

Declare Scope editor_scope.
Delimit Scope editor_scope with editor.
Notation "x <- m ;; k" := (bind m (fun x => k))
  (at level 63, m at next level, right associativity) : editor_scope.
Notation "m ;;; k" := (bind m (fun _ => k))
  (at level 63, right associativity) : editor_scope.
Local Open Scope editor_scope.

Fixpoint for_each {A} (l : list A) (f : A -> M unit) : M unit :=
  match l with
  | [] => ret tt
  | x :: rest => f x ;;; for_each rest f
  end.

Fixpoint map_outcome {A B} (f : A -> outcome B) (l : list A) : outcome (list B) :=
  match l with
  | [] => Ok []
  | x :: rest => obind (f x) (fun y => omap (cons y) (map_outcome f rest))
  end.

(** ** The substring redactor and the field editors *)

Definition AUTH_HEADER_NAME : string := "Authorization".

Definition replaceCredential (payload credential placeholder : string) : outcome string :=
  if negb (String.eqb credential "")
  then Regex.replace_global payload credential placeholder
  else Ok payload.

(** [definition.reqheaders[name] = value]. *)
Definition set_reqheader (name : string) (value : HeaderValue) : M unit :=
  modify (fun d =>
    match reqheaders d with
    | Some h => with_reqheaders (<[name := value]> h) d
    | None => d
    end).

(** The body of the loop of [replaceCredentialInHeaders] for one entry. *)
Definition replace_header (credential placeholder : string) (e : string * HeaderValue)
  : M unit :=
  r <- lift (replaceCredential (toString (snd e)) credential placeholder) ;;
  set_reqheader (fst e) (HStr r).

(** [Object.entries] lists the entries of the map; each key occurs once,
    and the loop writes only the key it reads, so the order plays no part
    (lemma [headers_editor_any_order]). *)
Definition replaceCredentialInHeaders (credential placeholder : string) : M unit :=
  definition <- get ;;
  match reqheaders definition with
  | Some h =>
    let headers :=
      List.filter (fun e => includes (toString (snd e)) credential) (map_to_list h) in
    for_each headers (replace_header credential placeholder)
  | None => ret tt
  end.

Definition replaceCredentialInRawHeaders (credential placeholder : string) : M unit :=
  definition <- get ;;
  match rawHeaders definition with
  | Some raw =>
    l <- lift (map_outcome (fun header => replaceCredential header credential placeholder) raw) ;;
    modify (with_rawHeaders l)
  | None => ret tt
  end.

Definition replaceCredentialInBody (credential placeholder : string) : M unit :=
  definition <- get ;;
  match body definition with
  | Some b =>
    if negb (match b with JStr s => String.eqb s "" | _ => false end) then
      let text := stringify b in
      if includes text credential then
        replaced <- lift (replaceCredential text credential placeholder) ;;
        parsed <- lift (JSON.parse replaced) ;;
        modify (with_body parsed)
      else ret tt
    else ret tt
  | None => ret tt
  end.

Definition replaceCredentialInResponse (credential placeholder : string) : M unit :=
  definition <- get ;;
  match response definition with
  | Some r =>
    if truthy r then
      replaced <- lift (replaceCredential (stringify r) credential placeholder) ;;
      parsed <- lift (JSON.parse replaced) ;;
      modify (with_response parsed)
    else ret tt
  | None => ret tt
  end.

Definition replaceCredentialInScope (credential placeholder : string) : M unit :=
  definition <- get ;;
  if includes (scope definition) credential then
    replaced <- lift (replaceCredential (scope definition) credential placeholder) ;;
    modify (with_scope replaced)
  else ret tt.

(** [new URL(new URL(baseUrl).origin + definition.path)]. *)
Definition definitionURL (baseUrl : string) (definition : RecordingDefinition)
  : outcome Url.URL :=
  obind (Url.new_URL baseUrl) (fun base =>
  Url.new_URL (Url.origin base ++ path definition)).

Definition path_of (u : Url.URL) : string :=
  Url.pathname u ++ Url.search u ++ Url.hash u.

(** The loop over [searchParams.entries()]: the iterator reads the live
    list by index, and [set] may shorten it. *)
Fixpoint query_loop (fuel i : nat) (credential placeholder : string) (u : Url.URL)
  : outcome Url.URL :=
  match fuel with
  | 0 => Ok u
  | S fuel' =>
    match nth_error (Url.searchParams u) i with
    | None => Ok u
    | Some (key, queryValue) =>
      if includes queryValue credential then
        obind (replaceCredential queryValue credential placeholder) (fun r =>
        query_loop fuel' (S i) credential placeholder (Url.set_param u key r))
      else query_loop fuel' (S i) credential placeholder u
    end
  end.

Definition replaceCredentialInQuery (baseUrl credential placeholder : string) : M unit :=
  definition <- get ;;
  u <- lift (definitionURL baseUrl definition) ;;
  u' <- lift (query_loop (List.length (Url.searchParams u)) 0 credential placeholder u) ;;
  modify (with_path (path_of u')).

Definition replaceCredentialInPath (baseUrl credential placeholder : string) : M unit :=
  definition <- get ;;
  u <- lift (definitionURL baseUrl definition) ;;
  u' <- lift (if includes (Url.pathname u) credential
              then obind (replaceCredential (Url.pathname u) credential placeholder)
                         (Url.set_pathname u)
              else Ok u) ;;
  modify (with_path (path_of u')).

(** ** The scheme redactors *)

Definition replaceApiKeyInHeader (name : option string) (credential placeholder : string)
  : M unit :=
  definition <- get ;;
  match name with
  | Some n =>
    match reqheaders definition ≫= (.!! n) with
    | Some v =>
      r <- lift (replaceCredential (toString v) credential placeholder) ;;
      set_reqheader n (HStr r)
    | None => ret tt
    end
  | None => ret tt
  end ;;;
  replaceCredentialInHeaders credential placeholder.

Definition replaceApiKeyInBody (credential placeholder : string) : M unit :=
  replaceCredentialInBody credential placeholder.

Definition replaceApiKeyInPath (baseUrl credential placeholder : string) : M unit :=
  replaceCredentialInPath baseUrl credential placeholder.

Definition replaceApiKeyInQuery (name : option string) (baseUrl credential placeholder : string)
  : M unit :=
  definition <- get ;;
  u <- lift (definitionURL baseUrl definition) ;;
  match name with
  | Some n =>
    if Url.sp_has (Url.searchParams u) n &&
       match Url.sp_get (Url.searchParams u) n with
       | Some v => includes v credential
       | None => false
       end
    then modify (with_path (path_of (Url.set_param u n placeholder)))
    else ret tt
  | None => ret tt
  end ;;;
  replaceCredentialInQuery baseUrl credential placeholder.

Definition replaceApiKey (placement : ApiKeyPlacement) (name : option string)
    (baseUrl credential placeholder : string) : M unit :=
  match placement with
  | HEADER =>
    replaceApiKeyInHeader name credential placeholder ;;;
    replaceCredentialInRawHeaders credential placeholder
  | BODY => replaceApiKeyInBody credential placeholder
  | PATH => replaceApiKeyInPath baseUrl credential placeholder
  | QUERY => replaceApiKeyInQuery name baseUrl credential placeholder
  end.

Definition has_auth_header (d : RecordingDefinition) : bool :=
  match reqheaders d ≫= (.!! AUTH_HEADER_NAME) with
  | Some _ => true
  | None => false
  end.

Definition replaceBasicAuth (placeholder : string) : M unit :=
  definition <- get ;;
  if has_auth_header definition
  then set_reqheader AUTH_HEADER_NAME (HStr ("Basic " ++ placeholder))
  else ret tt.

Definition replaceBearerAuth (placeholder : string) : M unit :=
  definition <- get ;;
  if has_auth_header definition
  then set_reqheader AUTH_HEADER_NAME (HStr ("Bearer " ++ placeholder))
  else ret tt.

Definition replaceCredentialInDefinition (scheme : SecurityScheme)
    (baseUrl credential placeholder : string) : M unit :=
  match scheme with
  | ApiKey _ placement name => replaceApiKey placement name baseUrl credential placeholder
  | Http _ BASIC =>
    replaceBasicAuth placeholder ;;;
    replaceCredentialInRawHeaders credential placeholder
  | Http _ BEARER =>
    replaceBearerAuth placeholder ;;;
    replaceCredentialInRawHeaders credential placeholder
  | Http _ DIGEST => throw (UnexpectedError "Digest auth not implemented")
  end ;;;
  replaceCredentialInResponse credential placeholder.

Definition replaceParameterInDefinition (baseUrl credential placeholder : string) : M unit :=
  replaceCredentialInHeaders credential placeholder ;;;
  replaceCredentialInRawHeaders credential placeholder ;;;
  replaceCredentialInBody credential placeholder ;;;
  replaceCredentialInResponse credential placeholder ;;;
  replaceCredentialInScope credential placeholder ;;;
  replaceCredentialInPath baseUrl credential placeholder ;;;
  replaceCredentialInQuery baseUrl credential placeholder.

(** ** Frames *)

(** [keeps f m]: whatever [m] does, and however it ends, the part [f] of
    the exchange is as before. *)
Definition keeps {A X} (f : RecordingDefinition -> X) (m : M A) : Prop :=
  forall d, f (m d).2 = f d.

(** [relates R f m]: the part [f] of the exchange after [m] is related by
    [R] to what it was. *)
Definition relates {A X} (R : X -> X -> Prop) (f : RecordingDefinition -> X) (m : M A)
  : Prop :=
  forall d, R (f d) (f (m d).2).

(** ** What the editors make of a header value *)

(** The value written for a header whose string form is [v]. *)
Definition redacted (credential placeholder : string) (v : HeaderValue) : HeaderValue :=
  match replaceCredential (toString v) credential placeholder with
  | Ok s => HStr s
  | _ => v
  end.

(** The value of a header after the headers editor. *)
Definition redact_value (credential placeholder : string) (v : HeaderValue) : HeaderValue :=
  if includes (toString v) credential then redacted credential placeholder v else v.

Definition write_all (credential placeholder : string)
    (l : list (string * HeaderValue)) (h : gmap string HeaderValue) : gmap string HeaderValue :=
  fold_left (fun acc e => <[fst e := redacted credential placeholder (snd e)]> acc) l h.

(** ** Literal replacement, and restoration

    The specification describes the substring redactor as a global literal
    replacement; this is that replacement, for comparison with
    [replaceCredential] and as the substitution of the restorer. *)

(** Scan of [s] from left to right: where [pat] starts, [rep] is written
    and the scan passes over [pat]; [skip] counts the code units of [pat]
    still to pass over. *)
Fixpoint literal_from (pat rep : list ascii) (s : list ascii) (skip : nat) : list ascii :=
  match skip with
  | S n =>
    match s with
    | _ :: s' => literal_from pat rep s' n
    | [] => []
    end
  | 0 =>
    match s with
    | [] => []
    | c :: s' =>
      if starts_with pat s
      then rep ++ literal_from pat rep s' (List.length pat - 1)
      else c :: literal_from pat rep s' 0
    end
  end.

(** Every occurrence of the literal text [pat] in [payload] replaced by
    [rep]; an empty [pat] replaces nothing. *)
Definition replace_literal (payload pat rep : string) : string :=
  if String.eqb pat "" then payload
  else text (literal_from (chars pat) (chars rep) (chars payload) 0).

(** Modelled from the spec: the restoring direction of the substring
    redactor ("wherever a placeholder tagged with this scheme's id is
    found, substitute the real secret value").  The repository's restorer
    ([loadCredentials] and the functions of [nock.utils] it calls) is not
    among the sources. *)
Definition restoreCredential (payload placeholder secret : string) : string :=
  replace_literal payload placeholder secret.

(** Modelled from the spec: the restoring direction of the headers editor,
    on one header value.  The repository's restorer is not among the
    sources. *)
Definition restore_header (placeholder secret : string) (v : HeaderValue) : HeaderValue :=
  match v with
  | HStr s => HStr (restoreCredential s placeholder secret)
  | HArr l => HArr (map (fun s => restoreCredential s placeholder secret) l)
  end.

(** Modelled from the spec: the restoring direction of a JSON field editor,
    which rewrites the JSON text of the field where it holds the
    placeholder.  The repository's restorer is not among the sources. *)
Definition restore_json (placeholder secret : string) (o : option json)
  : outcome (option json) :=
  match o with
  | Some v =>
    if includes (stringify v) placeholder
    then omap Some (JSON.parse (restoreCredential (stringify v) placeholder secret))
    else Ok o
  | None => Ok None
  end.

(** Modelled from the spec: restoration of one exchange, the inverse
    mapping of redaction: the placeholder is replaced by the secret in the
    request headers, the raw headers, body, response, scope and path.  The
    repository's restorer is not among the sources. *)
Definition restoreCredentialInDefinition (placeholder secret : string) : M unit :=
  definition <- get ;;
  b <- lift (restore_json placeholder secret (body definition)) ;;
  r <- lift (restore_json placeholder secret (response definition)) ;;
  modify (fun d =>
    {| scope := restoreCredential (scope d) placeholder secret;
       path := restoreCredential (path d) placeholder secret;
       method := method d; status := status d;
       reqheaders := fmap (M := gmap string) (restore_header placeholder secret)
                     <$> reqheaders d;
       rawHeaders := map (fun s => restoreCredential s placeholder secret)
                     <$> rawHeaders d;
       body := b; response := r |}).

(** Round trip, as specified: redaction by the scheme completes, and
    restoring its result gives the exchange back. *)
Definition round_trip (scheme : SecurityScheme) (baseUrl secret placeholder : string)
    (d : RecordingDefinition) : Prop :=
  exists d1,
    replaceCredentialInDefinition scheme baseUrl secret placeholder d = (Ok tt, d1)
    /\ restoreCredentialInDefinition placeholder secret d1 = (Ok tt, d).

(** ** The claims of the specification that the code does not meet,
    stated for comparison *)

(** The headers editor as specified: an entry is touched exactly when
    [joined] of its value contains the secret, and is then replaced by the
    redacted [joined] text; the other entries keep name and value. *)
Definition headers_editor_touches (joined : HeaderValue -> string)
    (credential placeholder : string) (d : RecordingDefinition) : Prop :=
  forall h, reqheaders d = Some h ->
  exists h',
    reqheaders (replaceCredentialInHeaders credential placeholder d).2 = Some h'
    /\ forall name,
         match h !! name with
         | Some v =>
           if includes (joined v) credential
           then exists s, replaceCredential (joined v) credential placeholder = Ok s
                          /\ h' !! name = Some (HStr s)
           else h' !! name = Some v
         | None => h' !! name = None
         end.

(** The join of the specification: a sequence joined with a comma and a
    space. *)
Definition spec_joined (v : HeaderValue) : string :=
  match v with
  | HStr s => s
  | HArr l => join ", " l
  end.

(** API key in a header, as specified: the value of the header named by
    the scheme becomes the placeholder, whole. *)
Definition named_header_replaced_entirely (id name baseUrl credential placeholder : string)
    (d : RecordingDefinition) : Prop :=
  forall h v, reqheaders d = Some h -> h !! name = Some v ->
  reqheaders (replaceCredentialInDefinition (ApiKey id HEADER (Some name))
                baseUrl credential placeholder d).2 ≫= (.!! name)
  = Some (HStr placeholder).

(** The response editor as specified: whenever the response is defined,
    scheme redaction stores the parsed, redacted JSON text of it. *)
Definition response_editor_runs (scheme : SecurityScheme)
    (baseUrl credential placeholder : string) (d : RecordingDefinition) : Prop :=
  forall r, response d = Some r ->
  exists s v,
    replaceCredential (stringify r) credential placeholder = Ok s
    /\ JSON.parse s = Ok v
    /\ response (replaceCredentialInDefinition scheme baseUrl credential placeholder d).2
       = Some v.

(** An editor that mutates no field of the exchange. *)
Definition mutates_nothing {A} (m : M A) (d : RecordingDefinition) : Prop :=
  (m d).2 = d.

(** [json_round_trip o o']: the field [o'] is the field [o], as it was or
    after [JSON.parse(JSON.stringify(...))]. *)
Definition json_round_trip (o o' : option json) : Prop :=
  o' = o \/ exists v v', o = Some v /\ JSON.parse (stringify v) = Ok v' /\ o' = Some v'.

(** Every header value turned into its string form. *)
Definition stringified (o : option (gmap string HeaderValue))
  : option (gmap string HeaderValue) :=
  match o with
  | Some h => Some ((fun v => HStr (toString v)) <$> h)
  | None => None
  end.

(** ** Example exchanges *)

Definition exchange_with_body (b : option json) : RecordingDefinition :=
  {| scope := "https://localhost"; path := "/get?text=123"; method := Some "GET";
     status := Some 200%Z; reqheaders := None; rawHeaders := None; body := b;
     response := None |}.

Definition exchange_with_headers (h : gmap string HeaderValue) : RecordingDefinition :=
  {| scope := "https://localhost"; path := "/get?text=123"; method := Some "GET";
     status := Some 200%Z; reqheaders := Some h; rawHeaders := None; body := None;
     response := None |}.

Definition exchange_with_response (r : json) : RecordingDefinition :=
  {| scope := "https://localhost"; path := "/get?text=123"; method := Some "GET";
     status := Some 200%Z; reqheaders := None; rawHeaders := None; body := None;
     response := Some r |}.

Definition exchange_with_path (p : string) : RecordingDefinition :=
  {| scope := "https://localhost"; path := p; method := Some "GET";
     status := Some 200%Z; reqheaders := None; rawHeaders := None; body := None;
     response := None |}.

(** ** Conditions of the round trip *)

(** A code unit that is no syntax character of the pattern language. *)
Definition plain (c : ascii) : bool := negb (Regex.is_syntax_char c).

Definition no_dollar (c : ascii) : bool := negb (Ascii.eqb c "$").

Definition occurs (c : ascii) (s : list ascii) : bool := existsb (Ascii.eqb c) s.

(** A placeholder is fresh for a text when its first code unit does not
    occur in the text. *)
Definition fresh_for (placeholder : string) (s : string) : bool :=
  match placeholder with
  | String c _ => negb (occurs c (chars s))
  | EmptyString => false
  end.

Definition all_headers (f : HeaderValue -> bool) (d : RecordingDefinition) : bool :=
  match reqheaders d with
  | Some h => forallb (fun e => f (snd e)) (map_to_list h)
  | None => true
  end.

Definition is_string (v : HeaderValue) : bool :=
  match v with
  | HStr _ => true
  | HArr _ => false
  end.

(** The placeholder is fresh for every text of the exchange. *)
Definition fresh_exchange (placeholder : string) (d : RecordingDefinition) : bool :=
  fresh_for placeholder (scope d) && fresh_for placeholder (path d)
  && all_headers (fun v => fresh_for placeholder (toString v)) d
  && match rawHeaders d with
     | Some raw => forallb (fresh_for placeholder) raw
     | None => true
     end
  && match body d with
     | Some b => fresh_for placeholder (stringify b)
     | None => true
     end
  && match response d with
     | Some r => fresh_for placeholder (stringify r)
     | None => true
     end.

(** The redacted value of the header named by the scheme holds no
    occurrence of the secret. *)
Definition named_header_clean (name : option string) (secret placeholder : string)
    (d : RecordingDefinition) : bool :=
  match name with
  | Some n =>
    match reqheaders d ≫= (.!! n) with
    | Some v => negb (includes (replace_literal (toString v) secret placeholder) secret)
    | None => true
    end
  | None => true
  end.

(** The response, when truthy, does not hold the secret and is a JSON
    value of the model. *)
Definition response_inert (secret : string) (d : RecordingDefinition) : bool :=
  match response d with
  | Some r => negb (truthy r) || (negb (includes (stringify r) secret) && well_formed r)
  | None => true
  end.

Definition recorded_exchange : RecordingDefinition :=
  {| scope := "https://localhost"; path := "/get?text=123"; method := Some "GET";
     status := Some 200%Z;
     reqheaders := Some {[ "api_key" := HStr "secret"; "Accept" := HStr "*/*" ]};
     rawHeaders := Some ["x-request-id"; "id-secret-1"];
     body := None;
     response := Some (JObj [("ok", JBool true)]) |}.

Definition with_headers (o : option (gmap string HeaderValue)) (d : RecordingDefinition) :=
  {| scope := scope d; path := path d; method := method d; status := status d;
     reqheaders := o; rawHeaders := rawHeaders d; body := body d;
     response := response d |}.

(** The [Authorization] header, when there is one, is [prefix] followed by
    the secret. *)
Definition authorization_is (prefix secret : string) (d : RecordingDefinition) : bool :=
  match reqheaders d ≫= (.!! AUTH_HEADER_NAME) with
  | Some (HStr s) => String.eqb s (prefix ++ secret)
  | Some (HArr _) => false
  | None => true
  end.

(** The conditions on the headers under which a scheme's redaction can be
    undone: for an API key in a header, the redacted value of the named
    header holds no occurrence of the secret; for Basic and Bearer, the
    [Authorization] header is the scheme's word followed by the secret. *)
Definition headers_restorable (scheme : SecurityScheme) (secret placeholder : string)
    (d : RecordingDefinition) : bool :=
  all_headers is_string d &&
  match scheme with
  | ApiKey _ HEADER name => named_header_clean name secret placeholder d
  | Http _ BASIC => authorization_is "Basic " secret d
  | Http _ BEARER => authorization_is "Bearer " secret d
  | _ => false
  end.

Definition bearer_exchange : RecordingDefinition :=
  {| scope := "https://localhost"; path := "/get?text=123"; method := Some "GET";
     status := Some 200%Z;
     reqheaders := Some {[ "Authorization" := HStr "Bearer secret";
                           "Accept" := HStr "*/*" ]};
     rawHeaders := Some ["x-request-id"; "id-secret-1"];
     body := None;
     response := Some (JObj [("ok", JBool true)]) |}.

(** ** Vocabulary of the further properties *)

(** The placeholder and the secret are apart: the placeholder is
    non-empty, its first character does not occur in the secret, and the
    first character of the secret does not occur in the placeholder. *)
Definition apart (placeholder secret : string) : bool :=
  match chars placeholder, chars secret with
  | p :: _, v :: _ =>
    negb (occurs p (chars secret)) && negb (occurs v (chars placeholder))
  | _, _ => false
  end.

(** No request header of the exchange holds the secret in its string form. *)
Definition headers_clean (secret : string) (d : RecordingDefinition) : Prop :=
  forall h k v, reqheaders d = Some h -> h !! k = Some v ->
    includes (toString v) secret = false.

(** No raw header of the exchange holds the secret. *)
Definition raw_headers_clean (secret : string) (d : RecordingDefinition) : Prop :=
  forall raw x, rawHeaders d = Some raw -> In x raw -> includes x secret = false.

(** The header named by an API-key scheme after the first step of
    [replaceApiKeyInHeader]. *)
Definition named_redacted (name : option string) (credential placeholder : string)
    (h : gmap string HeaderValue) : gmap string HeaderValue :=
  match name with
  | Some n =>
    match h !! n with
    | Some v => <[n := redacted credential placeholder v]> h
    | None => h
    end
  | None => h
  end.

Definition defined {A} (o : option A) : bool :=
  match o with
  | Some _ => true
  | None => false
  end.

(** The shape of an exchange: its method and status, the names of its
    request headers, the number of its raw headers, and whether it has a
    body and a response. *)
Definition shape (d : RecordingDefinition)
  : option string * option Z * option (gset string) * option nat * bool * bool :=
  (method d, status d, dom <$> reqheaders d, List.length <$> rawHeaders d,
   defined (body d), defined (response d)).

(** ** Redaction inside a JSON value *)

(** [f] applied to every string of a JSON value: the string values and
    the keys of the objects. *)
Fixpoint map_strings (f : string -> string) (v : json) : json :=
  match v with
  | JStr s => JStr (f s)
  | JArr items => JArr (map (map_strings f) items)
  | JObj members => JObj (map (fun m => (f (fst m), map_strings f (snd m))) members)
  | _ => v
  end.

(** [p] holds of every string of a JSON value. *)
Fixpoint all_strings (p : string -> bool) (v : json) : bool :=
  match v with
  | JStr s => p s
  | JArr items => forallb (all_strings p) items
  | JObj members => forallb (fun m => p (fst m) && all_strings p (snd m)) members
  | _ => true
  end.

(** The code units that [JSON.stringify] writes as themselves inside a
    string. *)
Definition unescaped (c : ascii) : bool :=
  negb (Ascii.eqb c dquote) && negb (Ascii.eqb c "\") && (32 <=? code c)%nat.

Definition unescaped_string (s : string) : bool := forallb unescaped (chars s).

(** The code units of a JSON text outside its strings. *)
Definition structural (c : ascii) : bool :=
  existsb (Ascii.eqb c) (chars "[]{},:-0123456789truefalsn").

(** A secret that can only occur inside the strings of a JSON text: it
    has no pattern syntax and no double quote, and one of its characters
    is not written outside strings. *)
Definition string_bound (secret : string) : bool :=
  forallb plain (chars secret)
  && negb (occurs dquote (chars secret))
  && existsb (fun c => negb (structural c)) (chars secret).

(** Up to its first double quote, [s] is made of structural characters. *)
Fixpoint guarded (s : list ascii) : bool :=
  match s with
  | [] => true
  | c :: r => Ascii.eqb c dquote || (structural c && guarded r)
  end.

(** The secret replaced by the placeholder inside every string of a JSON
    value. *)
Definition redact_strings (secret placeholder : string) (v : json) : json :=
  map_strings (fun s => replace_literal s secret placeholder) v.

(** A body or response that the JSON editors redact string by string: its
    strings are written unescaped, and it and its redacted form are JSON
    values of the model. *)
Definition json_redactable (secret placeholder : string) (o : option json) : bool :=
  match o with
  | Some v =>
    all_strings unescaped_string v && well_formed v
    && well_formed (redact_strings secret placeholder v)
  | None => true
  end.

(** An exchange with scope, raw headers and path for the examples. *)
Definition traced_exchange : RecordingDefinition :=
  {| scope := "https://api.test:443"; path := "/v1/items?token=s3cr3t&page=2";
     method := Some "POST"; status := Some 200%Z;
     reqheaders := Some {[ "X-Api-Key" := HStr "s3cr3t"; "Accept" := HArr ["a/b"; "s3cr3t"] ]};
     rawHeaders := Some ["Set-Cookie"; "sid=s3cr3t; Path=/"];
     body := Some (JObj [("key", JStr "s3cr3t"); ("n", JNum 7)]);
     response := Some (JArr [JStr "echo s3cr3t"; JNull]) |}.

(** ** The configuration of a test ([superface-test.utils], [superface-test])

    [ErrorBase] of [common/errors]: an error has a [kind] and a [message];
    each error class fixes the kind and builds the message. *)

Record ErrorBase : Type := mkErrorBase {
  kind : string;
  message : string
}.

Definition ComponentUndefinedError (component : string) : ErrorBase :=
  mkErrorBase "ComponentUndefinedError" ("Undefined " ++ component).

Definition InstanceMissingError (component : string) : ErrorBase :=
  mkErrorBase "InstanceMissingError" ("Should be " ++ component ++ " instance.").

(** A component of the configuration: undefined, the name of the
    component as a string, or an instance of its class. *)
Inductive component (A : Type) : Type :=
| Undefined
| Named (name : string)
| Instance (a : A).

Arguments Undefined {A}.
Arguments Named {A} name.
Arguments Instance {A} a.

Section Configuration.

(** The classes of the SDK, and what its calls may throw. *)
Variables SuperfaceClient Profile Provider UseCase Failure : Type.

(** What a call may throw: an error of the library, a failure of the SDK,
    or an error of the runtime. *)
Inductive thrown : Type :=
| Own (e : ErrorBase)
| Sdk (x : Failure)
| Runtime (e : error).

Inductive completion (A : Type) : Type :=
| Returns (a : A)
| Throws (t : thrown).

Arguments Returns {A} a.
Arguments Throws {A} t.

Record SuperfaceTestConfigPayload : Type := mkConfig {
  client : option SuperfaceClient;
  profile : component Profile;
  provider : component Provider;
  useCase : component UseCase
}.

Definition assertsPreparedClient (c : option SuperfaceClient) : completion unit :=
  match c with
  | None => Throws (Own (ComponentUndefinedError "Client"))
  | Some _ => Returns tt
  end.

Definition assertsPreparedProfile (p : component Profile) : completion unit :=
  match p with
  | Undefined => Throws (Own (ComponentUndefinedError "Profile"))
  | Named _ => Throws (Own (InstanceMissingError "Profile"))
  | Instance _ => Returns tt
  end.

Definition assertsPreparedProvider (p : component Provider) : completion unit :=
  match p with
  | Undefined => Throws (Own (ComponentUndefinedError "Provider"))
  | Named _ => Throws (Own (InstanceMissingError "Provider"))
  | Instance _ => Returns tt
  end.

Definition assertsPreparedUseCase (u : component UseCase) : completion unit :=
  match u with
  | Undefined => Throws (Own (ComponentUndefinedError "UseCase"))
  | Named _ => Throws (Own (InstanceMissingError "UseCase"))
  | Instance _ => Returns tt
  end.

Definition and_then {A B} (x : completion A) (k : A -> completion B) : completion B :=
  match x with
  | Returns a => k a
  | Throws t => Throws t
  end.

Definition assertsPreparedConfig (sfConfig : SuperfaceTestConfigPayload) : completion unit :=
  and_then (assertsPreparedClient (client sfConfig)) (fun _ =>
  and_then (assertsPreparedProfile (profile sfConfig)) (fun _ =>
  and_then (assertsPreparedProvider (provider sfConfig)) (fun _ =>
  assertsPreparedUseCase (useCase sfConfig)))).

(** [prepareSuperfaceConfig]: every component the payload defines takes
    the place of the one in [this.sfConfig]. *)
Definition prepareSuperfaceConfig (payload sfConfig : SuperfaceTestConfigPayload)
  : SuperfaceTestConfigPayload :=
  {| client := match client payload with Some c => Some c | None => client sfConfig end;
     profile := match profile payload with Undefined => profile sfConfig | p => p end;
     provider := match provider payload with Undefined => provider sfConfig | p => p end;
     useCase := match useCase payload with Undefined => useCase sfConfig | u => u end |}.

(** The calls of the SDK. *)
Variable new_SuperfaceClient : completion SuperfaceClient.
Variable getProfile : SuperfaceClient -> string -> completion Profile.
Variable getProvider : SuperfaceClient -> string -> completion Provider.
Variable getUseCase : Profile -> string -> completion UseCase.

(** [setupSuperfaceConfig] mutates [this.sfConfig] step by step; the
    result pairs how it ends with the configuration it leaves. *)
Definition setup_client (sfConfig : SuperfaceTestConfigPayload)
  : completion SuperfaceClient * SuperfaceTestConfigPayload :=
  match client sfConfig with
  | Some c => (Returns c, sfConfig)
  | None =>
    match new_SuperfaceClient with
    | Returns c =>
      (Returns c,
       {| client := Some c; profile := profile sfConfig; provider := provider sfConfig;
          useCase := useCase sfConfig |})
    | Throws t => (Throws t, sfConfig)
    end
  end.

Definition setup_profile (c : SuperfaceClient) (sfConfig : SuperfaceTestConfigPayload)
  : completion unit * SuperfaceTestConfigPayload :=
  match profile sfConfig with
  | Named name =>
    match getProfile c name with
    | Returns p =>
      (Returns tt,
       {| client := client sfConfig; profile := Instance p; provider := provider sfConfig;
          useCase := useCase sfConfig |})
    | Throws t => (Throws t, sfConfig)
    end
  | _ => (Returns tt, sfConfig)
  end.

Definition setup_provider (c : SuperfaceClient) (sfConfig : SuperfaceTestConfigPayload)
  : completion unit * SuperfaceTestConfigPayload :=
  match provider sfConfig with
  | Named name =>
    match getProvider c name with
    | Returns p =>
      (Returns tt,
       {| client := client sfConfig; profile := profile sfConfig; provider := Instance p;
          useCase := useCase sfConfig |})
    | Throws t => (Throws t, sfConfig)
    end
  | _ => (Returns tt, sfConfig)
  end.

Definition setup_useCase (sfConfig : SuperfaceTestConfigPayload)
  : completion unit * SuperfaceTestConfigPayload :=
  match useCase sfConfig with
  | Named name =>
    match profile sfConfig with
    | Undefined => (Throws (Own (ComponentUndefinedError "Profile")), sfConfig)
    | Named _ =>
      (Throws (Runtime (TypeError "this.sfConfig.profile.getUseCase is not a function")),
       sfConfig)
    | Instance p =>
      match getUseCase p name with
      | Returns u =>
        (Returns tt,
         {| client := client sfConfig; profile := profile sfConfig;
            provider := provider sfConfig; useCase := Instance u |})
      | Throws t => (Throws t, sfConfig)
      end
    end
  | _ => (Returns tt, sfConfig)
  end.

Definition setupSuperfaceConfig (sfConfig : SuperfaceTestConfigPayload)
  : completion unit * SuperfaceTestConfigPayload :=
  match setup_client sfConfig with
  | (Returns c, cfg1) =>
    match setup_profile c cfg1 with
    | (Returns _, cfg2) =>
      match setup_provider c cfg2 with
      | (Returns _, cfg3) => setup_useCase cfg3
      | (Throws t, cfg3) => (Throws t, cfg3)
      end
    | (Throws t, cfg2) => (Throws t, cfg2)
    end
  | (Throws t, cfg1) => (Throws t, cfg1)
  end.

End Configuration.

Arguments Own {Failure} e.
Arguments Sdk {Failure} x.
Arguments Runtime {Failure} e.
Arguments Returns {Failure A} a.
Arguments Throws {Failure A} t.
Arguments mkConfig {SuperfaceClient Profile Provider UseCase} _ _ _ _.
Arguments client {SuperfaceClient Profile Provider UseCase} _.
Arguments profile {SuperfaceClient Profile Provider UseCase} _.
Arguments provider {SuperfaceClient Profile Provider UseCase} _.
Arguments useCase {SuperfaceClient Profile Provider UseCase} _.
Arguments assertsPreparedClient {SuperfaceClient} Failure c.
Arguments assertsPreparedProfile {Profile} Failure p.
Arguments assertsPreparedProvider {Provider} Failure p.
Arguments assertsPreparedUseCase {UseCase} Failure u.
Arguments and_then {Failure A B} x k.
Arguments assertsPreparedConfig {SuperfaceClient Profile Provider UseCase} Failure sfConfig.
Arguments prepareSuperfaceConfig {SuperfaceClient Profile Provider UseCase} payload sfConfig.
Arguments setup_client {SuperfaceClient Profile Provider UseCase Failure} _ _.
Arguments setup_profile {SuperfaceClient Profile Provider UseCase Failure} _ _ _.
Arguments setup_provider {SuperfaceClient Profile Provider UseCase Failure} _ _ _.
Arguments setup_useCase {SuperfaceClient Profile Provider UseCase Failure} _ _.
Arguments setupSuperfaceConfig {SuperfaceClient Profile Provider UseCase Failure} _ _ _ _ _.

Definition is_instance {A} (c : component A) : bool :=
  match c with
  | Instance _ => true
  | _ => false
  end.

Definition is_named {A} (c : component A) : bool :=
  match c with
  | Named _ => true
  | _ => false
  end.

(** Every component is there, as an instance. *)
Definition complete {SuperfaceClient Profile Provider UseCase}
    (c : SuperfaceTestConfigPayload SuperfaceClient Profile Provider UseCase) : bool :=
  match client c with Some _ => true | None => false end
  && is_instance (profile c) && is_instance (provider c) && is_instance (useCase c).

(** The configuration of [new SuperfaceTest()]: [sfConfig ?? {}]. *)
Definition no_components {SuperfaceClient Profile Provider UseCase}
  : SuperfaceTestConfigPayload SuperfaceClient Profile Provider UseCase :=
  mkConfig None Undefined Undefined Undefined.

(** What [setupSuperfaceConfig] makes of a component: a name becomes an
    instance, an instance and an undefined component stay. *)
Definition resolves {A} (before after : component A) : Prop :=
  match before, after with
  | Undefined, Undefined => True
  | Named _, Instance _ => True
  | Instance a, Instance b => a = b
  | _, _ => False
  end.

(** ** Vocabulary of the properties of the URL editors *)

(** The header named by an API-key scheme, when the exchange has it, is a
    string. *)
Definition named_header_is_string (name : option string) (d : RecordingDefinition) : bool :=
  match name with
  | Some n =>
    match reqheaders d ≫= (.!! n) with
    | Some v => is_string v
    | None => true
    end
  | None => true
  end.

(** ** The parts of a URL that the editors write *)

(** A character of a serialized path segment: one that the path state
    appends as it is. *)
Definition segment_char (c : ascii) : bool :=
  negb (Url.path_set c) && negb (Url.one_of "/\^" c).

(** A segment of a serialized path: kept characters only, and not a dot
    segment. *)
Definition segment_ok (seg : list ascii) : bool :=
  forallb segment_char seg && negb (Url.is_single_dot seg) && negb (Url.is_double_dot seg).

(** A character of the origin after the scheme: of a host label, a dot,
    or the colon before the port. *)
Definition authority_char (c : ascii) : bool :=
  Url.is_label_char c || Url.one_of ".:" c.

(** The characters of a percent-encoded byte. *)
Definition percent_char (c : ascii) : bool :=
  Url.one_of "%0123456789ABCDEF" c.

(** A character that the URL parser neither strips nor removes. *)
Definition printable (c : ascii) : bool := (32 <? code c)%nat.

(** A character of a serialized pathname. *)
Definition path_char (c : ascii) : bool := segment_char c || Ascii.eqb c "/".

(** The origin of a parsed URL: [http] or [https], and a host that the
    parser reads as it is. *)
Definition origin_ok (o : string) : Prop :=
  exists scheme default host,
    ((scheme = "https" /\ default = 443%Z) \/ (scheme = "http" /\ default = 80%Z))
    /\ o = (scheme ++ "://" ++ host)%string
    /\ forallb authority_char (chars host) = true
    /\ Url.parse_authority default (chars host) = Ok host.

(** The pathname, query and fragment as the parser and the [pathname]
    setter leave them. *)
Definition parts_ok (u : Url.URL) : Prop :=
  Url.parse_path (chars (Url.pathname u)) = Ok (Url.pathname u)
  /\ (exists rest,
        chars (Url.pathname u) = "/"%char :: rest /\ forallb path_char rest = true)
  /\ forallb (fun c => negb (Url.special_query_set c)) (chars (Url.query u)) = true
  /\ forallb (fun c => negb (Url.fragment_set c)) (chars (Url.fragment u)) = true
  /\ Url.parse_query (Url.query u) = Ok (Url.searchParams u).

Definition with_origin (o : string) (u : Url.URL) : Url.URL :=
  {| Url.origin := o; Url.pathname := Url.pathname u; Url.query := Url.query u;
     Url.fragment := Url.fragment u; Url.searchParams := Url.searchParams u |}.

(** No parameter of the URL holds the secret. *)
Definition params_clean (secret : string) (u : Url.URL) : bool :=
  forallb (fun p : string * string => negb (includes (snd p) secret)) (Url.searchParams u).

(** An exchange with an array as the value of a header. *)
Definition listed_exchange : RecordingDefinition :=
  {| scope := "https://api.test"; path := "/v1/../items/./?page=2#top";
     method := Some "GET"; status := Some 200%Z;
     reqheaders := Some {[ "X-Api-Key" := HArr ["k1"; "k2"]; "Accept" := HStr "*/*" ]};
     rawHeaders := Some ["Server"; "test"];
     body := None;
     response := Some (JObj [("ok", JBool true)]) |}.

(** The secret is in no request header, in no raw header, and not in the
    text of the body. *)
Definition headers_free (secret : string) (d : RecordingDefinition) : bool :=
  match reqheaders d with
  | Some h =>
    forallb (fun e : string * HeaderValue => negb (includes (toString (snd e)) secret))
      (map_to_list h)
  | None => true
  end.

Definition raw_headers_free (secret : string) (d : RecordingDefinition) : bool :=
  match rawHeaders d with
  | Some raw => forallb (fun x => negb (includes x secret)) raw
  | None => true
  end.

Definition body_free (secret : string) (d : RecordingDefinition) : bool :=
  match body d with
  | Some b => negb (includes (stringify b) secret)
  | None => true
  end.

(** * Properties *)

(** ** Basic facts about the monad *)

Lemma bind_ok {A B} (m : M A) (f : A -> M B) d a d1 :
  m d = (Ok a, d1) -> bind m f d = f a d1.
Proof. intros H. unfold bind. by rewrite H. Qed.

Lemma bind_ok_inv {A B} (m : M A) (f : A -> M B) d b d' :
  bind m f d = (Ok b, d') -> exists a d1, m d = (Ok a, d1) /\ f a d1 = (Ok b, d').
Proof.
  unfold bind. destruct (m d) as [[a| |] d1]; intros H; try discriminate.
  by exists a, d1.
Qed.

Lemma lift_ok_inv {A} (x : outcome A) d a d' :
  lift x d = (Ok a, d') -> x = Ok a /\ d' = d.
Proof. unfold lift. intros H. by inversion H. Qed.

Lemma text_chars s : text (chars s) = s.
Proof. apply string_of_list_ascii_of_string. Qed.

Lemma chars_text l : chars (text l) = l.
Proof. apply list_ascii_of_string_of_list_ascii. Qed.

Lemma chars_nonempty s : s <> "" -> chars s <> [].
Proof. destruct s; [done | discriminate]. Qed.

Lemma includes_empty s : includes s "" = true.
Proof. unfold includes. by destruct (chars s). Qed.

Lemma replaceCredential_empty payload placeholder :
  replaceCredential payload "" placeholder = Ok payload.
Proof. reflexivity. Qed.

(** ** The scenarios of the repository's tests *)

Example removes_apikey_from_header :
  replaceCredentialInDefinition (ApiKey "api-key" HEADER (Some "api_key"))
    "https://localhost" "secret" "HIDDEN"
    (exchange_with_headers {[ "api_key" := HStr "secret" ]})
  = (Ok tt, exchange_with_headers {[ "api_key" := HStr "HIDDEN" ]}).
Proof. vm_compute. reflexivity. Qed.

Example removes_apikey_from_body :
  replaceCredentialInDefinition (ApiKey "api-key" BODY (Some "api_key"))
    "https://localhost" "secret" "HIDDEN"
    (exchange_with_body (Some (JObj [("my_api_key", JStr "secret")])))
  = (Ok tt, exchange_with_body (Some (JObj [("my_api_key", JStr "HIDDEN")]))).
Proof. vm_compute. reflexivity. Qed.

Example removes_apikey_from_path :
  replaceCredentialInDefinition (ApiKey "api-key" PATH (Some "api_key"))
    "https://localhost" "secret" "HIDDEN" (exchange_with_path "/get/secret?text=123")
  = (Ok tt, exchange_with_path "/get/HIDDEN?text=123").
Proof. vm_compute. reflexivity. Qed.

Example removes_apikey_from_query :
  replaceCredentialInDefinition (ApiKey "api-key" QUERY (Some "api_key"))
    "https://localhost" "secret" "HIDDEN" (exchange_with_path "/get?api_key=secret&text=123")
  = (Ok tt, exchange_with_path "/get?api_key=HIDDEN&text=123").
Proof. vm_compute. reflexivity. Qed.

Example removes_basic_token :
  replaceCredentialInDefinition (Http "basic" BASIC)
    "https://localhost" "secret" "HIDDEN"
    (exchange_with_headers {[ "Authorization" := HStr "Basic secret" ]})
  = (Ok tt, exchange_with_headers {[ "Authorization" := HStr "Basic HIDDEN" ]}).
Proof. vm_compute. reflexivity. Qed.

Example removes_bearer_token :
  replaceCredentialInDefinition (Http "bearer" BEARER)
    "https://localhost" "secret" "HIDDEN"
    (exchange_with_headers {[ "Authorization" := HStr "Bearer secret" ]})
  = (Ok tt, exchange_with_headers {[ "Authorization" := HStr "Bearer HIDDEN" ]}).
Proof. vm_compute. reflexivity. Qed.

Example removes_parameter_from_query_and_response :
  replaceParameterInDefinition "https://localhost" "integration-parameter" "HIDDENparam"
    (with_response (JObj [("auth", JStr "integration-parameter")])
       (exchange_with_path "/?api_key=integration-parameter"))
  = (Ok tt, with_response (JObj [("auth", JStr "HIDDENparam")])
              (exchange_with_path "/?api_key=HIDDENparam")).
Proof. vm_compute. reflexivity. Qed.

(** ** Frames: what an editor leaves as it is *)

Lemma keeps_ret {A X} (f : RecordingDefinition -> X) (a : A) : keeps f (ret a).
Proof. by intros d. Qed.

Lemma keeps_lift {A X} (f : RecordingDefinition -> X) (x : outcome A) : keeps f (lift x).
Proof. by intros d. Qed.

Lemma keeps_get {X} (f : RecordingDefinition -> X) : keeps f get.
Proof. by intros d. Qed.

Lemma keeps_modify {X} (f : RecordingDefinition -> X) g :
  (forall d, f (g d) = f d) -> keeps f (modify g).
Proof. intros H d. apply H. Qed.

Lemma keeps_bind {A B X} (f : RecordingDefinition -> X) (m : M A) (k : A -> M B) :
  keeps f m -> (forall a, keeps f (k a)) -> keeps f (bind m k).
Proof.
  intros Hm Hk d. unfold bind. specialize (Hm d).
  destruct (m d) as [[a | e |] d1]; simpl in *; [| done | done].
  by rewrite Hk.
Qed.

Lemma keeps_for_each {A X} (f : RecordingDefinition -> X) (l : list A) (k : A -> M unit) :
  (forall a, keeps f (k a)) -> keeps f (for_each l k).
Proof.
  intros Hk. induction l as [| a l IH]; simpl; [apply keeps_ret |].
  by apply keeps_bind.
Qed.

Ltac frame_step :=
  first
    [ match goal with
      | H : keeps ?f _ |- keeps ?f _ => exact H
      end
    | apply keeps_ret | apply keeps_lift | apply keeps_get
    | apply keeps_bind; [| intros ?]
    | apply keeps_for_each; intros ?
    | apply keeps_modify; intros [? ? ? ? [?|] ? ? ?]; reflexivity
    | match goal with
      | |- keeps _ (match ?x with _ => _ end) => destruct x
      end ].

Ltac frame :=
  unfold replaceCredentialInDefinition, replaceParameterInDefinition, replaceApiKey,
    replaceApiKeyInHeader, replaceApiKeyInBody, replaceApiKeyInPath,
    replaceApiKeyInQuery, replaceCredentialInHeaders, replace_header, replaceCredentialInRawHeaders,
    replaceCredentialInBody, replaceCredentialInResponse, replaceCredentialInScope,
    replaceCredentialInQuery, replaceCredentialInPath, replaceBasicAuth,
    replaceBearerAuth, set_reqheader, throw;
  solve [repeat frame_step].

Lemma relates_bind_l {A B X} (R : X -> X -> Prop) (f : RecordingDefinition -> X)
    (m : M A) (k : A -> M B) :
  (forall x, R x x) -> keeps f m -> (forall a, relates R f (k a)) ->
  relates R f (bind m k).
Proof.
  intros HR Hm Hk d. unfold bind. specialize (Hm d).
  destruct (m d) as [[a | e |] d1]; simpl in *; rewrite <- Hm; [apply Hk | apply HR ..].
Qed.

Lemma relates_bind_r {A B X} (R : X -> X -> Prop) (f : RecordingDefinition -> X)
    (m : M A) (k : A -> M B) :
  relates R f m -> (forall a, keeps f (k a)) -> relates R f (bind m k).
Proof.
  intros Hm Hk d. unfold bind. specialize (Hm d).
  destruct (m d) as [[a | e |] d1]; simpl in *; [| done | done].
  by rewrite Hk.
Qed.

Lemma keeps_relates {A X} (R : X -> X -> Prop) (f : RecordingDefinition -> X) (m : M A) :
  (forall x, R x x) -> keeps f m -> relates R f m.
Proof. intros HR Hm d. rewrite Hm. apply HR. Qed.

(** From [H : m d = (o, d1)], the equation [f d1 = f d] for a part [f]
    that [m] keeps. *)
Ltac kept f H :=
  match type of H with
  | ?m ?d = (_, ?d1) =>
    let K := fresh "K" in
    assert (K : keeps f m) by frame;
    specialize (K d); rewrite H in K; cbn [snd] in K
  end.

Lemma get_ok_inv d a d' : get d = (Ok a, d') -> a = d /\ d' = d.
Proof. unfold get. intros H. by inversion H. Qed.

Lemma modify_ok_inv g d d' : modify g d = (Ok tt, d') -> d' = g d.
Proof. unfold modify. intros H. by inversion H. Qed.

Lemma raw_headers_editor_keeps_reqheaders credential placeholder :
  keeps reqheaders (replaceCredentialInRawHeaders credential placeholder).
Proof. frame. Qed.

Lemma response_editor_keeps_reqheaders credential placeholder :
  keeps reqheaders (replaceCredentialInResponse credential placeholder).
Proof. frame. Qed.

(** ** The substring redactor reads the secret as a pattern *)

(** C1 (as the code behaves). The secret is handed to [RegExp] unescaped:
    with the secret [a.b+c] the literal occurrence of [a.b+c] in a payload
    is left in place, while the different text [axbbc] is replaced; a
    secret that is not a well-formed pattern makes the redactor throw. *)
Theorem replaceCredential_reads_secret_as_pattern :
  replaceCredential "key=a.b+c" "a.b+c" "<P>" = Ok "key=a.b+c"
  /\ replaceCredential "key=axbbc" "a.b+c" "<P>" = Ok "key=<P>"
  /\ includes "key=a.b+c" "a.b+c" = true
  /\ includes "key=axbbc" "a.b+c" = false
  /\ replaceCredential "key=pass(word" "pass(word" "<P>"
     = Throw (SyntaxError "Unterminated group").
Proof. repeat split; vm_compute; reflexivity. Qed.

(** ** Digest *)

(** C7. Redacting with an HTTP Digest scheme throws [UnexpectedError], and
    the exchange at the throw is the exchange as it was: no editor has run
    before it and none runs after it. *)
Theorem digest_scheme_throws id baseUrl credential placeholder definition :
  replaceCredentialInDefinition (Http id DIGEST) baseUrl credential placeholder definition
  = (Throw (UnexpectedError "Digest auth not implemented"), definition).
Proof. reflexivity. Qed.

(** ** The body editor *)

(** C10. When the body is undefined, is the empty string, or its JSON text
    does not contain the secret, the body editor completes and leaves the
    exchange, and so its body, exactly as it was. *)
Theorem body_editor_keeps_body_without_secret credential placeholder definition :
  body definition = None
  \/ body definition = Some (JStr "")
  \/ (exists b, body definition = Some b /\ includes (stringify b) credential = false) ->
  replaceCredentialInBody credential placeholder definition = (Ok tt, definition).
Proof.
  intros H. unfold replaceCredentialInBody, bind, get.
  destruct H as [H | [H | (b & H & Hno)]]; rewrite H; try reflexivity.
  rewrite Hno. by destruct (negb _).
Qed.

Lemma body_editor_keeps_body_without_secret_witness :
  replaceCredentialInBody "secret" "<P>"
    (exchange_with_body (Some (JObj [("user", JStr "alice")])))
  = (Ok tt, exchange_with_body (Some (JObj [("user", JStr "alice")]))).
Proof.
  apply body_editor_keeps_body_without_secret.
  right; right. eexists. split; [reflexivity | vm_compute; reflexivity].
Defined.

(** ** The headers editor *)

Lemma with_reqheaders_id d h : reqheaders d = Some h -> with_reqheaders h d = d.
Proof. destruct d; simpl; intros ->; reflexivity. Qed.

Lemma with_reqheaders_twice h h' d :
  with_reqheaders h (with_reqheaders h' d) = with_reqheaders h d.
Proof. reflexivity. Qed.

Lemma replace_header_ok_inv credential placeholder e d h d' :
  reqheaders d = Some h ->
  replace_header credential placeholder e d = (Ok tt, d') ->
  (exists s, replaceCredential (toString (snd e)) credential placeholder = Ok s)
  /\ d' = with_reqheaders (<[fst e := redacted credential placeholder (snd e)]> h) d.
Proof.
  intros Hh H. unfold replace_header in H.
  apply bind_ok_inv in H as (s & d1 & H1 & H2).
  apply lift_ok_inv in H1 as [H1 ->].
  split; [by exists s |].
  unfold set_reqheader, modify in H2. rewrite Hh in H2.
  unfold redacted. rewrite H1. by inversion H2.
Qed.

Lemma replace_header_ok credential placeholder e d h s :
  reqheaders d = Some h ->
  replaceCredential (toString (snd e)) credential placeholder = Ok s ->
  replace_header credential placeholder e d
  = (Ok tt, with_reqheaders (<[fst e := redacted credential placeholder (snd e)]> h) d).
Proof.
  intros Hh H. unfold replace_header, bind, lift, set_reqheader, modify, redacted.
  by rewrite H, Hh.
Qed.

Lemma for_each_headers_ok_inv credential placeholder l :
  forall d h d',
    reqheaders d = Some h ->
    for_each l (replace_header credential placeholder) d = (Ok tt, d') ->
    d' = with_reqheaders (write_all credential placeholder l h) d
    /\ Forall (fun e => exists s,
                 replaceCredential (toString (snd e)) credential placeholder = Ok s) l.
Proof.
  induction l as [| e l IH]; intros d h d' Hh H; simpl in H.
  - inversion H; subst. split; [| constructor].
    symmetry. by apply with_reqheaders_id.
  - apply bind_ok_inv in H as ([] & d1 & H1 & H2).
    destruct (replace_header_ok_inv _ _ _ _ _ _ Hh H1) as [Hs ->].
    apply (IH _ (<[fst e := redacted credential placeholder (snd e)]> h)) in H2
      as [-> HF]; [| reflexivity].
    split; [reflexivity | by constructor].
Qed.

Lemma for_each_headers_ok credential placeholder l :
  forall d h,
    reqheaders d = Some h ->
    Forall (fun e => exists s,
              replaceCredential (toString (snd e)) credential placeholder = Ok s) l ->
    for_each l (replace_header credential placeholder) d
    = (Ok tt, with_reqheaders (write_all credential placeholder l h) d).
Proof.
  induction l as [| e l IH]; intros d h Hh HF; simpl.
  - unfold ret. by rewrite with_reqheaders_id.
  - inversion HF as [| ? ? [s Hs] HF']; subst.
    rewrite (bind_ok _ _ _ _ _ (replace_header_ok _ _ _ _ _ _ Hh Hs)).
    by rewrite (IH _ (<[fst e := redacted credential placeholder (snd e)]> h)).
Qed.

Lemma write_all_cons credential placeholder e l h :
  write_all credential placeholder (e :: l) h
  = write_all credential placeholder l (<[fst e := redacted credential placeholder (snd e)]> h).
Proof. reflexivity. Qed.

Lemma write_all_lookup_notin credential placeholder l :
  forall h k, k ∉ l.*1 -> write_all credential placeholder l h !! k = h !! k.
Proof.
  induction l as [| e l IH]; intros h k Hk; [reflexivity |].
  rewrite fmap_cons in Hk. apply not_elem_of_cons in Hk as [Hne Hk].
  rewrite write_all_cons, IH by assumption.
  by rewrite lookup_insert_ne.
Qed.

Lemma write_all_lookup_in credential placeholder l :
  forall h k v,
    NoDup l.*1 -> (k, v) ∈ l ->
    write_all credential placeholder l h !! k = Some (redacted credential placeholder v).
Proof.
  induction l as [| e l IH]; intros h k v Hnd Hin; [by apply elem_of_nil in Hin |].
  rewrite fmap_cons in Hnd. apply NoDup_cons in Hnd as [Hfresh Hnd].
  rewrite write_all_cons.
  apply elem_of_cons in Hin as [<- | Hin]; simpl.
  - rewrite write_all_lookup_notin by assumption.
    by rewrite lookup_insert_eq.
  - by apply IH.
Qed.

Lemma NoDup_fst_filter {A B} (P : A * B -> bool) (l : list (A * B)) :
  NoDup l.*1 -> NoDup (List.filter P l).*1.
Proof.
  induction l as [| e l IH]; simpl; [done |].
  rewrite NoDup_cons. intros [Hfresh Hnd].
  destruct (P e); [| by apply IH].
  rewrite fmap_cons, NoDup_cons. split; [| by apply IH].
  intros Hin. apply Hfresh.
  apply list_elem_of_fmap in Hin as (e' & -> & Hin).
  apply list_elem_of_fmap. exists e'. split; [done |].
  apply list_elem_of_In in Hin. apply filter_In in Hin as [Hin _].
  by apply list_elem_of_In.
Qed.

Lemma touched_entries credential (h : gmap string HeaderValue) k v :
  (k, v) ∈ List.filter (fun e => includes (toString (snd e)) credential) (map_to_list h)
  <-> h !! k = Some v /\ includes (toString v) credential = true.
Proof.
  rewrite list_elem_of_In, filter_In, <- list_elem_of_In, elem_of_map_to_list.
  reflexivity.
Qed.

Lemma write_all_touched credential placeholder (h : gmap string HeaderValue) :
  write_all credential placeholder
    (List.filter (fun e => includes (toString (snd e)) credential) (map_to_list h)) h
  = redact_value credential placeholder <$> h.
Proof.
  apply map_eq. intros k. rewrite lookup_fmap.
  destruct (h !! k) as [v |] eqn:Hk; simpl.
  - unfold redact_value. destruct (includes (toString v) credential) eqn:Hin.
    + apply write_all_lookup_in.
      * apply NoDup_fst_filter, NoDup_fst_map_to_list.
      * by apply touched_entries.
    + rewrite write_all_lookup_notin; [done |].
      intros Hm. apply list_elem_of_fmap in Hm as ([k' v'] & -> & Hm).
      apply touched_entries in Hm as [Hm1 Hm2]. simpl in *. congruence.
  - rewrite write_all_lookup_notin; [done |].
    intros Hm. apply list_elem_of_fmap in Hm as ([k' v'] & -> & Hm).
    apply touched_entries in Hm as [Hm1 Hm2]. simpl in *. congruence.
Qed.

(** The headers editor, when it completes, has mapped [redact_value] over
    the headers, and the redactor succeeded on every entry it touched. *)
Lemma headers_editor_ok_inv credential placeholder d h d' :
  reqheaders d = Some h ->
  replaceCredentialInHeaders credential placeholder d = (Ok tt, d') ->
  d' = with_reqheaders (redact_value credential placeholder <$> h) d
  /\ (forall k v, h !! k = Some v -> includes (toString v) credential = true ->
        exists s, replaceCredential (toString v) credential placeholder = Ok s).
Proof.
  intros Hh H. unfold replaceCredentialInHeaders, bind, get in H. rewrite Hh in H.
  apply (for_each_headers_ok_inv _ _ _ _ h) in H as [-> HF]; [| done].
  rewrite write_all_touched. split; [done |].
  intros k v Hk Hin. rewrite Forall_forall in HF.
  apply (HF (k, v)). by apply touched_entries.
Qed.

(** Conversely, the editor completes whenever the redactor succeeds on the
    entries it touches. *)
Lemma headers_editor_ok credential placeholder d h :
  reqheaders d = Some h ->
  (forall k v, h !! k = Some v -> includes (toString v) credential = true ->
     exists s, replaceCredential (toString v) credential placeholder = Ok s) ->
  replaceCredentialInHeaders credential placeholder d
  = (Ok tt, with_reqheaders (redact_value credential placeholder <$> h) d).
Proof.
  intros Hh Hs. unfold replaceCredentialInHeaders, bind, get. rewrite Hh.
  rewrite (for_each_headers_ok _ _ _ _ h); [by rewrite write_all_touched | done |].
  apply Forall_forall. intros [k v] Hin. apply touched_entries in Hin as [H1 H2].
  by apply (Hs k v).
Qed.

(** ** The order of [Object.entries] plays no part *)

(** Whether the redactor completes depends on the secret and the
    placeholder only, not on the payload. *)
Lemma redactor_outcome_uniform payload payload' credential placeholder :
  omap (fun _ => tt) (replaceCredential payload credential placeholder)
  = omap (fun _ => tt) (replaceCredential payload' credential placeholder).
Proof.
  unfold replaceCredential. destruct (negb _); [| reflexivity].
  unfold Regex.replace_global. destruct (Regex.compile credential); [| reflexivity ..].
  simpl. destruct (Regex.parse_template _ _); reflexivity.
Qed.

Lemma for_each_headers_fails credential placeholder payload e l d :
  (forall s, replaceCredential payload credential placeholder <> Ok s) ->
  for_each (e :: l) (replace_header credential placeholder) d
  = (omap (fun _ => tt) (replaceCredential payload credential placeholder), d).
Proof.
  intros Hf. simpl. unfold bind at 1. unfold replace_header, bind, lift.
  pose proof (redactor_outcome_uniform payload (toString e.2) credential placeholder) as U.
  destruct (replaceCredential payload credential placeholder) as [s | err |] eqn:E;
    [by destruct (Hf s) | ..];
    destruct (replaceCredential (toString e.2) credential placeholder); by inversion U.
Qed.

Lemma write_all_permutation credential placeholder l1 l2 (h : gmap string HeaderValue) :
  NoDup l1.*1 -> l1 ≡ₚ l2 ->
  write_all credential placeholder l1 h = write_all credential placeholder l2 h.
Proof.
  intros Hnd Hp. assert (NoDup l2.*1) as Hnd2 by (by rewrite <- Hp).
  apply map_eq. intros k.
  destruct (decide (k ∈ l1.*1)) as [Hin | Hnin].
  - apply list_elem_of_fmap in Hin as ([k' v] & -> & Hin). simpl.
    rewrite (write_all_lookup_in _ _ l1 h k' v Hnd Hin).
    rewrite Hp in Hin. by rewrite (write_all_lookup_in _ _ l2 h k' v Hnd2 Hin).
  - rewrite write_all_lookup_notin by done.
    rewrite Hp in Hnin. by rewrite write_all_lookup_notin.
Qed.

(** The loop of the headers editor over the entries in any order gives
    what it gives in the order of [map_to_list]. *)
Lemma headers_editor_any_order credential placeholder d h l :
  reqheaders d = Some h ->
  l ≡ₚ map_to_list h ->
  for_each (List.filter (fun e => includes (toString (snd e)) credential) l)
    (replace_header credential placeholder) d
  = replaceCredentialInHeaders credential placeholder d.
Proof.
  intros Hh Hp. unfold replaceCredentialInHeaders, bind, get. rewrite Hh.
  set (P := fun e : string * HeaderValue => includes (toString (snd e)) credential).
  assert (List.filter P l ≡ₚ List.filter P (map_to_list h)) as Hpf.
  { clear -Hp. induction Hp; simpl; [done | | | by etrans].
    - destruct (P x); [by constructor | done].
    - destruct (P x), (P y); try done; by constructor. }
  assert (NoDup (List.filter P l).*1) as Hnd.
  { rewrite Hpf. apply NoDup_fst_filter, NoDup_fst_map_to_list. }
  destruct (replaceCredential "" credential placeholder) as [s0 | err |] eqn:E0.
  - assert (forall l' : list (string * HeaderValue), Forall (fun e => exists s,
              replaceCredential (toString (snd e)) credential placeholder = Ok s) l')
      as Hok.
    { intros l'. apply Forall_forall. intros e _.
      pose proof (redactor_outcome_uniform "" (toString e.2) credential placeholder) as U.
      rewrite E0 in U.
      destruct (replaceCredential (toString e.2) credential placeholder) as [s | |];
        [by exists s | discriminate U ..]. }
    rewrite !(for_each_headers_ok _ _ _ _ h) by done.
    by rewrite (write_all_permutation _ _ _ _ _ Hnd Hpf).
  - destruct (List.filter P l) as [| e1 l1] eqn:E1;
      destruct (List.filter P (map_to_list h)) as [| e2 l2] eqn:E2.
    + reflexivity.
    + by apply Permutation_nil_cons in Hpf.
    + symmetry in Hpf. by apply Permutation_nil_cons in Hpf.
    + rewrite !(for_each_headers_fails _ _ "") by (intros s; by rewrite E0).
      reflexivity.
  - destruct (List.filter P l) as [| e1 l1] eqn:E1;
      destruct (List.filter P (map_to_list h)) as [| e2 l2] eqn:E2.
    + reflexivity.
    + by apply Permutation_nil_cons in Hpf.
    + symmetry in Hpf. by apply Permutation_nil_cons in Hpf.
    + rewrite !(for_each_headers_fails _ _ "") by (intros s; by rewrite E0).
      reflexivity.
Qed.

Lemma headers_editor_meets_claim credential placeholder d d' :
  replaceCredentialInHeaders credential placeholder d = (Ok tt, d') ->
  headers_editor_touches toString credential placeholder d.
Proof.
  intros H h Hh. destruct (headers_editor_ok_inv _ _ _ _ _ Hh H) as [-> Hs].
  rewrite H. exists (redact_value credential placeholder <$> h). split; [done |].
  intros name. rewrite lookup_fmap. destruct (h !! name) as [v |] eqn:Hv; simpl; [| done].
  unfold redact_value. destruct (includes (toString v) credential) eqn:Hin; [| done].
  destruct (Hs _ _ Hv Hin) as [s Hs']. exists s. split; [done |].
  unfold redacted. by rewrite Hs'.
Qed.




Lemma headers_editor_flattens_arrays_aux :
  (forall credential placeholder d h name l d',
     reqheaders d = Some h -> h !! name = Some (HArr l) ->
     includes (join "," l) credential = true ->
     replaceCredentialInHeaders credential placeholder d = (Ok tt, d') ->
     exists s, replaceCredential (join "," l) credential placeholder = Ok s
               /\ reqheaders d' ≫= (.!! name) = Some (HStr s))
  /\ (forall placeholder d h,
        reqheaders d = Some h ->
        replaceCredentialInHeaders "" placeholder d
        = (Ok tt, with_reqheaders ((fun v => HStr (toString v)) <$> h) d)).
Proof.
  split.
  - intros credential placeholder d h name l d' Hh Hl Hin H.
    destruct (headers_editor_ok_inv _ _ _ _ _ Hh H) as [-> Hs].
    destruct (Hs _ _ Hl Hin) as [s Hs']. exists s. split; [done |].
    change (toString (HArr l)) with (join "," l) in Hs'.
    cbn [reqheaders with_reqheaders mbind option_bind]. rewrite lookup_fmap, Hl.
    cbn [fmap option_fmap option_map]. unfold redact_value, redacted.
    change (toString (HArr l)) with (join "," l). by rewrite Hin, Hs'.
  - intros placeholder d h Hh.
    rewrite (headers_editor_ok _ _ _ h Hh).
    + f_equal. f_equal. apply map_fmap_ext. intros k v _.
      unfold redact_value, redacted. by rewrite includes_empty.
    + intros k v _ _. by exists (toString v).
Qed.



(** ** API key in a header *)




(** ** The response editor *)

Lemma response_editor_ok_inv credential placeholder d d' :
  replaceCredentialInResponse credential placeholder d = (Ok tt, d') ->
  match response d with
  | Some r =>
    if truthy r
    then exists s v,
        replaceCredential (stringify r) credential placeholder = Ok s
        /\ JSON.parse s = Ok v /\ d' = with_response v d
    else d' = d
  | None => d' = d
  end.
Proof.
  intros H. unfold replaceCredentialInResponse in H.
  apply bind_ok_inv in H as (def & d0 & Hg & H).
  apply get_ok_inv in Hg as [-> ->].
  destruct (response d) as [r |]; [destruct (truthy r) |];
    try (by inversion H).
  apply bind_ok_inv in H as (s & d0 & Hs & H). apply lift_ok_inv in Hs as [Hs ->].
  apply bind_ok_inv in H as (v & d0 & Hp & H). apply lift_ok_inv in Hp as [Hp ->].
  apply modify_ok_inv in H. by exists s, v.
Qed.

(** C6 (amended). When scheme redaction completes, the scheme is not
    Digest, and the response is: the parsed, redacted JSON text of the
    response when the response is truthy; the response as it was when it is
    falsy (null, false, 0, the empty string) or undefined. *)
Theorem response_editor_after_scheme scheme baseUrl credential placeholder d d' :
  replaceCredentialInDefinition scheme baseUrl credential placeholder d = (Ok tt, d') ->
  (forall id, scheme <> Http id DIGEST)
  /\ match response d with
     | Some r =>
       if truthy r
       then exists s v,
           replaceCredential (stringify r) credential placeholder = Ok s
           /\ JSON.parse s = Ok v /\ response d' = Some v
       else response d' = Some r
     | None => response d' = None
     end.
Proof.
  intros H. split.
  - intros id ->. discriminate H.
  - unfold replaceCredentialInDefinition in H.
    apply bind_ok_inv in H as ([] & d1 & H & Hresp).
    assert (response d1 = response d) as Hr.
    { destruct scheme as [id [] name | id []]; kept response H; exact K. }
    apply response_editor_ok_inv in Hresp. rewrite Hr in Hresp.
    destruct (response d) as [r |]; [destruct (truthy r) |].
    + destruct Hresp as (s & v & Hs & Hp & ->). by exists s, v.
    + by subst d'.
    + by subst d'.
Qed.

Lemma response_editor_after_scheme_witness :
  (forall id, ApiKey "api-key" BODY (Some "api_key") <> Http id DIGEST)
  /\ exists s v,
       replaceCredential (stringify (JObj [("auth", JStr "secret")])) "secret" "<P>" = Ok s
       /\ JSON.parse s = Ok v
       /\ response (replaceCredentialInDefinition (ApiKey "api-key" BODY (Some "api_key"))
                      "https://localhost" "secret" "<P>"
                      (exchange_with_response (JObj [("auth", JStr "secret")]))).2
          = Some v.
Proof.
  apply (response_editor_after_scheme (ApiKey "api-key" BODY (Some "api_key"))
           "https://localhost" "secret" "<P>"
           (exchange_with_response (JObj [("auth", JStr "secret")]))).
  vm_compute. reflexivity.
Defined.

(** C6 (as stated) fails twice: with a Digest scheme the redaction throws
    before the response editor, and a falsy response (here the number 0)
    is skipped by the editor. *)
Lemma response_editor_does_not_always_run :
  ~ response_editor_runs (Http "digest" DIGEST) "https://localhost" "secret" "<P>"
      (exchange_with_response (JObj [("auth", JStr "secret")]))
  /\ ~ response_editor_runs (ApiKey "api-key" BODY (Some "api_key"))
         "https://localhost" "0" "7" (exchange_with_response (JNum 0)).
Proof.
  split; intros H; destruct (H _ eq_refl) as (s & v & Hs & Hp & Hr);
    vm_compute in Hs; injection Hs as <-;
    vm_compute in Hp; injection Hp as <-;
    vm_compute in Hr; discriminate Hr.
Qed.

(** ** [JSON.parse] after [JSON.stringify] *)

Lemma parse_string_escape c tail :
  parse_string (escape_char c ++ tail)
  = obind (parse_string tail) (fun r => Ok (c :: fst r, snd r)).
Proof.
  destruct c as [[] [] [] [] [] [] [] []]; reflexivity.
Qed.

Lemma parse_string_quote s rest :
  parse_string (flat_map escape_char s ++ dquote :: rest) = Ok (s, rest).
Proof.
  induction s as [| c s IH]; [reflexivity |].
  simpl flat_map. rewrite <- app_assoc, parse_string_escape, IH. reflexivity.
Qed.

Lemma parse_digits_stop acc rest :
  not_digit_led rest = true -> parse_digits acc rest = (acc, rest).
Proof.
  destruct rest as [| c rest]; [done |]. simpl. intros H.
  apply negb_true_iff in H. by rewrite H.
Qed.

Lemma parse_digits_uint u : forall acc rest,
  not_digit_led rest = true ->
  parse_digits (Zpos acc) (chars (NilEmpty.string_of_uint u) ++ rest)
  = (Zpos (Pos.of_uint_acc u acc), rest).
Proof.
  induction u as [| u IH | u IH | u IH | u IH | u IH | u IH | u IH | u IH | u IH | u IH];
    intros acc rest Hrest;
    [ by apply parse_digits_stop | .. ];
    cbn [NilEmpty.string_of_uint chars list_ascii_of_string app parse_digits];
    change (is_digit _) with true; cbv iota;
    cbn [Pos.of_uint_acc];
    rewrite <- IH by assumption; f_equal; vm_compute (Z.of_nat _); lia.
Qed.

Lemma to_uint_head p :
  match Pos.to_uint p with
  | Decimal.Nil | Decimal.D0 _ => False
  | _ => True
  end.
Proof.
  pose proof (Unsigned.to_of (Pos.to_uint p)) as H.
  rewrite Unsigned.of_to in H. simpl in H.
  pose proof (Unsigned.to_uint_nonzero p) as Hz.
  pose proof (Unsigned.to_uint_nonnil p) as Hn.
  destruct (Pos.to_uint p) as [| u | u | u | u | u | u | u | u | u | u]; try done.
  rewrite unorm_D0 in H. unfold Decimal.unorm in H.
  destruct (Decimal.nzhead u) eqn:E;
    [ injection H as H; subst u; by apply Hz
    | by apply nzhead_nonzero in E
    | discriminate H .. ].
Qed.

Lemma delim_facts rest :
  is_delim rest = true ->
  not_digit_led rest = true /\ starts_fraction rest = false /\ skip_ws rest = rest.
Proof.
  destruct rest as [| c rest]; [done |]. simpl. intros H.
  apply orb_prop in H as [H | H]; [apply orb_prop in H as [H | H] |];
    apply Ascii.eqb_eq in H as ->; done.
Qed.

Lemma digit_facts d :
  is_digit d = true ->
  Ascii.eqb d dquote = false /\ Ascii.eqb d "[" = false /\ Ascii.eqb d "{" = false
  /\ Ascii.eqb d "-" = false /\ Ascii.eqb d "]" = false /\ Ascii.eqb d "}" = false
  /\ is_ws d = false.
Proof.
  destruct d as [[] [] [] [] [] [] [] []]; intros H; try discriminate H; done.
Qed.

Lemma positive_text p :
  exists d ds,
    chars (NilZero.string_of_uint (Pos.to_uint p)) = d :: ds
    /\ is_digit d = true
    /\ forall neg rest,
         (Zpos p < 2 ^ 53)%Z -> is_delim rest = true ->
         parse_number neg d (ds ++ rest)
         = Ok (JNum (if neg then Zneg p else Zpos p), rest).
Proof.
  pose proof (to_uint_head p) as Hh. pose proof (Unsigned.of_to p) as Hof.
  assert (forall neg rest k acc,
            (Zpos p < 2 ^ 53)%Z -> is_delim rest = true ->
            Pos.of_uint_acc k acc = p ->
            (if starts_fraction rest then Beyond
             else if neg && (Zpos (Pos.of_uint_acc k acc) =? 0)%Z then Beyond
             else if (2 ^ 53 <=? Zpos (Pos.of_uint_acc k acc))%Z then Beyond
             else Ok (JNum (if neg then - Zpos (Pos.of_uint_acc k acc)
                            else Zpos (Pos.of_uint_acc k acc))%Z, rest))
            = Ok (JNum (if neg then Zneg p else Zpos p), rest)) as Hfin.
  { intros neg rest k acc Hb Hd ->. destruct (delim_facts _ Hd) as (_ & -> & _).
    replace (neg && _) with false by (by destruct neg).
    replace (2 ^ 53 <=? Z.pos p)%Z with false by (symmetry; apply Z.leb_gt; lia).
    by destruct neg. }
  destruct (Pos.to_uint p) as [| u | u | u | u | u | u | u | u | u | u]; try done;
    eexists _, _; (split; [reflexivity |]); (split; [reflexivity |]);
    intros neg rest Hb Hd; destruct (delim_facts _ Hd) as (Hnd & _ & _);
    unfold parse_number; cbn [Ascii.eqb Bool.eqb];
    vm_compute (Z.of_nat _);
    rewrite parse_digits_uint by assumption;
    apply Hfin; try assumption; simpl in Hof; by injection Hof.
Qed.

Lemma value_head v :
  exists c t,
    stringify_chars v = c :: t
    /\ is_ws c = false /\ Ascii.eqb c "]" = false /\ Ascii.eqb c "}" = false.
Proof.
  destruct v as [| [] | z | s | l | l]; try (by eexists _, _).
  destruct z as [| p | p]; try (by eexists _, _).
  destruct (positive_text p) as (d & ds & E & Hd & _).
  destruct (digit_facts _ Hd) as (_ & _ & _ & _ & ? & ? & ?).
  exists d, ds. unfold stringify_chars, number_text. simpl Z.to_int.
  unfold NilZero.string_of_int. by rewrite E.
Qed.

Lemma skip_ws_head c t : is_ws c = false -> skip_ws (c :: t) = c :: t.
Proof. simpl. by intros ->. Qed.

Lemma commas_head {A} (f : A -> list ascii) x xs :
  exists t, commas (map f (x :: xs)) = f x ++ t
            /\ (xs = [] -> t = [])
            /\ (xs <> [] -> t = ","%char :: commas (map f xs)).
Proof.
  destruct xs as [| y ys].
  - exists []. simpl. by rewrite app_nil_r.
  - eexists. split; [reflexivity |]. done.
Qed.

Lemma parse_value_string fuel t :
  parse_value (S fuel) (dquote :: t)
  = obind (parse_string t) (fun r => Ok (JStr (text (fst r)), snd r)).
Proof. reflexivity. Qed.

Lemma parse_value_array fuel t :
  parse_value (S fuel) ("["%char :: t)
  = if closes "]" (skip_ws t) then Ok (JArr [], tl (skip_ws t))
    else obind (parse_items fuel t) (fun r => Ok (JArr (fst r), snd r)).
Proof. reflexivity. Qed.

Lemma parse_value_object fuel t :
  parse_value (S fuel) ("{"%char :: t)
  = if closes "}" (skip_ws t) then Ok (JObj [], tl (skip_ws t))
    else obind (parse_members fuel t) (fun r => Ok (JObj (fst r), snd r)).
Proof. reflexivity. Qed.

Lemma parse_value_minus fuel d t :
  parse_value (S fuel) ("-"%char :: d :: t)
  = if is_digit d then parse_number true d t else unexpected.
Proof. reflexivity. Qed.

Lemma parse_value_digit fuel d t :
  is_digit d = true -> parse_value (S fuel) (d :: t) = parse_number false d t.
Proof.
  intros Hd. destruct (digit_facts _ Hd) as (H1 & H2 & H3 & H4 & _ & _ & Hws).
  cbn [parse_value skip_ws]. by rewrite Hws, H1, H2, H3, H4, Hd.
Qed.

Lemma parse_items_eq fuel s :
  parse_items (S fuel) s
  = obind (parse_value fuel s) (fun r =>
    match skip_ws (snd r) with
    | c :: rest =>
      if Ascii.eqb c "," then
        obind (parse_items fuel rest) (fun r' => Ok (fst r :: fst r', snd r'))
      else if Ascii.eqb c "]" then Ok ([fst r], rest)
      else unexpected
    | [] => unexpected
    end).
Proof. reflexivity. Qed.

Lemma parse_members_eq fuel t :
  parse_members (S fuel) (dquote :: t)
  = obind (parse_string t) (fun k =>
    match skip_ws (snd k) with
    | colon :: s2 =>
      if Ascii.eqb colon ":" then
        obind (parse_value fuel s2) (fun r =>
        match skip_ws (snd r) with
        | c :: rest =>
          if Ascii.eqb c "," then
            obind (parse_members fuel rest) (fun r' =>
            if key_ok (text (fst k)) (fst r')
            then Ok ((text (fst k), fst r) :: fst r', snd r')
            else Beyond)
          else if Ascii.eqb c "}" then
            if integer_like (fst k) then Beyond
            else Ok ([(text (fst k), fst r)], rest)
          else unexpected
        | [] => unexpected
        end)
      else unexpected
    | [] => unexpected
    end).
Proof. reflexivity. Qed.

Lemma length_commas_ge {A} (f : A -> list ascii) x xs :
  List.length (f x) <= List.length (commas (map f (x :: xs)))
  /\ (xs <> [] ->
      List.length (f x) + 1 + List.length (commas (map f xs))
      = List.length (commas (map f (x :: xs)))).
Proof.
  destruct xs as [| y ys]; simpl.
  - split; [lia | done].
  - rewrite length_app. simpl. split; [lia | intros _; lia].
Qed.

Lemma array_text l rest :
  stringify_chars (JArr l) ++ rest
  = "["%char :: commas (map stringify_chars l) ++ "]"%char :: rest.
Proof. cbn [stringify_chars]. by rewrite <- app_comm_cons, <- app_assoc. Qed.

Lemma array_length l :
  List.length (stringify_chars (JArr l))
  = 2 + List.length (commas (map stringify_chars l)).
Proof.
  cbn [stringify_chars]. remember (commas (map stringify_chars l)) as cs.
  simpl. rewrite length_app. simpl. lia.
Qed.

Lemma object_text l rest :
  stringify_chars (JObj l) ++ rest
  = "{"%char :: commas (map member_chars l) ++ "}"%char :: rest.
Proof.
  cbn [stringify_chars]. fold member_chars.
  by rewrite <- app_comm_cons, <- app_assoc.
Qed.

Lemma object_length l :
  List.length (stringify_chars (JObj l))
  = 2 + List.length (commas (map member_chars l)).
Proof.
  cbn [stringify_chars]. fold member_chars.
  remember (commas (map member_chars l)) as cs.
  simpl. rewrite length_app. simpl. lia.
Qed.

Lemma member_text k v tail :
  member_chars (k, v) ++ tail
  = dquote :: flat_map escape_char (chars k)
              ++ dquote :: ":"%char :: stringify_chars v ++ tail.
Proof.
  unfold member_chars, quote. simpl fst. simpl snd.
  rewrite <- !app_comm_cons, <- !app_assoc. reflexivity.
Qed.

Lemma member_length k v :
  List.length (stringify_chars v) + 3 <= List.length (member_chars (k, v)).
Proof.
  unfold member_chars, quote. simpl fst. simpl snd.
  rewrite length_app. simpl. rewrite length_app. simpl. lia.
Qed.

Lemma parse_stringified fuel :
  (forall v rest,
     well_formed v = true ->
     2 * List.length (stringify_chars v) <= fuel ->
     is_delim rest = true ->
     parse_value fuel (stringify_chars v ++ rest) = Ok (v, rest))
  /\ (forall l rest,
        l <> [] ->
        forallb well_formed l = true ->
        2 * List.length (commas (map stringify_chars l)) + 1 <= fuel ->
        parse_items fuel (commas (map stringify_chars l) ++ "]"%char :: rest)
        = Ok (l, rest))
  /\ (forall l rest,
        l <> [] ->
        forallb (fun m => well_formed (snd m)) l = true ->
        keys_ok l = true ->
        2 * List.length (commas (map member_chars l)) + 1 <= fuel ->
        parse_members fuel (commas (map member_chars l) ++ "}"%char :: rest)
        = Ok (l, rest)).
Proof.
  induction fuel as [| fuel (IHv & IHi & IHm)].
  - split; [| split].
    + intros v rest _ Hlen _. destruct (value_head v) as (c & t & E & _).
      rewrite E in Hlen. simpl in Hlen. lia.
    + intros l rest _ _ Hlen. lia.
    + intros l rest _ _ _ Hlen. lia.
  - split; [| split].
    + intros v rest Hwf Hlen Hd.
      destruct v as [| [] | z | s | l | l]; try reflexivity.
      * (* numbers *)
        destruct z as [| p | p].
        -- change (stringify_chars (JNum 0)) with ["0"%char]. simpl app.
           rewrite parse_value_digit by reflexivity.
           unfold parse_number. simpl. destruct (delim_facts _ Hd) as (_ & -> & _).
           reflexivity.
        -- destruct (positive_text p) as (d & ds & E & Hdig & Hp).
           assert (stringify_chars (JNum (Zpos p)) = d :: ds) as ->
             by (unfold stringify_chars, number_text; simpl Z.to_int;
                 unfold NilZero.string_of_int; by rewrite E).
           simpl app. rewrite parse_value_digit by assumption.
           apply (Hp false); [| assumption].
           simpl in Hwf. apply Z.ltb_lt in Hwf. lia.
        -- destruct (positive_text p) as (d & ds & E & Hdig & Hp).
           assert (stringify_chars (JNum (Zneg p)) = "-"%char :: d :: ds) as ->
             by (unfold stringify_chars, number_text; simpl Z.to_int;
                 unfold NilZero.string_of_int; simpl chars; unfold chars in *;
                 simpl; by rewrite E).
           simpl app. rewrite parse_value_minus, Hdig.
           apply (Hp true); [| assumption].
           simpl in Hwf. apply Z.ltb_lt in Hwf. lia.
      * (* strings *)
        change (stringify_chars (JStr s)) with (quote s). unfold quote.
        simpl app. rewrite parse_value_string, <- app_assoc. simpl app.
        rewrite parse_string_quote. simpl. by rewrite text_chars.
      * (* arrays *)
        destruct l as [| x xs]; [reflexivity |].
        rewrite array_text, parse_value_array.
        rewrite array_length in Hlen.
        destruct (commas_head stringify_chars x xs) as (t & Et & _).
        destruct (value_head x) as (c & tx & Ex & Hws & Hc & _).
        assert (closes "]" (skip_ws (commas (map stringify_chars (x :: xs))
                                     ++ "]"%char :: rest)) = false) as ->.
        { rewrite Et, Ex. simpl app. rewrite skip_ws_head by assumption. exact Hc. }
        rewrite IHi; [reflexivity | done | exact Hwf | lia].
      * (* objects *)
        destruct l as [| [k v] ms]; [reflexivity |].
        rewrite object_text, parse_value_object.
        rewrite object_length in Hlen.
        cbn [well_formed] in Hwf. apply andb_prop in Hwf as [Hwf Hkeys].
        destruct (commas_head member_chars (k, v) ms) as (t & Et & _).
        assert (closes "}" (skip_ws (commas (map member_chars ((k, v) :: ms))
                                     ++ "}"%char :: rest)) = false) as ->.
        { rewrite Et, <- app_assoc, member_text. reflexivity. }
        rewrite IHm; [reflexivity | done | exact Hwf | exact Hkeys | lia].
    + intros l rest Hne Hwf Hlen.
      destruct l as [| x xs]; [done |].
      simpl in Hwf. apply andb_prop in Hwf as [Hx Hxs].
      rewrite parse_items_eq.
      destruct (length_commas_ge stringify_chars x xs) as [Hle Hsum].
      destruct (commas_head stringify_chars x xs) as (t & Et & Hnil & Hcons).
      rewrite Et, <- app_assoc.
      destruct (decide (xs = [])) as [-> | Hxs'].
      * rewrite (Hnil eq_refl). simpl app.
        rewrite IHv; [| assumption | lia | reflexivity].
        reflexivity.
      * rewrite (Hcons Hxs'). rewrite <- app_comm_cons.
        specialize (Hsum Hxs').
        rewrite IHv; [| assumption | lia | reflexivity].
        cbn [obind snd fst]. rewrite skip_ws_head by reflexivity.
        change (Ascii.eqb "," ",") with true. cbv iota.
        rewrite IHi; [reflexivity | done | assumption | lia].
    + intros l rest Hne Hwf Hkeys Hlen.
      destruct l as [| [k v] ms]; [done |].
      simpl in Hwf. apply andb_prop in Hwf as [Hv Hms].
      cbn [keys_ok fst] in Hkeys.
      apply andb_prop in Hkeys as [Hkeys Hkms].
      apply andb_prop in Hkeys as [Hint Hdup].
      apply negb_true_iff in Hint.
      destruct (length_commas_ge member_chars (k, v) ms) as [Hle Hsum].
      pose proof (member_length k v) as Hml.
      destruct (commas_head member_chars (k, v) ms) as (t & Et & Hnil & Hcons).
      rewrite Et, <- app_assoc, member_text, parse_members_eq.
      rewrite parse_string_quote. cbn [obind snd fst].
      rewrite skip_ws_head by reflexivity.
      change (Ascii.eqb ":" ":") with true. cbv iota.
      destruct (decide (ms = [])) as [-> | Hms'].
      * rewrite (Hnil eq_refl). simpl app.
        rewrite IHv; [| assumption | lia | reflexivity].
        cbn [obind snd fst]. rewrite skip_ws_head by reflexivity.
        change (Ascii.eqb "}" ",") with false. change (Ascii.eqb "}" "}") with true.
        cbv iota. rewrite Hint. by rewrite text_chars.
      * rewrite (Hcons Hms'). rewrite <- app_comm_cons.
        specialize (Hsum Hms').
        rewrite IHv; [| assumption | lia | reflexivity].
        cbn [obind snd fst]. rewrite skip_ws_head by reflexivity.
        change (Ascii.eqb "," ",") with true. cbv iota.
        rewrite IHm; [| done | assumption | assumption | lia].
        cbn [obind snd fst]. rewrite text_chars.
        unfold key_ok. rewrite Hint, Hdup. reflexivity.
Qed.

(** [JSON.parse(JSON.stringify(v))] is [v] for the values of the model. *)
Lemma parse_stringify v :
  well_formed v = true -> JSON.parse (stringify v) = Ok v.
Proof.
  intros Hwf. unfold JSON.parse, stringify. rewrite chars_text.
  rewrite <- (app_nil_r (stringify_chars v)) at 2.
  rewrite (proj1 (parse_stringified _)); [reflexivity | assumption | lia | reflexivity].
Qed.

(** ** The empty secret *)

Lemma map_outcome_id {A} (f : A -> outcome A) l :
  (forall x, f x = Ok x) -> map_outcome f l = Ok l.
Proof.
  intros Hf. induction l as [| x l IH]; simpl; [done |].
  rewrite Hf. simpl. unfold omap. by rewrite IH.
Qed.

Lemma raw_headers_editor_empty_secret placeholder d :
  replaceCredentialInRawHeaders "" placeholder d = (Ok tt, d).
Proof.
  unfold replaceCredentialInRawHeaders, bind, get, lift, modify.
  destruct (rawHeaders d) as [raw |] eqn:Hraw; [| done].
  rewrite map_outcome_id by done.
  destruct d; simpl in *; by subst.
Qed.

Lemma scope_editor_empty_secret placeholder d :
  replaceCredentialInScope "" placeholder d = (Ok tt, d).
Proof.
  unfold replaceCredentialInScope, bind, get, lift, modify.
  rewrite includes_empty. simpl. by destruct d.
Qed.

Lemma json_round_trip_refl o : json_round_trip o o.
Proof. by left. Qed.

Lemma body_editor_empty_secret placeholder :
  relates json_round_trip body (replaceCredentialInBody "" placeholder).
Proof.
  intros d. unfold replaceCredentialInBody, bind, get, lift, modify.
  destruct (body d) as [b |] eqn:Hb; [| by left].
  destruct (negb _); [| by left].
  rewrite includes_empty, replaceCredential_empty.
  destruct (JSON.parse (stringify b)) as [v | e |] eqn:Hp; simpl; [| by left ..].
  right. by exists b, v.
Qed.

Lemma response_editor_empty_secret placeholder :
  relates json_round_trip response (replaceCredentialInResponse "" placeholder).
Proof.
  intros d. unfold replaceCredentialInResponse, bind, get, lift, modify.
  destruct (response d) as [r |] eqn:Hr; [| by left].
  destruct (truthy r); [| by left].
  rewrite replaceCredential_empty.
  destruct (JSON.parse (stringify r)) as [v | e |] eqn:Hp; simpl; [| by left ..].
  right. by exists r, v.
Qed.

Lemma headers_editor_empty_secret placeholder :
  relates (fun o o' => o' = stringified o) reqheaders
    (replaceCredentialInHeaders "" placeholder).
Proof.
  intros d. destruct (reqheaders d) as [h |] eqn:Hh.
  - by rewrite (proj2 headers_editor_flattens_arrays_aux placeholder d h Hh).
  - unfold replaceCredentialInHeaders, bind, get. by rewrite Hh.
Qed.

(** C4 (amended). Redacting with the empty secret, by a scheme or as an
    integration parameter and however the redaction ends: the substring
    redactor returns every payload as it is; scope, raw headers, method and
    status are exactly as before; body and response are as before or have
    only gone through [JSON.parse(JSON.stringify(...))]; as an integration
    parameter the request headers are the same entries, each value in its
    string form; with an API key placed in the body, headers and path are
    exactly as before; and body and response are exactly as before when
    they are JSON values of the model (integers below 2^53 in magnitude,
    object keys distinct and not integer-like). *)
Theorem empty_secret_frame scheme baseUrl placeholder d :
  let d1 := (replaceCredentialInDefinition scheme baseUrl "" placeholder d).2 in
  let d2 := (replaceParameterInDefinition baseUrl "" placeholder d).2 in
  (forall payload, replaceCredential payload "" placeholder = Ok payload)
  /\ (scope d1 = scope d /\ rawHeaders d1 = rawHeaders d
      /\ method d1 = method d /\ status d1 = status d
      /\ json_round_trip (body d) (body d1)
      /\ json_round_trip (response d) (response d1))
  /\ (scope d2 = scope d /\ rawHeaders d2 = rawHeaders d
      /\ method d2 = method d /\ status d2 = status d
      /\ json_round_trip (body d) (body d2)
      /\ json_round_trip (response d) (response d2)
      /\ reqheaders d2 = stringified (reqheaders d))
  /\ (forall id name, scheme = ApiKey id BODY name ->
        reqheaders d1 = reqheaders d /\ path d1 = path d)
  /\ ((forall b, body d = Some b -> well_formed b = true) ->
      (forall r, response d = Some r -> well_formed r = true) ->
      body d1 = body d /\ response d1 = response d
      /\ body d2 = body d /\ response d2 = response d).
Proof.
  intros d1 d2.
  assert (Hfix : forall o o' : option json,
             json_round_trip o o' ->
             (forall v, o = Some v -> well_formed v = true) -> o' = o).
  { intros o o' [-> | (v & v' & -> & Hp & ->)] Hv; [done |].
    rewrite (parse_stringify v (Hv v eq_refl)) in Hp. by injection Hp as ->. }
  cut ((forall payload, replaceCredential payload "" placeholder = Ok payload)
       /\ (scope d1 = scope d /\ rawHeaders d1 = rawHeaders d
           /\ method d1 = method d /\ status d1 = status d
           /\ json_round_trip (body d) (body d1)
           /\ json_round_trip (response d) (response d1))
       /\ (scope d2 = scope d /\ rawHeaders d2 = rawHeaders d
           /\ method d2 = method d /\ status d2 = status d
           /\ json_round_trip (body d) (body d2)
           /\ json_round_trip (response d) (response d2)
           /\ reqheaders d2 = stringified (reqheaders d))
       /\ (forall id name, scheme = ApiKey id BODY name ->
             reqheaders d1 = reqheaders d /\ path d1 = path d)).
  { intros (H0 & H1 & H2 & H3). repeat (split; [assumption |]).
    intros Hb Hr.
    destruct H1 as (_ & _ & _ & _ & Hb1 & Hr1).
    destruct H2 as (_ & _ & _ & _ & Hb2 & Hr2 & _).
    repeat split; by apply Hfix. }
  assert (Hraw : keeps rawHeaders (replaceCredentialInRawHeaders "" placeholder))
    by (intros x; by rewrite raw_headers_editor_empty_secret).
  assert (Hscope : keeps scope (replaceCredentialInScope "" placeholder))
    by (intros x; by rewrite scope_editor_empty_secret).
  split; [done |]. split; [| split].
  - subst d1 d2. repeat split.
    + assert (keeps scope (replaceCredentialInDefinition scheme baseUrl "" placeholder))
        as K by frame. apply K.
    + assert (keeps rawHeaders (replaceCredentialInDefinition scheme baseUrl "" placeholder))
        as K by frame. apply K.
    + assert (keeps method (replaceCredentialInDefinition scheme baseUrl "" placeholder))
        as K by frame. apply K.
    + assert (keeps status (replaceCredentialInDefinition scheme baseUrl "" placeholder))
        as K by frame. apply K.
    + assert (relates json_round_trip body
                (replaceCredentialInDefinition scheme baseUrl "" placeholder)) as K.
      { destruct scheme as [id [] name | id []];
          try (apply keeps_relates; [apply json_round_trip_refl | frame]).
        unfold replaceCredentialInDefinition, replaceApiKey, replaceApiKeyInBody.
        apply relates_bind_r; [apply body_editor_empty_secret | intros ?; frame]. }
      apply K.
    + assert (relates json_round_trip response
                (replaceCredentialInDefinition scheme baseUrl "" placeholder)) as K.
      { unfold replaceCredentialInDefinition.
        apply relates_bind_l;
          [apply json_round_trip_refl | frame
          | intros ?; apply response_editor_empty_secret]. }
      apply K.
  - subst d1 d2. repeat split.
    + assert (keeps scope (replaceParameterInDefinition baseUrl "" placeholder))
        as K by frame. apply K.
    + assert (keeps rawHeaders (replaceParameterInDefinition baseUrl "" placeholder))
        as K by frame. apply K.
    + assert (keeps method (replaceParameterInDefinition baseUrl "" placeholder))
        as K by frame. apply K.
    + assert (keeps status (replaceParameterInDefinition baseUrl "" placeholder))
        as K by frame. apply K.
    + assert (relates json_round_trip body
                (replaceParameterInDefinition baseUrl "" placeholder)) as K.
      { unfold replaceParameterInDefinition.
        apply relates_bind_l; [apply json_round_trip_refl | frame | intros ?].
        apply relates_bind_l; [apply json_round_trip_refl | frame | intros ?].
        apply relates_bind_r; [apply body_editor_empty_secret | intros ?; frame]. }
      apply K.
    + assert (relates json_round_trip response
                (replaceParameterInDefinition baseUrl "" placeholder)) as K.
      { unfold replaceParameterInDefinition.
        apply relates_bind_l; [apply json_round_trip_refl | frame | intros ?].
        apply relates_bind_l; [apply json_round_trip_refl | frame | intros ?].
        apply relates_bind_l; [apply json_round_trip_refl | frame | intros ?].
        apply relates_bind_r; [apply response_editor_empty_secret | intros ?; frame]. }
      apply K.
    + assert (relates (fun o o' => o' = stringified o) reqheaders
                (replaceParameterInDefinition baseUrl "" placeholder)) as K.
      { unfold replaceParameterInDefinition.
        apply relates_bind_r; [apply headers_editor_empty_secret | intros ?; frame]. }
      apply K.
  - intros id name ->. subst d1 d2. split.
    + assert (keeps reqheaders
                (replaceCredentialInDefinition (ApiKey id BODY name) baseUrl "" placeholder))
        as K by frame. apply K.
    + assert (keeps path
                (replaceCredentialInDefinition (ApiKey id BODY name) baseUrl "" placeholder))
        as K by frame. apply K.
Qed.

Lemma empty_secret_frame_witness :
  let d := with_body (JObj [("user", JStr "alice")])
             (exchange_with_response (JObj [("ok", JBool true)])) in
  body (replaceCredentialInDefinition (ApiKey "api-key" BODY (Some "api_key"))
          "https://localhost" "" "<P>" d).2 = body d
  /\ response (replaceCredentialInDefinition (ApiKey "api-key" BODY (Some "api_key"))
                 "https://localhost" "" "<P>" d).2 = response d
  /\ body (replaceParameterInDefinition "https://localhost" "" "<P>" d).2 = body d
  /\ response (replaceParameterInDefinition "https://localhost" "" "<P>" d).2 = response d.
Proof.
  intros d.
  apply (proj2 (proj2 (proj2 (proj2
           (empty_secret_frame (ApiKey "api-key" BODY (Some "api_key"))
              "https://localhost" "<P>" d))))).
  - intros b Hb. injection Hb as <-. vm_compute. reflexivity.
  - intros r Hr. injection Hr as <-. vm_compute. reflexivity.
Defined.

(** C4 (as stated) fails: with a Basic scheme and the empty secret, the
    header [Authorization] is overwritten. *)
Lemma empty_secret_mutates_authorization :
  ~ mutates_nothing
      (replaceCredentialInDefinition (Http "basic" BASIC) "https://localhost" "" "<P>")
      (exchange_with_headers {[ "Authorization" := HStr "Basic dXNlcjpwYXNz" ]}).
Proof.
  unfold mutates_nothing. intros H.
  apply (f_equal (fun d => reqheaders d ≫= (.!! "Authorization"))) in H.
  vm_compute in H. discriminate H.
Qed.

(** ** Path and query editors *)

Lemma query_loop_untouched credential placeholder u :
  (forall k v, In (k, v) (Url.searchParams u) -> includes v credential = false) ->
  forall fuel i, query_loop fuel i credential placeholder u = Ok u.
Proof.
  intros Hno. induction fuel as [| fuel IH]; intros i; simpl; [done |].
  destruct (nth_error (Url.searchParams u) i) as [[k v] |] eqn:E; [| done].
  apply nth_error_In in E. by rewrite (Hno _ _ E).
Qed.



(** ** Secrets without pattern syntax: the redactor is the literal replacement *)

Lemma rmatch_seq_of_cons a l total s k :
  Regex.rmatch (Regex.seq_of (a :: l)) total s k
  = Regex.rmatch a total s (fun s' => Regex.rmatch (Regex.seq_of l) total s' k).
Proof.
  unfold Regex.seq_of. simpl fold_right.
  destruct (fold_right _ _ l); reflexivity.
Qed.

Lemma rmatch_literal V : forall total s k,
  Regex.rmatch (Regex.seq_of (map Regex.RChar V)) total s k
  = if starts_with V s then k (skipn (List.length V) s) else None.
Proof.
  induction V as [| c V IH]; intros total s k; [reflexivity |].
  rewrite map_cons, rmatch_seq_of_cons. simpl.
  destruct s as [| x s]; [reflexivity |].
  rewrite (Ascii.eqb_sym x c). destruct (Ascii.eqb c x); [| reflexivity].
  apply IH.
Qed.

Lemma has_groups_seq_of_cons a l :
  Regex.has_groups (Regex.seq_of (a :: l))
  = Regex.has_groups a || Regex.has_groups (Regex.seq_of l).
Proof.
  unfold Regex.seq_of. simpl fold_right.
  destruct (fold_right _ _ l); simpl; try reflexivity.
  all: by rewrite ?orb_false_r.
Qed.

Lemma has_groups_literal V :
  Regex.has_groups (Regex.seq_of (map Regex.RChar V)) = false.
Proof.
  induction V as [| c V IH]; [reflexivity |].
  by rewrite map_cons, has_groups_seq_of_cons, IH.
Qed.

Lemma parse_pattern_plain V : forall terms q,
  forallb plain V = true ->
  Regex.parse_pattern [] [] terms q V
  = Ok (Regex.seq_of (rev terms ++ map Regex.RChar V)).
Proof.
  induction V as [| c V IH]; intros terms q HV.
  - simpl. unfold Regex.finish. simpl. by rewrite app_nil_r.
  - simpl in HV. apply andb_prop in HV as [Hc HV].
    assert (Hs := Hc). unfold plain in Hs. apply negb_true_iff in Hs.
    unfold plain, Regex.is_syntax_char in Hc. simpl in Hc.
    apply negb_true_iff in Hc.
    repeat (apply orb_false_elim in Hc as [? Hc]).
    cbn [Regex.parse_pattern].
    repeat match goal with
           | H : Ascii.eqb c _ = false |- _ => rewrite H; clear H
           end.
    cbn [orb]. rewrite Hs.
    rewrite IH by assumption. simpl rev. by rewrite <- app_assoc.
Qed.

Lemma parse_template_plain P :
  forallb no_dollar P = true ->
  Regex.parse_template false P = Ok (map Regex.PLit P).
Proof.
  induction P as [| c P IH]; intros HP; [reflexivity |].
  simpl in HP. apply andb_prop in HP as [Hc HP].
  unfold no_dollar in Hc. apply negb_true_iff in Hc.
  cbn [Regex.parse_template]. rewrite Hc, IH by assumption. reflexivity.
Qed.

Lemma expand_plain P before matched after :
  Regex.expand (map Regex.PLit P) before matched after = P.
Proof.
  unfold Regex.expand. induction P as [| c P IH]; [reflexivity |].
  simpl. by rewrite IH.
Qed.

Lemma starts_with_length V : forall s,
  starts_with V s = true -> List.length V <= List.length s.
Proof.
  induction V as [| c V IH]; intros [| x s] H; simpl in *; try lia; try discriminate.
  apply andb_prop in H as [_ H]. apply IH in H. lia.
Qed.

Lemma replace_from_literal V P total :
  V <> [] ->
  forall s before skip,
    Regex.replace_from (Regex.seq_of (map Regex.RChar V)) (map Regex.PLit P)
      total before s skip
    = literal_from V P s skip.
Proof.
  intros HV. induction s as [| c s IH]; intros before skip.
  - destruct skip; [| reflexivity]. simpl.
    unfold Regex.match_here. rewrite rmatch_literal.
    destruct V; [done | reflexivity].
  - destruct skip as [| n]; [| simpl; apply IH].
    cbn [Regex.replace_from literal_from].
    unfold Regex.match_here. rewrite rmatch_literal.
    destruct (starts_with V (c :: s)) eqn:Hsw.
    + pose proof (starts_with_length _ _ Hsw) as Hlen.
      rewrite length_skipn.
      replace (List.length (c :: s) - (List.length (c :: s) - List.length V))
        with (List.length V) by lia.
      destruct (List.length V =? 0)%nat eqn:E.
      * apply Nat.eqb_eq in E. destruct V; [done | discriminate].
      * by rewrite expand_plain, IH.
    + by rewrite IH.
Qed.

(** For a non-empty secret without pattern syntax and a placeholder
    without [$], the redactor is the global literal replacement. *)
Lemma replaceCredential_literal payload credential placeholder :
  forallb plain (chars credential) = true ->
  forallb no_dollar (chars placeholder) = true ->
  replaceCredential payload credential placeholder
  = Ok (replace_literal payload credential placeholder).
Proof.
  intros HV HP. unfold replaceCredential, replace_literal.
  destruct (String.eqb credential "") eqn:E; [reflexivity |].
  apply String.eqb_neq in E. simpl negb. cbv iota.
  unfold Regex.replace_global, Regex.compile.
  rewrite parse_pattern_plain by assumption. simpl rev. simpl app. simpl obind.
  rewrite has_groups_literal, parse_template_plain by assumption. simpl obind.
  by rewrite replace_from_literal by by apply chars_nonempty.
Qed.

(** ** Literal replacement and its inverse *)

Lemma literal_from_skip pat rep : forall n s,
  literal_from pat rep s n = literal_from pat rep (skipn n s) 0.
Proof.
  induction n as [| n IH]; intros s; [reflexivity |].
  destruct s as [| x s]; [reflexivity |]. simpl. apply IH.
Qed.

Lemma starts_with_app V r : starts_with V (V ++ r) = true.
Proof.
  induction V as [| c V IH]; [reflexivity |].
  simpl. by rewrite Ascii.eqb_refl.
Qed.

Lemma starts_with_split V : forall s,
  starts_with V s = true -> s = V ++ skipn (List.length V) s.
Proof.
  induction V as [| c V IH]; intros s H; [reflexivity |].
  destruct s as [| x s]; [discriminate |]. simpl in H.
  apply andb_prop in H as [Hc H]. apply Ascii.eqb_eq in Hc as ->.
  simpl. f_equal. by apply IH.
Qed.

Lemma literal_from_prefix pat rep r :
  pat <> [] ->
  literal_from pat rep (pat ++ r) 0 = rep ++ literal_from pat rep r 0.
Proof.
  intros Hp. destruct pat as [| c pat]; [done |].
  change ((c :: pat) ++ r) with (c :: (pat ++ r)).
  cbn [literal_from].
  change (c :: (pat ++ r)) with ((c :: pat) ++ r).
  rewrite starts_with_app. f_equal.
  rewrite literal_from_skip.
  replace (List.length (c :: pat) - 1) with (List.length pat) by (simpl; lia).
  by rewrite drop_app_length.
Qed.

Lemma literal_round_trip V c P' :
  V <> [] ->
  forall n s, List.length s <= n -> occurs c s = false ->
    literal_from (c :: P') V (literal_from V (c :: P') s 0) 0 = s.
Proof.
  intros HV. induction n as [| n IH]; intros s Hn Hc.
  - destruct s; [reflexivity | simpl in Hn; lia].
  - destruct s as [| x s]; [reflexivity |].
    destruct (starts_with V (x :: s)) eqn:Hsw.
    + pose proof (starts_with_split _ _ Hsw) as Hs.
      pose proof (starts_with_length _ _ Hsw) as Hlen.
      set (t := skipn (List.length V) (x :: s)) in *.
      rewrite Hs, literal_from_prefix, literal_from_prefix by done.
      f_equal. apply IH.
      * assert (List.length (x :: s) = List.length V + List.length t) as E
          by (by rewrite Hs at 1; rewrite length_app).
        destruct V; [done |]. simpl in *. lia.
      * unfold occurs in *. rewrite Hs, existsb_app in Hc.
        by apply orb_false_elim in Hc as [_ Hc].
    + cbn [literal_from]. rewrite Hsw.
      unfold occurs in Hc. simpl in Hc. apply orb_false_elim in Hc as [Hx Hc].
      cbn [literal_from starts_with]. rewrite Hx. cbn [andb].
      f_equal. apply IH; [simpl in Hn; lia | exact Hc].
Qed.

Lemma literal_from_absent V P : forall s,
  includes_chars s V = false -> literal_from V P s 0 = s.
Proof.
  induction s as [| x s IH]; intros H; [reflexivity |].
  cbn [includes_chars] in H. apply orb_false_elim in H as [Hsw H].
  cbn [literal_from]. rewrite Hsw. f_equal. by apply IH.
Qed.

Lemma fresh_not_included c P' : forall s,
  occurs c s = false -> includes_chars s (c :: P') = false.
Proof.
  induction s as [| x s IH]; intros H; [reflexivity |].
  unfold occurs in H. simpl in H. apply orb_false_elim in H as [Hx H].
  cbn [includes_chars starts_with]. rewrite Hx. simpl. by apply IH.
Qed.

Lemma restore_redacted_string s secret placeholder :
  secret <> "" ->
  fresh_for placeholder s = true ->
  restoreCredential (replace_literal s secret placeholder) placeholder secret = s.
Proof.
  intros HV HP. destruct placeholder as [| c P']; [discriminate |].
  unfold fresh_for in HP. apply negb_true_iff in HP.
  unfold restoreCredential, replace_literal.
  destruct (String.eqb secret "") eqn:E; [by apply String.eqb_eq in E |].
  simpl (String.eqb (String c P') ""). cbv iota.
  rewrite chars_text.
  change (chars (String c P')) with (c :: chars P').
  rewrite (literal_round_trip _ _ _ (chars_nonempty _ HV) _ _ (le_n _) HP).
  apply text_chars.
Qed.

Lemma restore_fresh_string s secret placeholder :
  fresh_for placeholder s = true ->
  restoreCredential s placeholder secret = s
  /\ includes s placeholder = false.
Proof.
  intros HP. destruct placeholder as [| c P']; [discriminate |].
  unfold fresh_for in HP. apply negb_true_iff in HP.
  pose proof (fresh_not_included c (chars P') _ HP) as Hno.
  split; [| exact Hno].
  unfold restoreCredential, replace_literal.
  simpl (String.eqb (String c P') ""). cbv iota.
  change (chars (String c P')) with (c :: chars P').
  rewrite literal_from_absent by exact Hno. apply text_chars.
Qed.

Lemma replace_literal_absent s secret placeholder :
  includes s secret = false -> replace_literal s secret placeholder = s.
Proof.
  intros H. unfold replace_literal. destruct (String.eqb secret ""); [done |].
  rewrite literal_from_absent by exact H. apply text_chars.
Qed.

(** ** Round trip for an API key in a header *)

Lemma all_headers_lookup f d h k v :
  all_headers f d = true -> reqheaders d = Some h -> h !! k = Some v -> f v = true.
Proof.
  unfold all_headers. intros H Hh Hk. rewrite Hh in H.
  rewrite forallb_forall in H. apply (H (k, v)).
  apply list_elem_of_In. by apply elem_of_map_to_list.
Qed.

Lemma map_outcome_ok {A B} (f : A -> outcome B) (g : A -> B) l :
  (forall x, f x = Ok (g x)) -> map_outcome f l = Ok (map g l).
Proof.
  intros Hf. induction l as [| x l IH]; simpl; [done |].
  rewrite Hf. simpl. unfold omap. by rewrite IH.
Qed.

Section HeaderSchemeRoundTrip.

Variables (secret placeholder : string).
Hypothesis secret_nonempty : secret <> "".
Hypothesis secret_plain : forallb plain (chars secret) = true.
Hypothesis placeholder_plain : forallb no_dollar (chars placeholder) = true.

Let lit (s : string) : string := replace_literal s secret placeholder.
Let F (v : HeaderValue) : HeaderValue := HStr (lit (toString v)).

Lemma redactor_is_literal s : replaceCredential s secret placeholder = Ok (lit s).
Proof. by apply replaceCredential_literal. Qed.

Lemma redact_value_literal v :
  is_string v = true -> redact_value secret placeholder v = F v.
Proof.
  intros Hv. unfold redact_value, redacted, F. rewrite redactor_is_literal.
  destruct (includes (toString v) secret) eqn:Hin; [done |].
  destruct v as [s | l]; [| discriminate]. simpl in *.
  unfold lit. by rewrite replace_literal_absent.
Qed.

Lemma raw_headers_editor_literal d :
  replaceCredentialInRawHeaders secret placeholder d
  = (Ok tt, match rawHeaders d with
            | Some raw => with_rawHeaders (map lit raw) d
            | None => d
            end).
Proof.
  unfold replaceCredentialInRawHeaders, bind, get, lift, modify.
  destruct (rawHeaders d) as [raw |]; [| done].
  by rewrite (map_outcome_ok _ lit) by apply redactor_is_literal.
Qed.

Lemma response_editor_inert d :
  response_inert secret d = true ->
  replaceCredentialInResponse secret placeholder d = (Ok tt, d).
Proof.
  intros Hr. unfold replaceCredentialInResponse, bind, get, lift, modify.
  unfold response_inert in Hr.
  destruct (response d) as [r |] eqn:Hresp; [| done].
  destruct (truthy r) eqn:Ht; [| done].
  simpl in Hr. apply andb_prop in Hr as [Hno Hp].
  apply negb_true_iff in Hno. apply parse_stringify in Hp.
  rewrite redactor_is_literal. unfold lit. rewrite replace_literal_absent by done.
  rewrite Hp. destruct d; simpl in *; by subst.
Qed.

Lemma apikey_header_literal name d h :
  reqheaders d = Some h ->
  all_headers is_string d = true ->
  named_header_clean name secret placeholder d = true ->
  replaceApiKeyInHeader name secret placeholder d
  = (Ok tt, with_reqheaders (F <$> h) d).
Proof.
  intros Hh Hstr Hclean.
  assert (Hsucc : forall (h' : gmap string HeaderValue) k v,
             h' !! k = Some v -> includes (toString v) secret = true ->
             exists s, replaceCredential (toString v) secret placeholder = Ok s)
    by (intros; eexists; apply redactor_is_literal).
  unfold replaceApiKeyInHeader.
  unfold bind at 1. unfold get.
  unfold named_header_clean in Hclean. rewrite Hh in Hclean.
  destruct name as [n |]; [destruct (h !! n) as [v |] eqn:Hn |].
  - rewrite Hh. cbn [mbind option_bind] in *. rewrite Hn in *.
    apply negb_true_iff in Hclean.
    unfold bind, lift, set_reqheader, modify. rewrite redactor_is_literal, Hh.
    cbn [with_reqheaders].
    rewrite (headers_editor_ok _ _ _ (<[n := HStr (lit (toString v))]> h));
      [| reflexivity | intros; by eapply Hsucc].
    rewrite with_reqheaders_twice. f_equal. f_equal.
    apply map_eq. intros k. rewrite !lookup_fmap.
    destruct (decide (k = n)) as [-> | Hne].
    + rewrite lookup_insert_eq, Hn. simpl. f_equal.
      unfold redact_value. simpl toString. unfold lit in *. by rewrite Hclean.
    + rewrite lookup_insert_ne by done.
      destruct (h !! k) as [v' |] eqn:Hk; [| done]. simpl. f_equal.
      apply redact_value_literal. by eapply all_headers_lookup.
  - rewrite Hh. cbn [mbind option_bind]. rewrite Hn.
    unfold bind at 1. unfold ret.
    rewrite (headers_editor_ok _ _ _ h Hh) by (intros; by eapply Hsucc).
    f_equal. f_equal. apply map_fmap_ext. intros k v' Hk.
    apply redact_value_literal. by eapply all_headers_lookup.
  - unfold bind at 1. unfold ret.
    pose proof (headers_editor_ok secret placeholder d h Hh (Hsucc h)) as E.
    rewrite E.
    f_equal. f_equal. apply map_fmap_ext. intros k v' Hk.
    apply redact_value_literal. by eapply all_headers_lookup.
Qed.

Lemma apikey_header_no_headers name d :
  reqheaders d = None ->
  replaceApiKeyInHeader name secret placeholder d = (Ok tt, d).
Proof.
  intros Hh. unfold replaceApiKeyInHeader, replaceCredentialInHeaders, bind, get, ret.
  rewrite Hh. destruct name; simpl; by rewrite ?Hh.
Qed.

End HeaderSchemeRoundTrip.

Lemma restore_json_fresh placeholder secret (o : option json) :
  match o with
  | Some v => fresh_for placeholder (stringify v)
  | None => true
  end = true ->
  restore_json placeholder secret o = Ok o.
Proof.
  intros H. destruct o as [v |]; [| done]. unfold restore_json.
  by rewrite (proj2 (restore_fresh_string _ secret _ H)).
Qed.

Lemma chars_app (a b : string) : chars (a ++ b) = chars a ++ chars b.
Proof. induction a as [| c a IH]; simpl; [done |]. unfold chars in *. simpl. by rewrite IH. Qed.

Lemma literal_from_suffix c P' V : forall x,
  occurs c x = false ->
  literal_from (c :: P') V (x ++ c :: P') 0 = x ++ V.
Proof.
  induction x as [| a x IH]; intros Hx.
  - simpl app. rewrite <- (app_nil_r (c :: P')) at 2.
    rewrite literal_from_prefix by done. simpl. by rewrite app_nil_r.
  - unfold occurs in Hx. simpl in Hx. apply orb_false_elim in Hx as [Ha Hx].
    change ((a :: x) ++ c :: P') with (a :: (x ++ c :: P')).
    cbn [literal_from starts_with]. rewrite Ha. cbn [andb].
    simpl. f_equal. by apply IH.
Qed.

Lemma restore_prefixed prefix secret placeholder :
  fresh_for placeholder (prefix ++ secret) = true ->
  restoreCredential (prefix ++ placeholder) placeholder secret = (prefix ++ secret)%string.
Proof.
  intros HP. destruct placeholder as [| c P']; [discriminate |].
  unfold fresh_for in HP. apply negb_true_iff in HP.
  rewrite chars_app in HP. unfold occurs in HP. rewrite existsb_app in HP.
  apply orb_false_elim in HP as [HP _].
  unfold restoreCredential, replace_literal.
  simpl (String.eqb (String c P') ""). cbv iota.
  rewrite chars_app. change (chars (String c P')) with (c :: chars P').
  rewrite literal_from_suffix by exact HP.
  rewrite <- chars_app. apply text_chars.
Qed.

Section RoundTrip.

Variables (secret placeholder : string) (d : RecordingDefinition).
Hypothesis secret_nonempty : secret <> "".
Hypothesis secret_plain : forallb plain (chars secret) = true.
Hypothesis placeholder_plain : forallb no_dollar (chars placeholder) = true.
Hypothesis placeholder_fresh : fresh_exchange placeholder d = true.
Hypothesis response_kept : response_inert secret d = true.

(** After a header step that leaves the headers [o], the raw-headers and
    response editors complete, and restoration gives the exchange back
    when it restores the headers [o] to what they were. *)
Lemma round_trip_after_headers (hdr : M unit) o :
  hdr d = (Ok tt, with_headers o d) ->
  fmap (M := gmap string) (restore_header placeholder secret) <$> o = reqheaders d ->
  exists d1,
    ((hdr ;;; replaceCredentialInRawHeaders secret placeholder) ;;;
     replaceCredentialInResponse secret placeholder)%editor d = (Ok tt, d1)
    /\ restoreCredentialInDefinition placeholder secret d1 = (Ok tt, d).
Proof.
  intros Hhdr Ho.
  pose proof placeholder_fresh as Hfresh. unfold fresh_exchange in Hfresh.
  repeat (apply andb_prop in Hfresh as [Hfresh ?]).
  rename Hfresh into Hfscope, H into Hfresp, H0 into Hfbody, H1 into Hfraw,
    H2 into Hfhdr, H3 into Hfpath.
  set (lit := fun s => replace_literal s secret placeholder).
  set (d1 := {| scope := scope d; path := path d; method := method d;
                status := status d; reqheaders := o;
                rawHeaders := map lit <$> rawHeaders d;
                body := body d; response := response d |}).
  exists d1. split.
  - erewrite bind_ok;
      [| erewrite bind_ok; [| exact Hhdr];
         apply raw_headers_editor_literal; assumption].
    rewrite response_editor_inert; try assumption.
    + f_equal. subst d1. destruct d as [sc pa me st rh [raw |] bo re]; reflexivity.
    + rewrite <- response_kept.
      destruct d as [sc pa me st rh [raw |] bo re]; reflexivity.
  - unfold restoreCredentialInDefinition, bind, get, lift, modify.
    subst d1. cbn [body response].
    rewrite !restore_json_fresh by assumption.
    cbn [scope path method status reqheaders rawHeaders body response].
    rewrite Ho.
    destruct d as [sc pa me st rh raw bo re]. cbn in *. f_equal. f_equal.
    + by apply restore_fresh_string.
    + by apply restore_fresh_string.
    + destruct raw as [raw |]; [| done]. cbn. f_equal.
      rewrite map_map. rewrite <- (map_id raw) at 2.
      apply map_ext_in. intros s Hin.
      rewrite forallb_forall in Hfraw.
      apply restore_redacted_string; [done | by apply Hfraw].
Qed.

Lemma restore_redacted_headers (h : gmap string HeaderValue) :
  reqheaders d = Some h ->
  all_headers is_string d = true ->
  restore_header placeholder secret
  <$> ((fun v => HStr (replace_literal (toString v) secret placeholder)) <$> h) = h.
Proof.
  intros Hh Hstr.
  pose proof placeholder_fresh as Hfresh. unfold fresh_exchange in Hfresh.
  repeat (apply andb_prop in Hfresh as [Hfresh ?]).
  rewrite <- map_fmap_compose. rewrite <- (map_fmap_id h) at 2.
  apply map_fmap_ext. intros k v Hk.
  assert (is_string v = true) as Hs by (by eapply all_headers_lookup).
  assert (fresh_for placeholder (toString v) = true) as Hf
    by (by eapply (all_headers_lookup (fun v => fresh_for placeholder (toString v)))).
  destruct v as [s | l]; [| discriminate]. simpl in *.
  f_equal. by apply restore_redacted_string.
Qed.

Lemma restore_authorization prefix (h : gmap string HeaderValue) :
  reqheaders d = Some h ->
  all_headers is_string d = true ->
  authorization_is prefix secret d = true ->
  is_Some (h !! AUTH_HEADER_NAME) ->
  restore_header placeholder secret
  <$> <[AUTH_HEADER_NAME := HStr (prefix ++ placeholder)]> h = h.
Proof.
  intros Hh Hstr Hauth [v Hv].
  pose proof placeholder_fresh as Hfresh. unfold fresh_exchange in Hfresh.
  repeat (apply andb_prop in Hfresh as [Hfresh ?]).
  unfold authorization_is in Hauth. rewrite Hh in Hauth.
  cbn [mbind option_bind] in Hauth. rewrite Hv in Hauth.
  destruct v as [s | l]; [| discriminate]. apply String.eqb_eq in Hauth as ->.
  apply map_eq. intros k. rewrite lookup_fmap.
  destruct (decide (k = AUTH_HEADER_NAME)) as [-> | Hne].
  - rewrite lookup_insert_eq, Hv. cbn. f_equal. f_equal.
    apply restore_prefixed.
    exact (all_headers_lookup (fun v => fresh_for placeholder (toString v))
             d h AUTH_HEADER_NAME (HStr (prefix ++ secret)) ltac:(assumption) Hh Hv).
  - rewrite lookup_insert_ne by done.
    destruct (h !! k) as [v |] eqn:Hk; [| done]. cbn. f_equal.
    assert (is_string v = true) as Hs by (by eapply all_headers_lookup).
    assert (fresh_for placeholder (toString v) = true) as Hf
      by (by eapply (all_headers_lookup (fun v => fresh_for placeholder (toString v)))).
    destruct v as [s | l]; [| discriminate]. simpl in *.
    f_equal. by apply restore_fresh_string.
Qed.

Lemma restore_untouched_headers (h : gmap string HeaderValue) :
  reqheaders d = Some h ->
  all_headers is_string d = true ->
  restore_header placeholder secret <$> h = h.
Proof.
  intros Hh Hstr.
  pose proof placeholder_fresh as Hfresh. unfold fresh_exchange in Hfresh.
  repeat (apply andb_prop in Hfresh as [Hfresh ?]).
  rewrite <- (map_fmap_id h) at 2.
  apply map_fmap_ext. intros k v Hk.
  assert (is_string v = true) as Hs by (by eapply all_headers_lookup).
  assert (fresh_for placeholder (toString v) = true) as Hf
    by (by eapply (all_headers_lookup (fun v => fresh_for placeholder (toString v)))).
  destruct v as [s | l]; [| discriminate]. simpl in *.
  f_equal. by apply restore_fresh_string.
Qed.

End RoundTrip.

Lemma basic_auth_step prefix placeholder d :
  (definition <- get ;;
   if has_auth_header definition
   then set_reqheader AUTH_HEADER_NAME (HStr (prefix ++ placeholder))
   else ret tt)%editor d
  = (Ok tt,
     with_headers
       (match reqheaders d with
        | Some h =>
          Some (match h !! AUTH_HEADER_NAME with
                | Some _ => <[AUTH_HEADER_NAME := HStr (prefix ++ placeholder)]> h
                | None => h
                end)
        | None => None
        end) d).
Proof.
  unfold bind, get, has_auth_header, set_reqheader, modify, ret.
  destruct d as [sc pa me st [h |] raw bo re]; cbn; [| done].
  destruct (h !! AUTH_HEADER_NAME); reflexivity.
Qed.




(** Whatever the restorer: two exchanges that differ in the value of the
    named query parameter have the same redaction. *)
Lemma no_restorer_inverts_query_redaction (restore : RecordingDefinition -> RecordingDefinition) :
  ~ (forall d d1,
       replaceCredentialInDefinition (ApiKey "api-key" QUERY (Some "api_key"))
         "https://localhost" "secret" "PLACEHOLDER" d = (Ok tt, d1) ->
       restore d1 = d).
Proof.
  intros H.
  pose proof (H (exchange_with_path "/get?api_key=my-secret-1")
                (exchange_with_path "/get?api_key=PLACEHOLDER") eq_refl) as H1.
  pose proof (H (exchange_with_path "/get?api_key=secret")
                (exchange_with_path "/get?api_key=PLACEHOLDER") eq_refl) as H2.
  rewrite H1 in H2. discriminate H2.
Qed.

(** * Further properties *)

(** ** Literal redaction: what is left of the secret *)

Lemma includes_chars_false_iff s V :
  includes_chars s V = false <-> forall a b, s = a ++ b -> starts_with V b = false.
Proof.
  induction s as [| x s IH]; split.
  - intros H a b E. symmetry in E. apply app_eq_nil in E as [-> ->].
    simpl in H. by apply orb_false_elim in H as [H _].
  - intros H. simpl. by rewrite (H [] []).
  - intros H a b E. cbn [includes_chars] in H. apply orb_false_elim in H as [H1 H2].
    destruct a as [| y a]; simpl in E.
    + by subst b.
    + injection E as -> E. by apply (proj1 IH H2 a b).
  - intros H. cbn [includes_chars].
    rewrite (H [] (x :: s) eq_refl). simpl.
    apply IH. intros a b E. apply (H (x :: a) b). by rewrite E.
Qed.

Lemma parse_template_total : forall n s,
  List.length s <= n -> exists t, Regex.parse_template false s = Ok t.
Proof.
  induction n as [| n IH]; intros s Hn.
  - destruct s; [by exists [] | simpl in Hn; lia].
  - destruct s as [| c s]; [by exists [] |]. simpl in Hn.
    destruct (IH s ltac:(lia)) as [t Ht].
    cbn [Regex.parse_template].
    destruct (Ascii.eqb c "$").
    + destruct s as [| d s']; [by eexists |].
      simpl in Hn. destruct (IH s' ltac:(lia)) as [t' Ht'].
      rewrite Ht'. simpl andb. cbv iota.
      change (Regex.parse_template false (d :: s')) with (Regex.parse_template false (d :: s')).
      rewrite Ht.
      destruct (Ascii.eqb d "$"); [by eexists |].
      destruct (Ascii.eqb d "&"); [by eexists |].
      destruct (Ascii.eqb d "`"); [by eexists |].
      destruct (Ascii.eqb d "'"); by eexists.
    + rewrite Ht. by eexists.
Qed.

Lemma replace_from_absent V t total :
  V <> [] ->
  forall s before, includes_chars s V = false ->
    Regex.replace_from (Regex.seq_of (map Regex.RChar V)) t total before s 0 = s.
Proof.
  intros HV. induction s as [| c s IH]; intros before H.
  - simpl. unfold Regex.match_here. rewrite rmatch_literal.
    destruct V; [done | reflexivity].
  - cbn [includes_chars] in H. apply orb_false_elim in H as [Hsw H].
    cbn [Regex.replace_from]. unfold Regex.match_here. rewrite rmatch_literal, Hsw.
    by rewrite IH.
Qed.

Lemma redactor_absent payload credential placeholder :
  forallb plain (chars credential) = true ->
  includes payload credential = false ->
  replaceCredential payload credential placeholder = Ok payload.
Proof.
  intros HV Hno. unfold replaceCredential.
  destruct (String.eqb credential "") eqn:E; [reflexivity |].
  apply String.eqb_neq in E. simpl negb. cbv iota.
  unfold Regex.replace_global, Regex.compile.
  rewrite parse_pattern_plain by assumption. simpl rev. simpl app. simpl obind.
  rewrite has_groups_literal.
  destruct (parse_template_total _ (chars placeholder) (le_n _)) as [t ->].
  simpl obind.
  rewrite replace_from_absent; [by rewrite text_chars | by apply chars_nonempty | exact Hno].
Qed.

(** A pattern without the first character of the replacement that starts
    the redacted text starts the text itself. *)
Lemma starts_with_literal_from V p0 P' : forall s U,
  occurs p0 U = false ->
  starts_with U (literal_from V (p0 :: P') s 0) = true -> starts_with U s = true.
Proof.
  induction s as [| c s IH]; intros U Hp H; [exact H |].
  destruct U as [| u U]; [reflexivity |].
  unfold occurs in Hp. simpl in Hp. apply orb_false_elim in Hp as [Hu Hp].
  cbn [literal_from] in H.
  destruct (starts_with V (c :: s)).
  - simpl in H. rewrite Ascii.eqb_sym in Hu. by rewrite Hu in H.
  - simpl in H. apply andb_prop in H as [Hc H]. simpl. rewrite Hc. simpl.
    by apply IH.
Qed.

Lemma includes_chars_behind v0 V' r : forall P2,
  occurs v0 P2 = false ->
  includes_chars r (v0 :: V') = false ->
  includes_chars (P2 ++ r) (v0 :: V') = false.
Proof.
  induction P2 as [| x P2 IH]; intros Hv Hr; [exact Hr |].
  unfold occurs in Hv. simpl in Hv. apply orb_false_elim in Hv as [Hx Hv].
  change ((x :: P2) ++ r) with (x :: (P2 ++ r)).
  cbn [includes_chars starts_with]. rewrite Hx. simpl.
  by apply IH.
Qed.

Lemma literal_from_clean v0 V' p0 P' :
  occurs p0 (v0 :: V') = false ->
  occurs v0 (p0 :: P') = false ->
  forall n s, List.length s <= n ->
    includes_chars (literal_from (v0 :: V') (p0 :: P') s 0) (v0 :: V') = false.
Proof.
  intros Hp Hv. induction n as [| n IH]; intros s Hn.
  - destruct s; [reflexivity | simpl in Hn; lia].
  - destruct s as [| c s]; [reflexivity |].
    destruct (starts_with (v0 :: V') (c :: s)) eqn:Hsw.
    + pose proof (starts_with_split _ _ Hsw) as Hs.
      set (t := skipn (List.length (v0 :: V')) (c :: s)) in *.
      rewrite Hs, literal_from_prefix by done.
      apply includes_chars_behind; [exact Hv |].
      apply IH.
      assert (List.length (c :: s) = List.length (v0 :: V') + List.length t) as E
        by (by rewrite Hs at 1; rewrite length_app).
      simpl in *. lia.
    + pose proof (starts_with_literal_from (v0 :: V') p0 P' (c :: s) (v0 :: V') Hp) as B.
      cbn [literal_from] in *. rewrite Hsw in *.
      cbn [includes_chars].
      destruct (starts_with (v0 :: V') (c :: literal_from (v0 :: V') (p0 :: P') s 0)) eqn:E.
      * specialize (B eq_refl). congruence.
      * simpl. apply IH. simpl in Hn. lia.
Qed.

Lemma apart_inv placeholder secret :
  apart placeholder secret = true ->
  exists p0 P' v0 V',
    chars placeholder = p0 :: P' /\ chars secret = v0 :: V'
    /\ occurs p0 (v0 :: V') = false /\ occurs v0 (p0 :: P') = false.
Proof.
  unfold apart. destruct (chars placeholder) as [| p0 P'] eqn:EP; [discriminate |].
  destruct (chars secret) as [| v0 V'] eqn:EV; [discriminate |].
  intros H. apply andb_prop in H as [H1 H2].
  apply negb_true_iff in H1, H2. by exists p0, P', v0, V'.
Qed.

Lemma replace_literal_clean s secret placeholder :
  apart placeholder secret = true ->
  includes (replace_literal s secret placeholder) secret = false.
Proof.
  intros H. destruct (apart_inv _ _ H) as (p0 & P' & v0 & V' & EP & EV & Hp & Hv).
  unfold replace_literal, includes.
  destruct (String.eqb secret "") eqn:E.
  { apply String.eqb_eq in E. subst. discriminate. }
  rewrite chars_text, EP, EV. by eapply literal_from_clean.
Qed.

Section CleanRedaction.

Variables (secret placeholder : string).
Hypothesis secret_plain : forallb plain (chars secret) = true.
Hypothesis placeholder_plain : forallb no_dollar (chars placeholder) = true.
Hypothesis placeholder_apart : apart placeholder secret = true.

Lemma redactor_clean s :
  replaceCredential s secret placeholder = Ok (replace_literal s secret placeholder)
  /\ includes (replace_literal s secret placeholder) secret = false.
Proof.
  split; [by apply replaceCredential_literal | by apply replace_literal_clean].
Qed.

Lemma redacted_clean v :
  includes (toString (redacted secret placeholder v)) secret = false.
Proof.
  unfold redacted. destruct (redactor_clean (toString v)) as [-> H]. exact H.
Qed.

Lemma redact_value_clean v :
  includes (toString (redact_value secret placeholder v)) secret = false.
Proof.
  unfold redact_value. destruct (includes (toString v) secret) eqn:Hin; [| exact Hin].
  apply redacted_clean.
Qed.

Lemma headers_editor_result d :
  replaceCredentialInHeaders secret placeholder d
  = (Ok tt, match reqheaders d with
            | Some h => with_reqheaders (redact_value secret placeholder <$> h) d
            | None => d
            end).
Proof.
  destruct (reqheaders d) as [h |] eqn:Hh.
  - apply headers_editor_ok; [exact Hh |].
    intros k v _ _. eexists. apply (redactor_clean (toString v)).
  - unfold replaceCredentialInHeaders, bind, get. by rewrite Hh.
Qed.

Lemma apikey_header_result name d :
  replaceApiKeyInHeader name secret placeholder d
  = (Ok tt, match reqheaders d with
            | Some h =>
              with_reqheaders
                (redact_value secret placeholder <$> named_redacted name secret placeholder h) d
            | None => d
            end).
Proof.
  unfold replaceApiKeyInHeader. unfold bind at 1. unfold get.
  destruct (reqheaders d) as [h |] eqn:Hh.
  - destruct name as [n |]; cbn [mbind option_bind named_redacted].
    + destruct (h !! n) as [v |] eqn:Hn.
      * unfold bind at 2. unfold lift.
        pose proof (redactor_clean (toString v)) as [E _].
        rewrite E. unfold bind, set_reqheader, modify. rewrite Hh.
        rewrite headers_editor_result. cbn [reqheaders with_reqheaders].
        unfold redacted. by rewrite E.
      * unfold bind, ret. by rewrite headers_editor_result, Hh.
    + unfold bind, ret. by rewrite headers_editor_result, Hh.
  - destruct name as [n |]; cbn [mbind option_bind].
    + unfold bind, ret. by rewrite headers_editor_result, Hh.
    + unfold bind, ret. by rewrite headers_editor_result, Hh.
Qed.

Lemma raw_headers_editor_result d :
  replaceCredentialInRawHeaders secret placeholder d
  = (Ok tt, match rawHeaders d with
            | Some raw =>
              with_rawHeaders (map (fun s => replace_literal s secret placeholder) raw) d
            | None => d
            end).
Proof.
  unfold replaceCredentialInRawHeaders, bind, get, lift, modify.
  destruct (rawHeaders d) as [raw |]; [| done].
  rewrite (map_outcome_ok _ (fun s => replace_literal s secret placeholder)); [done |].
  intros x. apply redactor_clean.
Qed.

Lemma headers_clean_fmap d h :
  reqheaders d = Some (redact_value secret placeholder <$> h) -> headers_clean secret d.
Proof.
  intros E h' k v Hh Hk. rewrite E in Hh. injection Hh as <-.
  rewrite lookup_fmap in Hk. destruct (h !! k) as [v0 |]; [| discriminate].
  injection Hk as <-. apply redact_value_clean.
Qed.

Lemma headers_clean_none d : reqheaders d = None -> headers_clean secret d.
Proof. intros E h k v Hh. congruence. Qed.

Lemma raw_headers_clean_map d raw :
  rawHeaders d = Some (map (fun s => replace_literal s secret placeholder) raw) ->
  raw_headers_clean secret d.
Proof.
  intros E raw' x Hr Hx. rewrite E in Hr. injection Hr as <-.
  apply in_map_iff in Hx as (s & <- & _). apply redactor_clean.
Qed.

Lemma raw_headers_clean_none d : rawHeaders d = None -> raw_headers_clean secret d.
Proof. intros E raw x Hr. congruence. Qed.

Lemma apikey_header_scheme_clean id name baseUrl d :
  let d' := (replaceCredentialInDefinition (ApiKey id HEADER name) baseUrl
               secret placeholder d).2 in
  headers_clean secret d' /\ raw_headers_clean secret d'.
Proof.
  intros d'.
  set (d1 := match reqheaders d with
             | Some h =>
               with_reqheaders
                 (redact_value secret placeholder <$> named_redacted name secret placeholder h) d
             | None => d
             end).
  set (d2 := match rawHeaders d1 with
             | Some raw =>
               with_rawHeaders (map (fun s => replace_literal s secret placeholder) raw) d1
             | None => d1
             end).
  assert (E : d' = (replaceCredentialInResponse secret placeholder d2).2).
  { subst d'. unfold replaceCredentialInDefinition, replaceApiKey.
    unfold bind at 1. unfold bind at 1.
    by rewrite apikey_header_result, raw_headers_editor_result. }
  assert (Kh : keeps reqheaders (replaceCredentialInResponse secret placeholder)) by frame.
  assert (Kr : keeps rawHeaders (replaceCredentialInResponse secret placeholder)) by frame.
  specialize (Kh d2). specialize (Kr d2). rewrite <- E in Kh, Kr. clearbody d'.
  assert (H1 : headers_clean secret d1).
  { subst d1. destruct (reqheaders d) as [h |] eqn:Hh.
    - by eapply headers_clean_fmap.
    - by apply headers_clean_none. }
  assert (H2 : headers_clean secret d2 /\ raw_headers_clean secret d2).
  { subst d2. destruct (rawHeaders d1) as [raw |] eqn:Hraw.
    - split; [exact H1 | by eapply raw_headers_clean_map].
    - split; [exact H1 | by apply raw_headers_clean_none]. }
  destruct H2 as [H2 H3].
  split.
  - intros h k v Hh. rewrite Kh in Hh. by apply (H2 h k v).
  - intros raw x Hr. rewrite Kr in Hr. by apply (H3 raw x).
Qed.

End CleanRedaction.

(** ** Parameters, HTTP schemes, shape and frames *)

(** *** Parameters *)

Lemma scope_editor_result secret placeholder d :
  forallb plain (chars secret) = true ->
  forallb no_dollar (chars placeholder) = true ->
  replaceCredentialInScope secret placeholder d
  = (Ok tt, with_scope (replace_literal (scope d) secret placeholder) d).
Proof.
  intros HV HP. unfold replaceCredentialInScope, bind, get, lift, modify.
  destruct (includes (scope d) secret) eqn:Hin.
  - by rewrite replaceCredential_literal.
  - rewrite replace_literal_absent by done. by destruct d.
Qed.

Lemma parameter_redaction_clean_aux baseUrl secret placeholder d d' :
  forallb plain (chars secret) = true ->
  forallb no_dollar (chars placeholder) = true ->
  apart placeholder secret = true ->
  replaceParameterInDefinition baseUrl secret placeholder d = (Ok tt, d') ->
  headers_clean secret d' /\ raw_headers_clean secret d'
  /\ includes (scope d') secret = false.
Proof.
  intros HV HP HA H. unfold replaceParameterInDefinition in H.
  apply bind_ok_inv in H as ([] & d1 & H1 & H).
  pose proof H as Hrest1.
  apply bind_ok_inv in H as ([] & d2 & H2 & H).
  pose proof H as Hrest2.
  apply bind_ok_inv in H as ([] & d3 & H3 & H).
  apply bind_ok_inv in H as ([] & d4 & H4 & H).
  apply bind_ok_inv in H as ([] & d5 & H5 & H).
  rewrite (headers_editor_result _ _ HV HP HA) in H1. injection H1 as H1.
  rewrite (raw_headers_editor_result _ _ HV HP HA) in H2. injection H2 as H2.
  rewrite scope_editor_result in H5 by assumption. injection H5 as H5.
  kept reqheaders Hrest1. rename K into Kh.
  kept rawHeaders Hrest2. rename K into Kr.
  kept scope H. rename K into Ks.
  split; [| split].
  - intros h k v Hh. rewrite Kh in Hh. revert h k v Hh.
    change (headers_clean secret d1). subst d1.
    destruct (reqheaders d) as [h |] eqn:Hh.
    + by eapply headers_clean_fmap.
    + by apply headers_clean_none.
  - intros raw x Hr. rewrite Kr in Hr. revert raw x Hr.
    change (raw_headers_clean secret d2). subst d2.
    destruct (rawHeaders d1) as [raw |] eqn:Hraw.
    + by eapply raw_headers_clean_map.
    + by apply raw_headers_clean_none.
  - rewrite Ks. subst d5. simpl. by apply replace_literal_clean.
Qed.

(** *** Basic and Bearer *)

Lemma http_scheme_headers_aux id scheme prefix baseUrl credential placeholder d :
  (scheme = BASIC /\ prefix = "Basic ") \/ (scheme = BEARER /\ prefix = "Bearer ") ->
  reqheaders (replaceCredentialInDefinition (Http id scheme) baseUrl credential placeholder d).2
  = match reqheaders d with
    | Some h =>
      Some (match h !! "Authorization" with
            | Some _ => <["Authorization" := HStr (prefix ++ placeholder)]> h
            | None => h
            end)
    | None => None
    end.
Proof.
  intros Hs.
  assert (K : keeps reqheaders
                (replaceCredentialInRawHeaders credential placeholder ;;;
                 replaceCredentialInResponse credential placeholder)) by frame.
  assert (E : forall m : M unit,
             (forall d0, exists d1, m d0 = (Ok tt, d1)) ->
             reqheaders (((m ;;; replaceCredentialInRawHeaders credential placeholder) ;;;
                          replaceCredentialInResponse credential placeholder) d).2
             = reqheaders (m d).2).
  { intros m Hm. destruct (Hm d) as [d1 Hd1].
    specialize (K d1). rewrite Hd1. cbn [snd]. rewrite <- K.
    unfold bind. by rewrite Hd1. }
  assert (A : forall word,
             reqheaders
               ((definition <- get ;;
                 if has_auth_header definition
                 then set_reqheader AUTH_HEADER_NAME (HStr (word ++ placeholder))
                 else ret tt) d).2
             = match reqheaders d with
               | Some h =>
                 Some (match h !! "Authorization" with
                       | Some _ => <["Authorization" := HStr (word ++ placeholder)]> h
                       | None => h
                       end)
               | None => None
               end).
  { intros word. unfold bind, get, has_auth_header, AUTH_HEADER_NAME.
    destruct (reqheaders d) as [h |] eqn:Hh; cbn [mbind option_bind]; [| exact Hh].
    destruct (h !! "Authorization") eqn:Ha; [| exact Hh].
    unfold set_reqheader, modify. by rewrite Hh. }
  assert (B : forall word d0, exists d1,
             (definition <- get ;;
              if has_auth_header definition
              then set_reqheader AUTH_HEADER_NAME (HStr (word ++ placeholder))
              else ret tt) d0 = (Ok tt, d1)).
  { intros word d0. unfold bind, get, set_reqheader, modify, ret.
    destruct (has_auth_header d0); by eexists. }
  destruct Hs as [[-> ->] | [-> ->]]; unfold replaceCredentialInDefinition.
  - rewrite E; [apply A | apply B].
  - rewrite E; [apply A | apply B].
Qed.

(** *** Shape *)

Lemma map_outcome_length {A B} (f : A -> outcome B) : forall l l',
  map_outcome f l = Ok l' -> List.length l' = List.length l.
Proof.
  induction l as [| x l IH]; intros l' H; simpl in H.
  - by injection H as <-.
  - destruct (f x) as [y | |]; simpl in H; try discriminate.
    unfold omap in H. destruct (map_outcome f l) as [l0 | |]; simpl in H; try discriminate.
    injection H as <-. simpl. f_equal. by apply IH.
Qed.

Lemma shape_insert d h n v :
  reqheaders d = Some h -> is_Some (h !! n) ->
  shape (with_reqheaders (<[n := v]> h) d) = shape d.
Proof.
  intros Hh Hn. unfold shape. simpl. rewrite Hh. simpl.
  by rewrite dom_insert_lookup_L.
Qed.

Lemma shape_for_each_headers credential placeholder l :
  forall d h,
    reqheaders d = Some h ->
    Forall (fun e => is_Some (h !! fst e)) l ->
    shape (for_each l (replace_header credential placeholder) d).2 = shape d.
Proof.
  induction l as [| e l IH]; intros d h Hh HF; [reflexivity |].
  inversion HF as [| ? ? He HF']; subst.
  simpl. unfold bind at 1. unfold replace_header at 1. unfold bind at 1. unfold lift.
  destruct (replaceCredential (toString e.2) credential placeholder) as [s | err |];
    [| reflexivity ..].
  unfold set_reqheader, modify. rewrite Hh.
  rewrite (IH _ (<[e.1 := HStr s]> h)); [by apply shape_insert | reflexivity |].
  eapply Forall_impl; [exact HF' |]. intros e' He'. simpl in He'.
  destruct (decide (e'.1 = e.1)) as [-> | Hne].
  - rewrite lookup_insert_eq. by eexists.
  - by rewrite lookup_insert_ne.
Qed.

Lemma headers_editor_keeps_shape credential placeholder :
  keeps shape (replaceCredentialInHeaders credential placeholder).
Proof.
  intros d. unfold replaceCredentialInHeaders. unfold bind, get.
  destruct (reqheaders d) as [h |] eqn:Hh; [| reflexivity].
  apply (shape_for_each_headers _ _ _ _ h Hh).
  apply Forall_forall. intros [k v] Hin.
  apply touched_entries in Hin as [Hk _]. simpl. by eexists.
Qed.

Lemma raw_headers_editor_keeps_shape credential placeholder :
  keeps shape (replaceCredentialInRawHeaders credential placeholder).
Proof.
  intros d. unfold replaceCredentialInRawHeaders, bind, get, lift, modify.
  destruct (rawHeaders d) as [raw |] eqn:Hraw; [| reflexivity].
  destruct (map_outcome _ raw) as [l | |] eqn:E; [| reflexivity ..].
  apply map_outcome_length in E. unfold shape. simpl. rewrite Hraw. simpl.
  by rewrite E.
Qed.

Lemma body_editor_keeps_shape credential placeholder :
  keeps shape (replaceCredentialInBody credential placeholder).
Proof.
  intros d. unfold replaceCredentialInBody, bind, get, lift, modify.
  destruct (body d) as [b |] eqn:Hb; [| reflexivity].
  destruct (negb _); [| reflexivity].
  destruct (includes _ _); [| reflexivity].
  destruct (replaceCredential _ _ _) as [s | |]; [| reflexivity ..].
  destruct (JSON.parse s) as [v | |]; [| reflexivity ..].
  unfold shape. simpl. by rewrite Hb.
Qed.

Lemma response_editor_keeps_shape credential placeholder :
  keeps shape (replaceCredentialInResponse credential placeholder).
Proof.
  intros d. unfold replaceCredentialInResponse, bind, get, lift, modify.
  destruct (response d) as [b |] eqn:Hb; [| reflexivity].
  destruct (truthy b); [| reflexivity].
  destruct (replaceCredential _ _ _) as [s | |]; [| reflexivity ..].
  destruct (JSON.parse s) as [v | |]; [| reflexivity ..].
  unfold shape. simpl. by rewrite Hb.
Qed.

Lemma scope_editor_keeps_shape credential placeholder :
  keeps shape (replaceCredentialInScope credential placeholder).
Proof. frame. Qed.

Lemma path_editor_keeps_shape baseUrl credential placeholder :
  keeps shape (replaceCredentialInPath baseUrl credential placeholder).
Proof. frame. Qed.

Lemma query_editor_keeps_shape baseUrl credential placeholder :
  keeps shape (replaceCredentialInQuery baseUrl credential placeholder).
Proof. frame. Qed.

Lemma apikey_query_keeps_shape name baseUrl credential placeholder :
  keeps shape (replaceApiKeyInQuery name baseUrl credential placeholder).
Proof. frame. Qed.

Lemma apikey_header_keeps_shape name credential placeholder :
  keeps shape (replaceApiKeyInHeader name credential placeholder).
Proof.
  intros d. unfold replaceApiKeyInHeader. unfold bind at 1. unfold get.
  pose proof (headers_editor_keeps_shape credential placeholder) as K.
  destruct name as [n |]; [| unfold bind, ret; apply K].
  destruct (reqheaders d) as [h |] eqn:Hh; cbn [mbind option_bind];
    [| unfold bind, ret; apply K].
  destruct (h !! n) as [v |] eqn:Hn; [| unfold bind, ret; apply K].
  unfold bind at 1. unfold bind at 1. unfold lift.
  destruct (replaceCredential _ _ _) as [s | |]; [| reflexivity ..].
  unfold set_reqheader, modify. rewrite Hh. rewrite K.
  apply shape_insert; [done | by eexists].
Qed.

Lemma auth_keeps_shape prefix placeholder :
  keeps shape
    (definition <- get ;;
     if has_auth_header definition
     then set_reqheader AUTH_HEADER_NAME (HStr (prefix ++ placeholder))
     else ret tt).
Proof.
  intros d. unfold bind, get, has_auth_header.
  destruct (reqheaders d) as [h |] eqn:Hh; cbn [mbind option_bind]; [| reflexivity].
  destruct (h !! AUTH_HEADER_NAME) as [v |] eqn:Hn; [| reflexivity].
  unfold set_reqheader, modify. rewrite Hh.
  apply shape_insert; [done | by eexists].
Qed.

Ltac shape_step :=
  first
    [ simple apply headers_editor_keeps_shape
    | simple apply raw_headers_editor_keeps_shape
    | simple apply body_editor_keeps_shape
    | simple apply response_editor_keeps_shape
    | simple apply scope_editor_keeps_shape
    | simple apply path_editor_keeps_shape
    | simple apply query_editor_keeps_shape
    | simple apply apikey_query_keeps_shape
    | simple apply apikey_header_keeps_shape
    | simple apply (auth_keeps_shape "Basic ")
    | simple apply (auth_keeps_shape "Bearer ")
    | simple apply keeps_lift
    | simple apply keeps_bind; [| intros ?] ].

Lemma redaction_keeps_shape_aux baseUrl credential placeholder :
  (forall scheme,
     keeps shape (replaceCredentialInDefinition scheme baseUrl credential placeholder))
  /\ keeps shape (replaceParameterInDefinition baseUrl credential placeholder).
Proof.
  split.
  - intros [id [] name | id []];
      unfold replaceCredentialInDefinition, replaceApiKey, replaceApiKeyInBody,
        replaceApiKeyInPath, replaceBasicAuth, replaceBearerAuth, throw;
      repeat shape_step.
  - unfold replaceParameterInDefinition. repeat shape_step.
Qed.

(** *** Frame by placement *)

Lemma placement_frame_aux baseUrl credential placeholder :
  (forall id name,
     keeps (fun d => (scope d, path d, reqheaders d, rawHeaders d))
       (replaceCredentialInDefinition (ApiKey id BODY name) baseUrl credential placeholder))
  /\ (forall id name,
        keeps (fun d => (scope d, reqheaders d, rawHeaders d, body d))
          (replaceCredentialInDefinition (ApiKey id PATH name) baseUrl credential placeholder))
  /\ (forall id name,
        keeps (fun d => (scope d, reqheaders d, rawHeaders d, body d))
          (replaceCredentialInDefinition (ApiKey id QUERY name) baseUrl credential placeholder))
  /\ (forall id name,
        keeps (fun d => (scope d, path d, body d))
          (replaceCredentialInDefinition (ApiKey id HEADER name) baseUrl credential placeholder))
  /\ (forall id scheme,
        keeps (fun d => (scope d, path d, body d))
          (replaceCredentialInDefinition (Http id scheme) baseUrl credential placeholder)).
Proof.
  split; [| split; [| split; [| split]]].
  - intros. frame.
  - intros. frame.
  - intros. frame.
  - intros. frame.
  - intros id []; frame.
Qed.

(** *** A secret that is not a pattern *)

Lemma redactor_throws payload credential placeholder e :
  Regex.compile credential = Throw e ->
  replaceCredential payload credential placeholder = Throw e.
Proof.
  intros H. unfold replaceCredential.
  destruct (String.eqb credential "") eqn:E.
  - apply String.eqb_eq in E. subst. discriminate.
  - simpl. unfold Regex.replace_global. by rewrite H.
Qed.

Lemma headers_editor_throws credential placeholder e d :
  Regex.compile credential = Throw e ->
  replaceCredentialInHeaders credential placeholder d = (Ok tt, d)
  \/ replaceCredentialInHeaders credential placeholder d = (Throw e, d).
Proof.
  intros H. unfold replaceCredentialInHeaders, bind, get.
  destruct (reqheaders d) as [h |]; [| by left].
  destruct (List.filter _ _) as [| x l]; [by left | right].
  rewrite (for_each_headers_fails _ _ "").
  - by rewrite (redactor_throws _ _ _ _ H).
  - intros s. by rewrite (redactor_throws _ _ _ _ H).
Qed.

Lemma raw_headers_editor_throws credential placeholder e d x raw :
  Regex.compile credential = Throw e ->
  rawHeaders d = Some (x :: raw) ->
  replaceCredentialInRawHeaders credential placeholder d = (Throw e, d).
Proof.
  intros H Hraw. unfold replaceCredentialInRawHeaders, bind, get, lift.
  rewrite Hraw. simpl. by rewrite (redactor_throws _ _ _ _ H).
Qed.

Lemma apikey_header_throws name credential placeholder e d :
  Regex.compile credential = Throw e ->
  replaceApiKeyInHeader name credential placeholder d = (Ok tt, d)
  \/ replaceApiKeyInHeader name credential placeholder d = (Throw e, d).
Proof.
  intros H.
  assert (E : replaceApiKeyInHeader name credential placeholder d
              = match name with
                | Some n =>
                  match reqheaders d ≫= (.!! n) with
                  | Some v => (Throw e, d)
                  | None => replaceCredentialInHeaders credential placeholder d
                  end
                | None => replaceCredentialInHeaders credential placeholder d
                end).
  { unfold replaceApiKeyInHeader. unfold bind at 1. unfold get.
    destruct name as [n |]; [| reflexivity].
    destruct (reqheaders d ≫= (.!! n)) as [v |]; [| reflexivity].
    unfold bind, lift. by rewrite (redactor_throws _ _ _ _ H). }
  rewrite E.
  pose proof (headers_editor_throws credential placeholder e d H) as K.
  destruct name as [n |]; [| exact K].
  destruct (reqheaders d ≫= (.!! n)) as [v |]; [by right | exact K].
Qed.

Lemma malformed_secret_aux baseUrl credential placeholder e d x raw :
  Regex.compile credential = Throw e ->
  rawHeaders d = Some (x :: raw) ->
  (forall id name,
     replaceCredentialInDefinition (ApiKey id HEADER name) baseUrl credential placeholder d
     = (Throw e, d))
  /\ replaceParameterInDefinition baseUrl credential placeholder d = (Throw e, d)
  /\ (forall id scheme, scheme <> DIGEST ->
        (replaceCredentialInDefinition (Http id scheme) baseUrl credential placeholder d).1
        = Throw e).
Proof.
  intros H Hraw.
  pose proof (raw_headers_editor_throws _ placeholder _ _ _ _ H Hraw) as R.
  split; [| split].
  - intros id name. unfold replaceCredentialInDefinition, replaceApiKey.
    unfold bind at 1. unfold bind at 1.
    destruct (apikey_header_throws name credential placeholder e d H) as [-> | ->];
      [by rewrite R | done].
  - unfold replaceParameterInDefinition. unfold bind at 1.
    destruct (headers_editor_throws credential placeholder e d H) as [-> | ->]; [| done].
    unfold bind at 1. by rewrite R.
  - intros id scheme Hs.
    assert (A : forall prefix,
               exists d1,
                 (definition <- get ;;
                  if has_auth_header definition
                  then set_reqheader AUTH_HEADER_NAME (HStr (prefix ++ placeholder))
                  else ret tt) d = (Ok tt, d1)
                 /\ rawHeaders d1 = Some (x :: raw)).
    { intros prefix. unfold bind, get, set_reqheader, modify, ret.
      destruct (has_auth_header d); eexists; (split; [reflexivity |]); [| done].
      destruct (reqheaders d); by simpl. }
    destruct scheme; [| | done]; unfold replaceCredentialInDefinition.
    + destruct (A "Basic ") as (d1 & E1 & Hraw1).
      unfold bind at 1. unfold bind at 1. unfold replaceBasicAuth. rewrite E1.
      by rewrite (raw_headers_editor_throws _ placeholder _ _ _ _ H Hraw1).
    + destruct (A "Bearer ") as (d1 & E1 & Hraw1).
      unfold bind at 1. unfold bind at 1. unfold replaceBearerAuth. rewrite E1.
      by rewrite (raw_headers_editor_throws _ placeholder _ _ _ _ H Hraw1).
Qed.

(** ** Redaction inside JSON values *)

Lemma json_ind' (Q : json -> Prop) :
  Q JNull -> (forall b, Q (JBool b)) -> (forall z, Q (JNum z)) -> (forall s, Q (JStr s)) ->
  (forall items, Forall Q items -> Q (JArr items)) ->
  (forall members, Forall (fun m => Q (snd m)) members -> Q (JObj members)) ->
  forall v, Q v.
Proof.
  intros Hnull Hbool Hnum Hstr Harr Hobj.
  fix IH 1. intros [| b | z | s | items | members].
  - exact Hnull.
  - apply Hbool.
  - apply Hnum.
  - apply Hstr.
  - apply Harr. induction items as [| x items IHi]; constructor; [apply IH | exact IHi].
  - apply Hobj. induction members as [| [k x] members IHm]; constructor;
      [apply IH | exact IHm].
Qed.

Lemma starts_with_app_l V : forall a r,
  starts_with V a = true -> starts_with V (a ++ r) = true.
Proof.
  induction V as [| v V IH]; intros a r H; [reflexivity |].
  destruct a as [| x a]; [discriminate |]. simpl in *.
  apply andb_prop in H as [-> H]. simpl. by apply IH.
Qed.

Lemma starts_with_before c V : forall a b,
  occurs c V = false ->
  starts_with V (a ++ c :: b) = true -> starts_with V a = true.
Proof.
  induction V as [| v V IH]; intros a b Hc H; [reflexivity |].
  unfold occurs in Hc. simpl in Hc. apply orb_false_elim in Hc as [Hv Hc].
  destruct a as [| x a]; simpl in H.
  - rewrite Ascii.eqb_sym in Hv. by rewrite Hv in H.
  - apply andb_prop in H as [Hx H]. simpl. rewrite Hx. simpl. by eapply IH.
Qed.

(** A character that is not in the pattern splits the replacement. *)
Lemma literal_from_split V P c :
  V <> [] -> occurs c V = false ->
  forall n a, List.length a <= n -> forall b,
    literal_from V P (a ++ c :: b) 0
    = literal_from V P a 0 ++ c :: literal_from V P b 0.
Proof.
  intros HV Hc. induction n as [| n IH]; intros a Hn b.
  - destruct a; [| simpl in Hn; lia]. simpl app.
    destruct V as [| v V']; [done |].
    unfold occurs in Hc. simpl in Hc. apply orb_false_elim in Hc as [Hv _].
    cbn [literal_from starts_with]. rewrite Ascii.eqb_sym in Hv. by rewrite Hv.
  - destruct a as [| x a].
    + apply (IH []). simpl. lia.
    + destruct (starts_with V ((x :: a) ++ c :: b)) eqn:Hsw.
      * pose proof (starts_with_before _ _ _ _ Hc Hsw) as Ha.
        pose proof (starts_with_split _ _ Ha) as Hs.
        pose proof (starts_with_length _ _ Ha) as Hlen.
        set (t := skipn (List.length V) (x :: a)) in *.
        rewrite Hs, <- app_assoc, !literal_from_prefix by done.
        rewrite <- app_assoc. f_equal. apply IH.
        assert (List.length (x :: a) = List.length V + List.length t) as E
          by (by rewrite Hs at 1; rewrite length_app).
        destruct V; [done |]. simpl in *. lia.
      * assert (starts_with V (x :: a) = false) as Ha.
        { destruct (starts_with V (x :: a)) eqn:E; [| done].
          by rewrite (starts_with_app_l _ _ (c :: b) E) in Hsw. }
        change ((x :: a) ++ c :: b) with (x :: (a ++ c :: b)) in *.
        cbn [literal_from]. rewrite Hsw, Ha. simpl. f_equal.
        apply IH. simpl in Hn. lia.
Qed.

Lemma literal_from_unescaped V P : forall s n,
  forallb unescaped s = true -> forallb unescaped P = true ->
  forallb unescaped (literal_from V P s n) = true.
Proof.
  induction s as [| x s IH]; intros n Hs HP; [by destruct n |].
  simpl in Hs. apply andb_prop in Hs as [Hx Hs].
  destruct n as [| n]; cbn [literal_from].
  - destruct (starts_with V (x :: s)).
    + rewrite forallb_app, HP. simpl. by apply IH.
    + simpl. rewrite Hx. simpl. by apply IH.
  - by apply IH.
Qed.

Lemma escape_unescaped l :
  forallb unescaped l = true -> flat_map escape_char l = l.
Proof.
  induction l as [| c l IH]; intros H; [reflexivity |].
  simpl in H. apply andb_prop in H as [Hc H]. simpl. rewrite IH by done.
  unfold unescaped in Hc. apply andb_prop in Hc as [Hc H3]. apply andb_prop in Hc as [H1 H2].
  apply negb_true_iff in H1, H2. apply Nat.leb_le in H3.
  unfold escape_char. rewrite H1, H2.
  destruct (code c =? 8)%nat eqn:E1; [apply Nat.eqb_eq in E1; lia |].
  destruct (code c =? 9)%nat eqn:E2; [apply Nat.eqb_eq in E2; lia |].
  destruct (code c =? 10)%nat eqn:E3; [apply Nat.eqb_eq in E3; lia |].
  destruct (code c =? 12)%nat eqn:E4; [apply Nat.eqb_eq in E4; lia |].
  destruct (code c =? 13)%nat eqn:E5; [apply Nat.eqb_eq in E5; lia |].
  destruct (code c <? 32)%nat eqn:E6; [apply Nat.ltb_lt in E6; lia |].
  reflexivity.
Qed.

Lemma quote_unescaped s :
  unescaped_string s = true -> quote s = dquote :: chars s ++ [dquote].
Proof. intros H. unfold quote. by rewrite escape_unescaped. Qed.

Lemma guarded_app seg rest :
  forallb structural seg = true -> guarded rest = true -> guarded (seg ++ rest) = true.
Proof.
  induction seg as [| c seg IH]; intros Hs Hr; [exact Hr |].
  simpl in Hs. apply andb_prop in Hs as [Hc Hs]. simpl.
  rewrite Hc, IH by done. apply orb_true_r.
Qed.

Lemma guarded_no_start : forall s V,
  occurs dquote V = false ->
  existsb (fun c => negb (structural c)) V = true ->
  guarded s = true -> starts_with V s = false.
Proof.
  induction s as [| c s IH]; intros V Hq Hx Hg.
  - destruct V; [discriminate | reflexivity].
  - destruct V as [| v V]; [discriminate |].
    unfold occurs in Hq. cbn [existsb] in Hq. apply orb_false_elim in Hq as [Hv Hq].
    cbn [guarded] in Hg. cbn [starts_with].
    destruct (Ascii.eqb v c) eqn:E; [| reflexivity]. cbn [andb].
    apply Ascii.eqb_eq in E. subst c.
    rewrite Ascii.eqb_sym in Hv. rewrite Hv in Hg. cbn [orb] in Hg.
    apply andb_prop in Hg as [Hs Hg].
    cbn [existsb] in Hx. rewrite Hs in Hx. cbn [negb orb] in Hx.
    by apply IH.
Qed.

Lemma uint_structural d :
  forallb structural (chars (NilEmpty.string_of_uint d)) = true.
Proof. induction d; simpl; try exact IHd; reflexivity. Qed.

Lemma nilzero_structural d :
  forallb structural (chars (NilZero.string_of_uint d)) = true.
Proof.
  destruct d;
    [ reflexivity
    | exact (uint_structural (Decimal.D0 d)) | exact (uint_structural (Decimal.D1 d))
    | exact (uint_structural (Decimal.D2 d)) | exact (uint_structural (Decimal.D3 d))
    | exact (uint_structural (Decimal.D4 d)) | exact (uint_structural (Decimal.D5 d))
    | exact (uint_structural (Decimal.D6 d)) | exact (uint_structural (Decimal.D7 d))
    | exact (uint_structural (Decimal.D8 d)) | exact (uint_structural (Decimal.D9 d)) ].
Qed.

Lemma number_structural z : forallb structural (number_text z) = true.
Proof.
  unfold number_text, NilZero.string_of_int.
  destruct (Z.to_int z) as [d | d]; [apply nilzero_structural |].
  change (chars (String "-" (NilZero.string_of_uint d)))
    with ("-"%char :: chars (NilZero.string_of_uint d)).
  cbn [forallb]. by rewrite nilzero_structural.
Qed.

Section InsideStrings.

Variables (V P : list ascii).
Hypothesis V_no_quote : occurs dquote V = false.
Hypothesis V_bound : existsb (fun c => negb (structural c)) V = true.
Hypothesis P_unescaped : forallb unescaped P = true.

Let lit (s : list ascii) : list ascii := literal_from V P s 0.

Lemma V_nonempty : V <> [].
Proof. intros E. rewrite E in V_bound. discriminate. Qed.

(** A chunk of text [t] whose redaction is [t'], whatever follows. *)
Let chunk (t t' : list ascii) : Prop :=
  forall rest, guarded rest = true ->
    lit (t ++ rest) = t' ++ lit rest /\ guarded (t ++ rest) = true.

Lemma chunk_structural seg : forallb structural seg = true -> chunk seg seg.
Proof.
  intros Hs rest Hr. split; [| by apply guarded_app].
  induction seg as [| c seg IH]; [reflexivity |].
  simpl in Hs. apply andb_prop in Hs as [Hc Hs].
  assert (guarded ((c :: seg) ++ rest) = true) as Hg
    by (apply guarded_app; [simpl; by rewrite Hc | done]).
  pose proof (guarded_no_start _ _ V_no_quote V_bound Hg) as Hsw.
  unfold lit in *. change ((c :: seg) ++ rest) with (c :: (seg ++ rest)) in *.
  cbn [literal_from]. rewrite Hsw. simpl. f_equal. by apply IH.
Qed.

Lemma chunk_app t1 t1' t2 t2' : chunk t1 t1' -> chunk t2 t2' -> chunk (t1 ++ t2) (t1' ++ t2').
Proof.
  intros H1 H2 rest Hr. destruct (H2 rest Hr) as [E2 G2].
  destruct (H1 (t2 ++ rest) G2) as [E1 G1].
  rewrite <- !app_assoc. split; [| exact G1]. by rewrite E1, E2.
Qed.

Lemma chunk_quote s :
  forallb unescaped s = true ->
  chunk (dquote :: s ++ [dquote]) (dquote :: lit s ++ [dquote]).
Proof.
  intros Hs rest Hr. split; [| reflexivity].
  unfold lit.
  change ((dquote :: s ++ [dquote]) ++ rest) with ([] ++ dquote :: ((s ++ [dquote]) ++ rest)).
  rewrite (literal_from_split V P dquote V_nonempty V_no_quote _ [] (le_n _)).
  rewrite <- app_assoc. simpl app.
  rewrite (literal_from_split V P dquote V_nonempty V_no_quote _ s (le_n _)).
  by rewrite <- app_assoc.
Qed.

Lemma chunk_commas {A} (f g : A -> list ascii) (close : ascii) (l : list A) :
  structural close = true ->
  Forall (fun x => chunk (f x) (g x)) l ->
  chunk (commas (map f l) ++ [close]) (commas (map g l) ++ [close]).
Proof.
  intros Hc HF.
  assert (chunk [close] [close]) as Hclose
    by (apply chunk_structural; simpl; by rewrite Hc).
  induction HF as [| x l Hx HF IH]; [exact Hclose |].
  destruct l as [| y l].
  - simpl. by apply chunk_app.
  - change (commas (map f (x :: y :: l))) with (f x ++ ","%char :: commas (map f (y :: l))).
    change (commas (map g (x :: y :: l))) with (g x ++ ","%char :: commas (map g (y :: l))).
    rewrite <- !app_assoc.
    apply chunk_app; [exact Hx |].
    change (chunk ([","%char] ++ (commas (map f (y :: l)) ++ [close]))
                  ([","%char] ++ (commas (map g (y :: l)) ++ [close]))).
    apply chunk_app; [by apply chunk_structural | exact IH].
Qed.

Let litS (s : string) : string := text (lit (chars s)).

Lemma member_forall (Q : json -> Prop) members :
  Forall (fun m : string * json => Q (snd m)) members ->
  forallb (fun m => unescaped_string (fst m) && all_strings unescaped_string (snd m)) members
  = true ->
  Forall (fun m => unescaped_string (fst m) = true
                   /\ all_strings unescaped_string (snd m) = true /\ Q (snd m)) members.
Proof.
  intros HF Hs. induction HF as [| m l Hm HF IH]; [constructor |].
  simpl in Hs. apply andb_prop in Hs as [H1 Hs]. apply andb_prop in H1 as [H1 H2].
  constructor; [done | by apply IH].
Qed.

Lemma stringify_chunk v :
  all_strings unescaped_string v = true ->
  chunk (stringify_chars v) (stringify_chars (map_strings litS v)).
Proof.
  induction v as [| b | z | s | items IH | members IH] using json_ind'; intros Hs.
  - by apply chunk_structural.
  - destruct b; by apply chunk_structural.
  - apply chunk_structural, number_structural.
  - simpl in Hs. cbn [map_strings stringify_chars].
    rewrite quote_unescaped by exact Hs.
    rewrite quote_unescaped.
    + unfold litS. rewrite chars_text. by apply chunk_quote.
    + unfold unescaped_string, litS. rewrite chars_text.
      by apply literal_from_unescaped.
  - cbn [map_strings stringify_chars]. simpl in Hs.
    change (chunk (["["%char] ++ (commas (map stringify_chars items) ++ ["]"%char]))
                  (["["%char] ++ (commas (map stringify_chars (map (map_strings litS) items))
                                   ++ ["]"%char]))).
    apply chunk_app; [by apply chunk_structural |].
    rewrite map_map. apply chunk_commas; [reflexivity |].
    rewrite forallb_forall in Hs. rewrite Forall_forall in IH. apply Forall_forall.
    intros x Hx. apply IH; [exact Hx |]. apply Hs. by apply list_elem_of_In.
  - cbn [map_strings stringify_chars]. simpl in Hs.
    set (f := fun m : string * json => quote (fst m) ++ ":"%char :: stringify_chars (snd m)).
    change (chunk (["{"%char] ++ (commas (map f members) ++ ["}"%char]))
                  (["{"%char] ++
                   (commas (map f (map (fun m => (litS (fst m), map_strings litS (snd m)))
                                       members)) ++ ["}"%char]))).
    apply chunk_app; [by apply chunk_structural |].
    rewrite map_map. apply chunk_commas; [reflexivity |].
    pose proof (member_forall
                  (fun x => all_strings unescaped_string x = true ->
                            chunk (stringify_chars x) (stringify_chars (map_strings litS x)))
                  _ IH Hs) as HF.
    eapply Forall_impl; [exact HF |]. intros [k x] (Hk & Hx & Hq). cbn [fst snd] in *.
    unfold f. cbn [fst snd].
    rewrite quote_unescaped by exact Hk.
    rewrite quote_unescaped.
    + unfold litS at 1. rewrite chars_text.
      change (chunk ((dquote :: chars k ++ [dquote]) ++ ([":"%char] ++ stringify_chars x))
                ((dquote :: lit (chars k) ++ [dquote])
                   ++ ([":"%char] ++ stringify_chars (map_strings litS x)))).
      apply chunk_app; [by apply chunk_quote |].
      apply chunk_app; [by apply chunk_structural | by apply Hq].
    + unfold unescaped_string, litS. rewrite chars_text.
      by apply literal_from_unescaped.
Qed.

Lemma literal_stringify v :
  all_strings unescaped_string v = true ->
  lit (stringify_chars v) = stringify_chars (map_strings litS v).
Proof.
  intros Hs. destruct (stringify_chunk v Hs [] eq_refl) as [E _].
  rewrite !app_nil_r in E. exact E.
Qed.

End InsideStrings.

Lemma map_strings_ext (f g : string -> string) v :
  (forall s, f s = g s) -> map_strings f v = map_strings g v.
Proof.
  intros E. induction v as [| b | z | s | items IH | members IH] using json_ind'; simpl;
    try reflexivity.
  - by rewrite E.
  - f_equal. induction IH as [| x l Hx _ IHl]; [reflexivity |]. simpl. by rewrite Hx, IHl.
  - f_equal. induction IH as [| [k x] l Hx _ IHl]; [reflexivity |]. simpl in *.
    by rewrite E, Hx, IHl.
Qed.

Lemma string_bound_inv secret :
  string_bound secret = true ->
  forallb plain (chars secret) = true
  /\ occurs dquote (chars secret) = false
  /\ existsb (fun c => negb (structural c)) (chars secret) = true
  /\ secret <> "".
Proof.
  unfold string_bound. intros H. apply andb_prop in H as [H H3].
  apply andb_prop in H as [H1 H2]. apply negb_true_iff in H2.
  repeat split; try done. intros ->. discriminate.
Qed.

Section JsonEditors.

Variables (secret placeholder : string).
Hypothesis secret_bound : string_bound secret = true.
Hypothesis placeholder_plain : forallb no_dollar (chars placeholder) = true.
Hypothesis placeholder_unescaped : unescaped_string placeholder = true.

Lemma json_text_redacted v :
  all_strings unescaped_string v = true ->
  replaceCredential (stringify v) secret placeholder
  = Ok (stringify (redact_strings secret placeholder v)).
Proof.
  intros Hs. destruct (string_bound_inv _ secret_bound) as (H1 & H2 & H3 & H4).
  rewrite replaceCredential_literal by assumption. f_equal.
  unfold replace_literal. destruct (String.eqb secret "") eqn:E.
  { by apply String.eqb_eq in E. }
  unfold stringify. rewrite chars_text. f_equal.
  rewrite (literal_stringify _ _ H2 H3 placeholder_unescaped v Hs).
  f_equal. apply map_strings_ext. intros s. unfold replace_literal. by rewrite E.
Qed.

Lemma with_body_id d b : body d = Some b -> with_body b d = d.
Proof. destruct d; simpl; intros ->; reflexivity. Qed.

Lemma with_response_id d r : response d = Some r -> with_response r d = d.
Proof. destruct d; simpl; intros ->; reflexivity. Qed.

Lemma redact_strings_absent v :
  all_strings unescaped_string v = true ->
  well_formed v = true ->
  well_formed (redact_strings secret placeholder v) = true ->
  includes (stringify v) secret = false ->
  redact_strings secret placeholder v = v.
Proof.
  intros Hs Hw Hw' Hno.
  pose proof (json_text_redacted v Hs) as E.
  destruct (string_bound_inv _ secret_bound) as (H1 & _ & _ & _).
  rewrite (redactor_absent _ _ _ H1 Hno) in E. injection E as E.
  pose proof (parse_stringify _ Hw) as A. pose proof (parse_stringify _ Hw') as B.
  rewrite <- E in B. congruence.
Qed.

Lemma body_editor_result d b :
  body d = Some b ->
  all_strings unescaped_string b = true ->
  well_formed b = true ->
  well_formed (redact_strings secret placeholder b) = true ->
  replaceCredentialInBody secret placeholder d
  = (Ok tt, with_body (redact_strings secret placeholder b) d).
Proof.
  intros Hb Hs Hw Hw'. unfold replaceCredentialInBody, bind, get, lift, modify. rewrite Hb.
  destruct (includes (stringify b) secret) eqn:Hin.
  - destruct (negb _) eqn:Hne.
    + by rewrite (json_text_redacted b Hs), (parse_stringify _ Hw').
    + destruct b as [| | | s | |]; try discriminate.
      destruct (String.eqb s "") eqn:E; [| discriminate].
      apply String.eqb_eq in E. subst s.
      destruct (string_bound_inv _ secret_bound) as (_ & _ & _ & H4).
      unfold redact_strings, replace_literal. simpl.
      destruct (String.eqb secret ""); by rewrite with_body_id.
  - rewrite (redact_strings_absent b Hs Hw Hw' Hin), with_body_id by done.
    by destruct (negb _).
Qed.

Lemma response_editor_result d r :
  response d = Some r ->
  all_strings unescaped_string r = true ->
  well_formed r = true ->
  well_formed (redact_strings secret placeholder r) = true ->
  replaceCredentialInResponse secret placeholder d
  = (Ok tt, with_response (redact_strings secret placeholder r) d).
Proof.
  intros Hr Hs Hw Hw'. unfold replaceCredentialInResponse, bind, get, lift, modify.
  rewrite Hr. destruct (truthy r) eqn:Ht.
  - by rewrite (json_text_redacted r Hs), (parse_stringify _ Hw').
  - assert (redact_strings secret placeholder r = r) as ->; [| by rewrite with_response_id].
    destruct r as [| [] | z | s | |]; try discriminate; try reflexivity.
    simpl in Ht. apply negb_false_iff, String.eqb_eq in Ht. subst s.
    unfold redact_strings, replace_literal. simpl.
    by destruct (String.eqb secret "").
Qed.

Lemma redact_strings_clean v :
  apart placeholder secret = true ->
  all_strings unescaped_string v = true ->
  includes (stringify (redact_strings secret placeholder v)) secret = false.
Proof.
  intros Ha Hs. pose proof (json_text_redacted v Hs) as E.
  destruct (string_bound_inv _ secret_bound) as (H1 & _ & _ & _).
  rewrite replaceCredential_literal in E by assumption. injection E as <-.
  by apply replace_literal_clean.
Qed.

End JsonEditors.

Lemma after_headers (f : gmap string HeaderValue -> gmap string HeaderValue) d :
  let d1 := match reqheaders d with
            | Some h => with_reqheaders (f h) d
            | None => d
            end in
  reqheaders d1 = f <$> reqheaders d /\ rawHeaders d1 = rawHeaders d
  /\ body d1 = body d /\ response d1 = response d /\ scope d1 = scope d.
Proof. by destruct (reqheaders d) eqn:E. Qed.

Lemma after_raw_headers (f : list string -> list string) d :
  let d1 := match rawHeaders d with
            | Some raw => with_rawHeaders (f raw) d
            | None => d
            end in
  reqheaders d1 = reqheaders d /\ rawHeaders d1 = f <$> rawHeaders d
  /\ body d1 = body d /\ response d1 = response d /\ scope d1 = scope d.
Proof. by destruct (rawHeaders d) eqn:E. Qed.

Lemma after_body (f : json -> json) d :
  let d1 := match body d with
            | Some b => with_body (f b) d
            | None => d
            end in
  reqheaders d1 = reqheaders d /\ rawHeaders d1 = rawHeaders d
  /\ body d1 = f <$> body d /\ response d1 = response d /\ scope d1 = scope d.
Proof. by destruct (body d) eqn:E. Qed.

Lemma after_response (f : json -> json) d :
  let d1 := match response d with
            | Some r => with_response (f r) d
            | None => d
            end in
  reqheaders d1 = reqheaders d /\ rawHeaders d1 = rawHeaders d
  /\ body d1 = body d /\ response d1 = f <$> response d /\ scope d1 = scope d.
Proof. by destruct (response d) eqn:E. Qed.

Section ParameterRedaction.

Variables (secret placeholder : string).
Hypothesis secret_bound : string_bound secret = true.
Hypothesis placeholder_plain : forallb no_dollar (chars placeholder) = true.
Hypothesis placeholder_unescaped : unescaped_string placeholder = true.

Lemma json_redactable_inv o v :
  json_redactable secret placeholder o = true -> o = Some v ->
  all_strings unescaped_string v = true /\ well_formed v = true
  /\ well_formed (redact_strings secret placeholder v) = true.
Proof.
  intros H ->. simpl in H. apply andb_prop in H as [H H3]. by apply andb_prop in H as [H1 H2].
Qed.

Lemma body_editor_total d :
  json_redactable secret placeholder (body d) = true ->
  replaceCredentialInBody secret placeholder d
  = (Ok tt, match body d with
            | Some b => with_body (redact_strings secret placeholder b) d
            | None => d
            end).
Proof.
  intros H. destruct (body d) as [b |] eqn:Hb.
  - destruct (json_redactable_inv _ _ H eq_refl) as (H1 & H2 & H3).
    by apply body_editor_result.
  - unfold replaceCredentialInBody, bind, get. by rewrite Hb.
Qed.

Lemma response_editor_total d :
  json_redactable secret placeholder (response d) = true ->
  replaceCredentialInResponse secret placeholder d
  = (Ok tt, match response d with
            | Some r => with_response (redact_strings secret placeholder r) d
            | None => d
            end).
Proof.
  intros H. destruct (response d) as [r |] eqn:Hr.
  - destruct (json_redactable_inv _ _ H eq_refl) as (H1 & H2 & H3).
    by apply response_editor_result.
  - unfold replaceCredentialInResponse, bind, get. by rewrite Hr.
Qed.

Lemma parameter_redaction_fields baseUrl d :
  apart placeholder secret = true ->
  json_redactable secret placeholder (body d) = true ->
  json_redactable secret placeholder (response d) = true ->
  let d' := (replaceParameterInDefinition baseUrl secret placeholder d).2 in
  headers_clean secret d' /\ raw_headers_clean secret d'
  /\ includes (scope d') secret = false
  /\ body d' = redact_strings secret placeholder <$> body d
  /\ response d' = redact_strings secret placeholder <$> response d
  /\ (forall v, body d' = Some v \/ response d' = Some v ->
        includes (stringify v) secret = false).
Proof.
  intros HA Hb Hr d'.
  destruct (string_bound_inv _ secret_bound) as (HV & _ & _ & _).
  set (d1 := match reqheaders d with
             | Some h => with_reqheaders (redact_value secret placeholder <$> h) d
             | None => d
             end).
  set (d2 := match rawHeaders d1 with
             | Some raw =>
               with_rawHeaders (map (fun s => replace_literal s secret placeholder) raw) d1
             | None => d1
             end).
  set (d3 := match body d2 with
             | Some b => with_body (redact_strings secret placeholder b) d2
             | None => d2
             end).
  set (d4 := match response d3 with
             | Some r => with_response (redact_strings secret placeholder r) d3
             | None => d3
             end).
  set (d5 := with_scope (replace_literal (scope d4) secret placeholder) d4).
  set (tail := (replaceCredentialInPath baseUrl secret placeholder ;;;
                replaceCredentialInQuery baseUrl secret placeholder)%editor).
  destruct (after_headers (fmap (redact_value secret placeholder)) d)
    as (A1 & A2 & A3 & A4 & A5). fold d1 in A1, A2, A3, A4, A5.
  destruct (after_raw_headers (map (fun s => replace_literal s secret placeholder)) d1)
    as (B1 & B2 & B3 & B4 & B5). fold d2 in B1, B2, B3, B4, B5.
  destruct (after_body (redact_strings secret placeholder) d2)
    as (C1 & C2 & C3 & C4 & C5). fold d3 in C1, C2, C3, C4, C5.
  destruct (after_response (redact_strings secret placeholder) d3)
    as (D1 & D2 & D3 & D4 & D5). fold d4 in D1, D2, D3, D4, D5.
  assert (E : d' = (tail d5).2).
  { subst d'. unfold replaceParameterInDefinition.
    unfold bind at 1. rewrite (headers_editor_result _ _ HV placeholder_plain HA). fold d1.
    unfold bind at 1. rewrite (raw_headers_editor_result _ _ HV placeholder_plain HA). fold d2.
    unfold bind at 1. rewrite body_editor_total by (by rewrite B3, A3). fold d3.
    unfold bind at 1. rewrite response_editor_total by (by rewrite C4, B4, A4). fold d4.
    unfold bind at 1. rewrite scope_editor_result by assumption. reflexivity. }
  assert (K : keeps (fun x => (reqheaders x, rawHeaders x, scope x, body x, response x)) tail)
    by (subst tail; frame).
  specialize (K d5). rewrite <- E in K. clearbody d'. injection K as K1 K2 K3 K4 K5.
  change (reqheaders d5) with (reqheaders d4) in K1.
  change (rawHeaders d5) with (rawHeaders d4) in K2.
  change (body d5) with (body d4) in K4.
  change (response d5) with (response d4) in K5.
  assert (H1 : headers_clean secret d1).
  { destruct (reqheaders d) as [h |] eqn:Hh.
    - by eapply headers_clean_fmap.
    - by apply headers_clean_none. }
  assert (H2 : raw_headers_clean secret d2).
  { destruct (rawHeaders d1) as [raw |] eqn:Hraw.
    - by eapply raw_headers_clean_map.
    - by apply raw_headers_clean_none. }
  split; [| split; [| split; [| split; [| split]]]].
  - intros h k v Hh. rewrite K1, D1, C1, B1 in Hh. by apply (H1 h k v).
  - intros raw x Hx. rewrite K2, D2, C2 in Hx. by apply (H2 raw x).
  - rewrite K3. subst d5. simpl. by apply replace_literal_clean.
  - by rewrite K4, D3, C3, B3, A3.
  - by rewrite K5, D4, C4, B4, A4.
  - intros v [Hv | Hv].
    + rewrite K4, D3, C3, B3, A3 in Hv. destruct (body d) as [b |] eqn:Hbd; [| discriminate].
      injection Hv as <-.
      destruct (json_redactable_inv _ _ Hb eq_refl) as (A & _ & _).
      by apply redact_strings_clean.
    + rewrite K5, D4, C4, B4, A4 in Hv.
      destruct (response d) as [r |] eqn:Hrd; [| discriminate].
      injection Hv as <-.
      destruct (json_redactable_inv _ _ Hr eq_refl) as (A & _ & _).
      by apply redact_strings_clean.
Qed.

End ParameterRedaction.

(** *** A redaction that fails *)

Lemma response_editor_failure credential placeholder d :
  (replaceCredentialInResponse credential placeholder d).1 <> Ok tt ->
  (replaceCredentialInResponse credential placeholder d).2 = d.
Proof.
  unfold replaceCredentialInResponse, bind, get, lift, modify.
  destruct (response d) as [r |]; [| done].
  destruct (truthy r); [| done].
  destruct (replaceCredential _ _ _) as [s | |]; [| done ..].
  destruct (JSON.parse s) as [v | |]; [| done ..].
  simpl. intros H. by destruct H.
Qed.

Lemma failed_scheme_redaction_aux scheme baseUrl credential placeholder d :
  (replaceCredentialInDefinition scheme baseUrl credential placeholder d).1 <> Ok tt ->
  response (replaceCredentialInDefinition scheme baseUrl credential placeholder d).2
  = response d.
Proof.
  unfold replaceCredentialInDefinition.
  set (m := match scheme with
            | ApiKey _ placement name => replaceApiKey placement name baseUrl credential placeholder
            | Http _ BASIC => _
            | Http _ BEARER => _
            | Http _ DIGEST => _
            end).
  assert (K : keeps response m).
  { subst m. destruct scheme as [id [] name | id []]; frame. }
  specialize (K d). unfold bind.
  destruct (m d) as [[[] | e |] d1]; simpl in K; [| done ..].
  intros H. by rewrite (response_editor_failure _ _ _ H).
Qed.

(** *** The loop over the query parameters *)

Lemma query_loop_skips k n x v w r credential placeholder u :
  Url.searchParams u = [(k, x); (k, v); (n, w)] ->
  String.eqb n k = false ->
  includes x credential = false ->
  includes v credential = true ->
  replaceCredential v credential placeholder = Ok r ->
  exists u',
    query_loop (List.length (Url.searchParams u)) 0 credential placeholder u = Ok u'
    /\ Url.searchParams u' = [(k, r); (n, w)].
Proof.
  intros Hu Hn Hx Hv Hr.
  replace (List.length (Url.searchParams u)) with 3 by (by rewrite Hu).
  cbn [query_loop]. rewrite Hu. cbn [nth_error]. rewrite Hx, Hv, Hr. cbn [obind].
  unfold Url.set_param. cbn [Url.searchParams]. rewrite Hu.
  cbn [Url.sp_set List.filter fst]. rewrite String.eqb_refl, Hn. cbn [negb nth_error].
  eexists. split; reflexivity.
Qed.

(** ** The configuration of a test: setting up the components *)

Section ConfigurationProperties.

Context {SuperfaceClient Profile Provider UseCase Failure : Type}.
Variable new_SuperfaceClient : completion Failure SuperfaceClient.
Variable getProfile : SuperfaceClient -> string -> completion Failure Profile.
Variable getProvider : SuperfaceClient -> string -> completion Failure Provider.
Variable getUseCase : Profile -> string -> completion Failure UseCase.

Let Config : Type := SuperfaceTestConfigPayload SuperfaceClient Profile Provider UseCase.
Let setup : Config -> completion Failure unit * Config :=
  setupSuperfaceConfig new_SuperfaceClient getProfile getProvider getUseCase.

Lemma assertsPreparedConfig_complete (c : Config) :
  assertsPreparedConfig Failure c = Returns tt <-> complete c = true.
Proof.
  unfold assertsPreparedConfig, complete.
  destruct c as [[cl |] [| p | p] [| q | q] [| u | u]]; simpl; split; congruence.
Qed.

Lemma setup_client_returns (c c1 : Config) cl :
  setup_client new_SuperfaceClient c = (Returns cl, c1) ->
  client c1 = Some cl /\ (client c <> None -> client c1 = client c)
  /\ profile c1 = profile c /\ provider c1 = provider c /\ useCase c1 = useCase c.
Proof.
  unfold setup_client. destruct c as [[cl0 |] pf pv uc]; cbn [client profile provider useCase].
  - intros [= -> <-]. by repeat split.
  - destruct new_SuperfaceClient as [cl0 |]; [| discriminate].
    intros [= -> <-]. by repeat split.
Qed.

Lemma setup_profile_returns (c c1 : Config) cl :
  setup_profile getProfile cl c = (Returns tt, c1) ->
  client c1 = client c /\ resolves (profile c) (profile c1)
  /\ provider c1 = provider c /\ useCase c1 = useCase c.
Proof.
  unfold setup_profile. destruct c as [cl0 [| n | p] pv uc]; cbn [client profile provider useCase].
  - intros [= <-]. by repeat split.
  - destruct (getProfile cl n) as [p |]; [| discriminate].
    intros [= <-]. by repeat split.
  - intros [= <-]. by repeat split.
Qed.

Lemma setup_provider_returns (c c1 : Config) cl :
  setup_provider getProvider cl c = (Returns tt, c1) ->
  client c1 = client c /\ profile c1 = profile c
  /\ resolves (provider c) (provider c1) /\ useCase c1 = useCase c.
Proof.
  unfold setup_provider. destruct c as [cl0 pf [| n | p] uc]; cbn [client profile provider useCase].
  - intros [= <-]. by repeat split.
  - destruct (getProvider cl n) as [p |]; [| discriminate].
    intros [= <-]. by repeat split.
  - intros [= <-]. by repeat split.
Qed.

Lemma setup_useCase_returns (c c1 : Config) :
  setup_useCase getUseCase c = (Returns tt, c1) ->
  client c1 = client c /\ profile c1 = profile c
  /\ provider c1 = provider c /\ resolves (useCase c) (useCase c1).
Proof.
  unfold setup_useCase. destruct c as [cl0 pf pv [| n | u]]; cbn [client profile provider useCase].
  - intros [= <-]. by repeat split.
  - destruct pf as [| m | p]; [discriminate | discriminate |].
    destruct (getUseCase p n) as [u |]; [| discriminate].
    intros [= <-]. by repeat split.
  - intros [= <-]. by repeat split.
Qed.

Lemma setup_returns (c c' : Config) :
  setup c = (Returns tt, c') ->
  client c' <> None /\ (client c <> None -> client c' = client c)
  /\ resolves (profile c) (profile c')
  /\ resolves (provider c) (provider c')
  /\ resolves (useCase c) (useCase c').
Proof.
  unfold setup, setupSuperfaceConfig.
  destruct (setup_client _ c) as [[cl | t] c1] eqn:E1; [| discriminate].
  destruct (setup_profile _ cl c1) as [[[] | t] c2] eqn:E2; [| discriminate].
  destruct (setup_provider _ cl c2) as [[[] | t] c3] eqn:E3; [| discriminate].
  intros E4.
  apply setup_client_returns in E1 as (A1 & A2 & A3 & A4 & A5).
  apply setup_profile_returns in E2 as (B1 & B2 & B3 & B4).
  apply setup_provider_returns in E3 as (C1 & C2 & C3 & C4).
  apply setup_useCase_returns in E4 as (D1 & D2 & D3 & D4).
  rewrite D1, C1, B1. split; [congruence |]. split; [exact A2 |].
  rewrite D2, C2, D3, <- A3, <- A4, <- A5, <- B3, <- B4, <- C4.
  by repeat split.
Qed.

Lemma resolves_asserts {A} (before after : component A) :
  resolves before after -> is_named after = false.
Proof. by destruct before, after. Qed.

Lemma setup_then_asserts_aux (c c' : Config) :
  setup c = (Returns tt, c') ->
  assertsPreparedConfig Failure c'
  = if is_instance (profile c') then
      if is_instance (provider c') then
        if is_instance (useCase c') then Returns tt
        else Throws (Own (ComponentUndefinedError "UseCase"))
      else Throws (Own (ComponentUndefinedError "Provider"))
    else Throws (Own (ComponentUndefinedError "Profile")).
Proof.
  intros H. apply setup_returns in H as (H1 & _ & H2 & H3 & H4).
  apply resolves_asserts in H2, H3, H4.
  unfold assertsPreparedConfig.
  destruct c' as [[cl |] [| ? | ?] [| ? | ?] [| ? | ?]]; simpl in *; done.
Qed.

Lemma prepare_laws_aux :
  (forall c : Config, prepareSuperfaceConfig no_components c = c)
  /\ (forall p q c : Config,
        prepareSuperfaceConfig q (prepareSuperfaceConfig p c)
        = prepareSuperfaceConfig (prepareSuperfaceConfig q p) c)
  /\ (forall p c : Config, complete p = true -> prepareSuperfaceConfig p c = p).
Proof.
  split; [| split].
  - by intros [? ? ? ?].
  - intros [[?|] [| ? | ?] [| ? | ?] [| ? | ?]] [[?|] [| ? | ?] [| ? | ?] [| ? | ?]] c;
      reflexivity.
  - intros [[?|] [| ? | ?] [| ? | ?] [| ? | ?]] c; unfold complete; simpl;
      intros H; try discriminate; reflexivity.
Qed.

End ConfigurationProperties.

(** ** Further properties of the redaction *)

(** X1. A payload that does not contain the secret is returned as it is,
    whatever the placeholder, when the secret has no pattern syntax. *)
Theorem redactor_keeps_payload_without_secret payload credential placeholder :
  forallb plain (chars credential) = true ->
  includes payload credential = false ->
  replaceCredential payload credential placeholder = Ok payload.
Proof. exact (redactor_absent payload credential placeholder). Qed.

Lemma redactor_keeps_payload_without_secret_witness :
  replaceCredential "user=alice" "s3cr3t" "$&-$'" = Ok "user=alice".
Proof.
  apply redactor_keeps_payload_without_secret; vm_compute; reflexivity.
Defined.

(** X2. For a secret without pattern syntax and a placeholder without [$]
    that are apart (the placeholder is not empty, its first character is
    not in the secret, and the first character of the secret is not in the
    placeholder), the redactor completes, its result does not contain the
    secret, and redacting the result again changes nothing. *)
Theorem redactor_removes_secret payload secret placeholder :
  forallb plain (chars secret) = true ->
  forallb no_dollar (chars placeholder) = true ->
  apart placeholder secret = true ->
  exists r,
    replaceCredential payload secret placeholder = Ok r
    /\ includes r secret = false
    /\ replaceCredential r secret placeholder = Ok r.
Proof.
  intros HV HP HA. exists (replace_literal payload secret placeholder).
  destruct (redactor_clean secret placeholder HV HP HA payload) as [E Hno].
  split; [exact E |]. split; [exact Hno |].
  by apply redactor_absent.
Qed.

Lemma redactor_removes_secret_witness :
  exists r,
    replaceCredential "Bearer s3cr3t, s3cr3ts3cr3t" "s3cr3t" "<HIDDEN>" = Ok r
    /\ includes r "s3cr3t" = false
    /\ replaceCredential r "s3cr3t" "<HIDDEN>" = Ok r.
Proof.
  apply redactor_removes_secret; vm_compute; reflexivity.
Defined.

(** X3. With an API key placed in a header, for a secret and a placeholder
    as in X2 and however the redaction ends, no request header of the
    exchange holds the secret in its string form any more, and no raw
    header holds it. *)
Theorem apikey_header_scheme_clears_headers id name baseUrl secret placeholder d :
  forallb plain (chars secret) = true ->
  forallb no_dollar (chars placeholder) = true ->
  apart placeholder secret = true ->
  let d' := (replaceCredentialInDefinition (ApiKey id HEADER name) baseUrl
               secret placeholder d).2 in
  headers_clean secret d' /\ raw_headers_clean secret d'.
Proof.
  intros HV HP HA. by apply apikey_header_scheme_clean.
Qed.

Lemma apikey_header_scheme_clears_headers_witness :
  let d' := (replaceCredentialInDefinition (ApiKey "key" HEADER (Some "X-Api-Key"))
               "https://api.test" "s3cr3t" "<HIDDEN>" traced_exchange).2 in
  headers_clean "s3cr3t" d' /\ raw_headers_clean "s3cr3t" d'.
Proof.
  apply apikey_header_scheme_clears_headers; vm_compute; reflexivity.
Defined.



(** X5. Redaction with a Basic or a Bearer scheme, whatever the secret and
    however it ends, leaves every request header but [Authorization] as it
    was, even one that holds the secret; an [Authorization] header that is
    there is overwritten with the scheme's word and the placeholder, and
    none is added. *)
Theorem http_scheme_touches_only_authorization
    id scheme word baseUrl credential placeholder d :
  (scheme = BASIC /\ word = "Basic ") \/ (scheme = BEARER /\ word = "Bearer ") ->
  reqheaders (replaceCredentialInDefinition (Http id scheme) baseUrl credential placeholder d).2
  = match reqheaders d with
    | Some h =>
      Some (match h !! "Authorization" with
            | Some _ => <["Authorization" := HStr (word ++ placeholder)]> h
            | None => h
            end)
    | None => None
    end.
Proof. apply http_scheme_headers_aux. Qed.

Lemma http_scheme_touches_only_authorization_witness :
  reqheaders (replaceCredentialInDefinition (Http "basic" BASIC) "https://api.test"
                "s3cr3t" "<HIDDEN>" traced_exchange).2
  = reqheaders traced_exchange.
Proof.
  rewrite (http_scheme_touches_only_authorization "basic" BASIC "Basic ");
    [reflexivity | left; split; reflexivity].
Defined.


(** X7. What each scheme never touches, however the redaction ends: an API
    key in the body leaves scope, path, request headers and raw headers;
    an API key in the path or in the query leaves scope, request headers,
    raw headers and body; an API key in a header and the HTTP schemes
    leave scope, path and body. *)
Theorem scheme_redaction_frame baseUrl credential placeholder :
  (forall id name,
     keeps (fun d => (scope d, path d, reqheaders d, rawHeaders d))
       (replaceCredentialInDefinition (ApiKey id BODY name) baseUrl credential placeholder))
  /\ (forall id name,
        keeps (fun d => (scope d, reqheaders d, rawHeaders d, body d))
          (replaceCredentialInDefinition (ApiKey id PATH name) baseUrl credential placeholder))
  /\ (forall id name,
        keeps (fun d => (scope d, reqheaders d, rawHeaders d, body d))
          (replaceCredentialInDefinition (ApiKey id QUERY name) baseUrl credential placeholder))
  /\ (forall id name,
        keeps (fun d => (scope d, path d, body d))
          (replaceCredentialInDefinition (ApiKey id HEADER name) baseUrl credential placeholder))
  /\ (forall id scheme,
        keeps (fun d => (scope d, path d, body d))
          (replaceCredentialInDefinition (Http id scheme) baseUrl credential placeholder)).
Proof. apply placement_frame_aux. Qed.

(** X8. A secret that is not a well-formed pattern makes the redaction of
    an exchange with at least one raw header throw the error of [RegExp],
    whether or not the secret occurs in the exchange: with an API key in a
    header and as an integration parameter the exchange is left as it was;
    with Basic and Bearer the throw comes after the [Authorization] header
    has been written. *)
Theorem malformed_secret_throws baseUrl credential placeholder e d x raw :
  Regex.compile credential = Throw e ->
  rawHeaders d = Some (x :: raw) ->
  (forall id name,
     replaceCredentialInDefinition (ApiKey id HEADER name) baseUrl credential placeholder d
     = (Throw e, d))
  /\ replaceParameterInDefinition baseUrl credential placeholder d = (Throw e, d)
  /\ (forall id scheme, scheme <> DIGEST ->
        (replaceCredentialInDefinition (Http id scheme) baseUrl credential placeholder d).1
        = Throw e).
Proof. apply malformed_secret_aux. Qed.

Lemma malformed_secret_throws_witness :
  (forall id name,
     replaceCredentialInDefinition (ApiKey id HEADER name) "https://api.test"
       "pass(word" "<HIDDEN>" traced_exchange
     = (Throw (SyntaxError "Unterminated group"), traced_exchange))
  /\ replaceParameterInDefinition "https://api.test" "pass(word" "<HIDDEN>" traced_exchange
     = (Throw (SyntaxError "Unterminated group"), traced_exchange)
  /\ (forall id scheme, scheme <> DIGEST ->
        (replaceCredentialInDefinition (Http id scheme) "https://api.test"
           "pass(word" "<HIDDEN>" traced_exchange).1
        = Throw (SyntaxError "Unterminated group")).
Proof.
  apply (malformed_secret_throws "https://api.test" "pass(word" "<HIDDEN>"
           (SyntaxError "Unterminated group") traced_exchange
           "Set-Cookie" ["sid=s3cr3t; Path=/"]);
    vm_compute; reflexivity.
Defined.

(** X9. The result of the headers editor does not depend on the order in
    which [Object.entries] lists the headers: the loop over the touched
    entries of any listing of the headers gives what the editor gives. *)
Theorem headers_editor_order_independent credential placeholder d h l :
  reqheaders d = Some h ->
  l ≡ₚ map_to_list h ->
  for_each (List.filter (fun e => includes (toString (snd e)) credential) l)
    (replace_header credential placeholder) d
  = replaceCredentialInHeaders credential placeholder d.
Proof. apply headers_editor_any_order. Qed.

Lemma headers_editor_order_independent_witness :
  for_each
    (List.filter (fun e => includes (toString (snd e)) "s3cr3t")
       [("X-Api-Key", HStr "s3cr3t"); ("Accept", HArr ["a/b"; "s3cr3t"])])
    (replace_header "s3cr3t" "<HIDDEN>") traced_exchange
  = replaceCredentialInHeaders "s3cr3t" "<HIDDEN>" traced_exchange.
Proof.
  apply (headers_editor_order_independent "s3cr3t" "<HIDDEN>" traced_exchange
           {[ "X-Api-Key" := HStr "s3cr3t"; "Accept" := HArr ["a/b"; "s3cr3t"] ]});
    [reflexivity |].
  replace (map_to_list
             ({[ "X-Api-Key" := HStr "s3cr3t"; "Accept" := HArr ["a/b"; "s3cr3t"] ]}
                : gmap string HeaderValue))
    with [("Accept", HArr ["a/b"; "s3cr3t"]); ("X-Api-Key", HStr "s3cr3t")]
    by (vm_compute; reflexivity).
  apply perm_swap.
Defined.

(** X10. The body editor and the response editor replace the secret inside
    every string of the JSON value, string values and object keys alike,
    and nowhere else, and they complete: for a secret that can only occur
    inside the strings of a JSON text, a placeholder without [$] that JSON
    writes unescaped, and a value whose strings are written unescaped,
    when the value and its redacted form are JSON values of the model.
    When the secret and the placeholder are apart, the JSON text of the
    redacted value does not hold the secret. *)
Theorem json_editors_redact_inside_strings secret placeholder d v :
  string_bound secret = true ->
  forallb no_dollar (chars placeholder) = true ->
  unescaped_string placeholder = true ->
  all_strings unescaped_string v = true ->
  well_formed v = true ->
  well_formed (redact_strings secret placeholder v) = true ->
  (body d = Some v ->
   replaceCredentialInBody secret placeholder d
   = (Ok tt, with_body (redact_strings secret placeholder v) d))
  /\ (response d = Some v ->
      replaceCredentialInResponse secret placeholder d
      = (Ok tt, with_response (redact_strings secret placeholder v) d))
  /\ (apart placeholder secret = true ->
      includes (stringify (redact_strings secret placeholder v)) secret = false).
Proof.
  intros HV HP HU Hs Hw Hw'. split; [| split].
  - intros Hb. by apply body_editor_result.
  - intros Hr. by apply response_editor_result.
  - intros HA. by apply redact_strings_clean.
Qed.

Lemma json_editors_redact_inside_strings_witness :
  replaceCredentialInBody "s3cr3t" "<HIDDEN>"
    (exchange_with_body
       (Some (JObj [("s3cr3t", JArr [JStr "a s3cr3t"; JNum 3; JBool true])])))
  = (Ok tt,
     exchange_with_body
       (Some (JObj [("<HIDDEN>", JArr [JStr "a <HIDDEN>"; JNum 3; JBool true])]))).
Proof.
  apply (proj1 (json_editors_redact_inside_strings "s3cr3t" "<HIDDEN>"
                  (exchange_with_body
                     (Some (JObj [("s3cr3t", JArr [JStr "a s3cr3t"; JNum 3; JBool true])])))
                  (JObj [("s3cr3t", JArr [JStr "a s3cr3t"; JNum 3; JBool true])])
                  eq_refl eq_refl eq_refl eq_refl eq_refl eq_refl)).
  reflexivity.
Defined.

(** X11. A scheme redaction that does not complete leaves the response of
    the exchange as it was: the response is written last, and only when
    everything before it, and its own replacement and parsing, went
    through. *)
Theorem failed_scheme_redaction_keeps_response scheme baseUrl credential placeholder d :
  (replaceCredentialInDefinition scheme baseUrl credential placeholder d).1 <> Ok tt ->
  response (replaceCredentialInDefinition scheme baseUrl credential placeholder d).2
  = response d.
Proof. apply failed_scheme_redaction_aux. Qed.

Lemma failed_scheme_redaction_keeps_response_witness :
  response (replaceCredentialInDefinition (Http "basic" BASIC) "https://api.test"
              "s3cr3t" (String dquote "") traced_exchange).2
  = response traced_exchange.
Proof.
  apply failed_scheme_redaction_keeps_response. vm_compute. discriminate.
Defined.

(** X12. The loop of the query editor reads the live parameter list by
    index, and [searchParams.set] removes the later parameters of the same
    name.  With the three parameters [k=x], [k=v], [n=w], where [v] holds
    the secret and [x] does not, the redacted [v] is written into the first
    parameter, the second is removed, and the loop ends without looking at
    [n=w]: [w] stays as it is even when it holds the secret.  So does the
    path [/?b=x&b=secret&a=secret]. *)
Theorem query_editor_skips_after_merge k n x v w r credential placeholder u :
  Url.searchParams u = [(k, x); (k, v); (n, w)] ->
  String.eqb n k = false ->
  includes x credential = false ->
  includes v credential = true ->
  replaceCredential v credential placeholder = Ok r ->
  (exists u',
     query_loop (List.length (Url.searchParams u)) 0 credential placeholder u = Ok u'
     /\ Url.searchParams u' = [(k, r); (n, w)])
  /\ replaceCredentialInQuery "https://localhost" "secret" "HIDDEN"
       (exchange_with_path "/?b=x&b=secret&a=secret")
     = (Ok tt, exchange_with_path "/?b=HIDDEN&a=secret").
Proof.
  intros Hu Hn Hx Hv Hr. split; [by eapply query_loop_skips |].
  vm_compute. reflexivity.
Qed.

Lemma query_editor_skips_after_merge_witness :
  exists u',
    query_loop 3 0 "secret" "HIDDEN"
      (Url.mkURL "https://localhost" "/" "b=x&b=secret&a=secret" ""
         [("b", "x"); ("b", "secret"); ("a", "secret")]) = Ok u'
    /\ Url.searchParams u' = [("b", "HIDDEN"); ("a", "secret")].
Proof.
  apply (proj1 (query_editor_skips_after_merge "b" "a" "x" "secret" "secret" "HIDDEN"
                  "secret" "HIDDEN"
                  (Url.mkURL "https://localhost" "/" "b=x&b=secret&a=secret" ""
                     [("b", "x"); ("b", "secret"); ("a", "secret")])
                  eq_refl eq_refl eq_refl eq_refl eq_refl)).
Defined.

(** ** The configuration of a test *)

Section ConfigurationLaws.

Context {SuperfaceClient Profile Provider UseCase Failure : Type}.
Variable new_SuperfaceClient : completion Failure SuperfaceClient.
Variable getProfile : SuperfaceClient -> string -> completion Failure Profile.
Variable getProvider : SuperfaceClient -> string -> completion Failure Provider.
Variable getUseCase : Profile -> string -> completion Failure UseCase.

(** X13. [prepareSuperfaceConfig] lets the components given to [run] take
    precedence over those of the constructor and keeps the others: a
    payload without components changes nothing; preparing with [p] and
    then with [q] is preparing once with [q] prepared over [p]; and a
    payload with every component as an instance replaces the whole
    configuration. *)
Theorem prepareSuperfaceConfig_laws :
  (forall c : SuperfaceTestConfigPayload SuperfaceClient Profile Provider UseCase,
     prepareSuperfaceConfig no_components c = c)
  /\ (forall p q c : SuperfaceTestConfigPayload SuperfaceClient Profile Provider UseCase,
        prepareSuperfaceConfig q (prepareSuperfaceConfig p c)
        = prepareSuperfaceConfig (prepareSuperfaceConfig q p) c)
  /\ (forall p c : SuperfaceTestConfigPayload SuperfaceClient Profile Provider UseCase,
        complete p = true -> prepareSuperfaceConfig p c = p).
Proof. apply prepare_laws_aux. Qed.

(** X14. When [setupSuperfaceConfig] returns, the configuration has a
    client, the one it had if it had one; every component given by name
    has become an instance, and the others are as they were.  So the
    [assertsPreparedConfig] that [run] calls next can only throw
    [ComponentUndefinedError], for the first of profile, provider and use
    case that is undefined, and never [InstanceMissingError]. *)
Theorem setup_resolves_names
    (c c' : SuperfaceTestConfigPayload SuperfaceClient Profile Provider UseCase) :
  setupSuperfaceConfig new_SuperfaceClient getProfile getProvider getUseCase c
  = (Returns tt, c') ->
  client c' <> None /\ (client c <> None -> client c' = client c)
  /\ resolves (profile c) (profile c')
  /\ resolves (provider c) (provider c')
  /\ resolves (useCase c) (useCase c')
  /\ assertsPreparedConfig Failure c'
     = if is_instance (profile c') then
         if is_instance (provider c') then
           if is_instance (useCase c') then Returns tt
           else Throws (Own (ComponentUndefinedError "UseCase"))
         else Throws (Own (ComponentUndefinedError "Provider"))
       else Throws (Own (ComponentUndefinedError "Profile")).
Proof.
  intros H.
  destruct (setup_returns _ _ _ _ _ _ H) as (H1 & H2 & H3 & H4 & H5).
  repeat (split; [assumption |]).
  by eapply setup_then_asserts_aux.
Qed.

End ConfigurationLaws.

Lemma prepareSuperfaceConfig_laws_witness :
  prepareSuperfaceConfig
    (mkConfig (Some tt) (Instance "profile") (Instance "provider") (Instance "useCase"))
    (mkConfig None (Named "other") Undefined Undefined)
  = (mkConfig (Some tt) (Instance "profile") (Instance "provider") (Instance "useCase")
     : SuperfaceTestConfigPayload unit string string string).
Proof.
  apply (proj2 (proj2 (@prepareSuperfaceConfig_laws unit string string string))).
  reflexivity.
Defined.

Lemma setup_resolves_names_witness :
  let c := mkConfig None (Named "profile") Undefined (Named "useCase")
           : SuperfaceTestConfigPayload unit string string string in
  let c' := mkConfig (Some tt) (Instance "profile") Undefined (Instance "profile/useCase") in
  client c' <> None /\ (client c <> None -> client c' = client c)
  /\ resolves (profile c) (profile c')
  /\ resolves (provider c) (provider c')
  /\ resolves (useCase c) (useCase c')
  /\ assertsPreparedConfig Empty_set c'
     = Throws (Own (ComponentUndefinedError "Provider")).
Proof.
  apply (@setup_resolves_names unit string string string Empty_set
           (Returns tt) (fun _ name => Returns name) (fun _ name => Returns name)
           (fun p name => Returns (p ++ "/" ++ name)%string)).
  reflexivity.
Defined.

(** ** An exchange without the secret, and the URL editors *)

(** *** A secret that is nowhere *)

Lemma raw_headers_editor_absent credential placeholder d :
  forallb plain (chars credential) = true ->
  raw_headers_clean credential d ->
  replaceCredentialInRawHeaders credential placeholder d = (Ok tt, d).
Proof.
  intros HV Hc. unfold replaceCredentialInRawHeaders, bind, get, lift, modify.
  destruct (rawHeaders d) as [raw |] eqn:Hraw; [| done].
  assert (map_outcome (fun header => replaceCredential header credential placeholder) raw
          = Ok raw) as ->.
  { assert (forall x, In x raw -> includes x credential = false) as A
      by (intros x Hx; by apply (Hc raw x)).
    clear Hraw Hc.
    induction raw as [| x raw IH]; [reflexivity |]. simpl.
    rewrite redactor_absent; [| done | apply A; by left].
    simpl. unfold omap. rewrite IH; [done |].
    intros y Hy. apply A. by right. }
  destruct d; simpl in *; by subst.
Qed.

Lemma response_editor_absent credential placeholder d :
  forallb plain (chars credential) = true ->
  response_inert credential d = true ->
  replaceCredentialInResponse credential placeholder d = (Ok tt, d).
Proof.
  intros HV Hr. unfold replaceCredentialInResponse, bind, get, lift, modify.
  unfold response_inert in Hr.
  destruct (response d) as [r |] eqn:Hresp; [| done].
  destruct (truthy r) eqn:Ht; [| done].
  simpl in Hr. apply andb_prop in Hr as [Hno Hp].
  apply negb_true_iff in Hno. apply parse_stringify in Hp.
  rewrite redactor_absent by done. rewrite Hp.
  destruct d; simpl in *; by subst.
Qed.

Lemma headers_editor_absent credential placeholder d :
  headers_clean credential d ->
  replaceCredentialInHeaders credential placeholder d = (Ok tt, d).
Proof.
  intros Hc. unfold replaceCredentialInHeaders, bind, get.
  destruct (reqheaders d) as [h |] eqn:Hh; [| done].
  assert (List.filter (fun e => includes (toString (snd e)) credential) (map_to_list h) = [])
    as ->; [| done].
  assert (forall e, e ∈ map_to_list h -> includes (toString e.2) credential = false) as A.
  { intros [k' v'] Hin. apply elem_of_map_to_list in Hin. by apply (Hc h k' v'). }
  induction (map_to_list h) as [| e l' IH']; [done |].
  simpl. rewrite (A e) by (by left). apply IH'. intros e' He'. apply A. by right.
Qed.

Lemma apikey_header_absent name credential placeholder d :
  forallb plain (chars credential) = true ->
  headers_clean credential d ->
  named_header_is_string name d = true ->
  replaceApiKeyInHeader name credential placeholder d = (Ok tt, d).
Proof.
  intros HV Hc Hs. unfold replaceApiKeyInHeader. unfold bind at 1. unfold get.
  pose proof (headers_editor_absent credential placeholder d Hc) as K.
  unfold named_header_is_string in Hs.
  destruct name as [n |]; [| unfold bind, ret; exact K].
  destruct (reqheaders d) as [h |] eqn:Hh; cbn [mbind option_bind] in *;
    [| unfold bind, ret; exact K].
  destruct (h !! n) as [v |] eqn:Hn; [| unfold bind, ret; exact K].
  destruct v as [s | l]; [| discriminate]. simpl toString.
  unfold bind at 1. unfold bind at 1. unfold lift.
  rewrite redactor_absent; [| done | by apply (Hc h n (HStr s))].
  unfold set_reqheader, modify. rewrite Hh.
  rewrite insert_id by done.
  rewrite with_reqheaders_id by done. exact K.
Qed.

Lemma absent_secret_aux id name baseUrl credential placeholder d :
  forallb plain (chars credential) = true ->
  response_inert credential d = true ->
  (headers_clean credential d -> raw_headers_clean credential d ->
   named_header_is_string name d = true ->
   replaceCredentialInDefinition (ApiKey id HEADER name) baseUrl credential placeholder d
   = (Ok tt, d))
  /\ ((forall b, body d = Some b -> includes (stringify b) credential = false) ->
      replaceCredentialInDefinition (ApiKey id BODY name) baseUrl credential placeholder d
      = (Ok tt, d)).
Proof.
  intros HV Hr. split.
  - intros Hh Hraw Hs. unfold replaceCredentialInDefinition, replaceApiKey.
    unfold bind at 1. unfold bind at 1.
    rewrite apikey_header_absent by done.
    rewrite raw_headers_editor_absent by done.
    by apply response_editor_absent.
  - intros Hb. unfold replaceCredentialInDefinition, replaceApiKey, replaceApiKeyInBody.
    unfold bind at 1.
    assert (replaceCredentialInBody credential placeholder d = (Ok tt, d)) as ->.
    { unfold replaceCredentialInBody, bind, get.
      destruct (body d) as [b |] eqn:E; [| done].
      rewrite (Hb b eq_refl). by destruct (negb _). }
    by apply response_editor_absent.
Qed.

(** *** The names of the query parameters *)

Lemma sp_has_filter l k name :
  String.eqb name k = false ->
  Url.sp_has (List.filter (fun p : string * string => negb (String.eqb (fst p) k)) l) name
  = Url.sp_has l name.
Proof.
  intros Hne. unfold Url.sp_has. induction l as [| [n v] l IH]; [reflexivity |].
  simpl. destruct (String.eqb n k) eqn:E; simpl.
  - apply String.eqb_eq in E. subst n. rewrite IH.
    rewrite String.eqb_sym in Hne. by rewrite Hne.
  - by rewrite IH.
Qed.

Lemma sp_has_sp_set l k r :
  Url.sp_has l k = true ->
  forall name, Url.sp_has (Url.sp_set l k r) name = Url.sp_has l name.
Proof.
  intros Hk name. induction l as [| [n v] l IH]; [discriminate |].
  cbn [Url.sp_set]. destruct (String.eqb n k) eqn:E.
  - apply String.eqb_eq in E. subst n.
    pose proof (sp_has_filter l k name) as F.
    unfold Url.sp_has in *. cbn [existsb fst].
    destruct (String.eqb k name) eqn:E2; [reflexivity |]. cbn [orb].
    apply F. by rewrite String.eqb_sym.
  - unfold Url.sp_has in *. cbn [existsb fst] in *. rewrite E in Hk. cbn [orb] in Hk.
    f_equal. by apply IH.
Qed.

Lemma nth_error_sp_has l i k v :
  nth_error l i = Some (k, v) -> Url.sp_has l k = true.
Proof.
  intros H. apply nth_error_In in H. unfold Url.sp_has.
  apply existsb_exists. exists (k, v). split; [done | apply String.eqb_refl].
Qed.

Lemma query_loop_keeps credential placeholder : forall fuel i u u',
  query_loop fuel i credential placeholder u = Ok u' ->
  Url.pathname u' = Url.pathname u /\ Url.fragment u' = Url.fragment u
  /\ Url.origin u' = Url.origin u
  /\ forall name, Url.sp_has (Url.searchParams u') name = Url.sp_has (Url.searchParams u) name.
Proof.
  induction fuel as [| fuel IH]; intros i u u' H; simpl in H.
  - injection H as <-. by repeat split.
  - destruct (nth_error (Url.searchParams u) i) as [[key value] |] eqn:Hn.
    + destruct (includes value credential).
      * destruct (replaceCredential value credential placeholder) as [r | |];
          simpl in H; try discriminate.
        apply IH in H as (H1 & H2 & H3 & H4). simpl in *.
        repeat split; try done.
        intros name. rewrite H4. apply sp_has_sp_set. by eapply nth_error_sp_has.
      * by apply IH in H.
    + injection H as <-. by repeat split.
Qed.

Lemma query_editor_names_aux baseUrl credential placeholder d d' :
  replaceCredentialInQuery baseUrl credential placeholder d = (Ok tt, d') ->
  exists u u',
    definitionURL baseUrl d = Ok u
    /\ path d' = path_of u'
    /\ Url.pathname u' = Url.pathname u /\ Url.fragment u' = Url.fragment u
    /\ forall name,
         Url.sp_has (Url.searchParams u') name = Url.sp_has (Url.searchParams u) name.
Proof.
  intros H. unfold replaceCredentialInQuery in H.
  apply bind_ok_inv in H as (d0 & d1 & H0 & H). apply get_ok_inv in H0 as [-> ->].
  apply bind_ok_inv in H as (u & d1 & H1 & H). apply lift_ok_inv in H1 as [H1 ->].
  apply bind_ok_inv in H as (u' & d1 & H2 & H). apply lift_ok_inv in H2 as [H2 ->].
  apply modify_ok_inv in H. subst d'.
  exists u, u'. apply query_loop_keeps in H2 as (A & B & _ & C).
  by repeat split.
Qed.

(** *** Percent-encoding *)

Lemma forallb_rev {A} (f : A -> bool) l : forallb f (rev l) = forallb f l.
Proof.
  induction l as [| x l IH]; [reflexivity |].
  simpl. rewrite forallb_app, IH. simpl. rewrite andb_true_r. apply andb_comm.
Qed.

Lemma percent_utf8_chars c : forallb percent_char (Url.percent_utf8 c) = true.
Proof. destruct c as [[] [] [] [] [] [] [] []]; vm_compute; reflexivity. Qed.

Lemma percent_char_facts c :
  percent_char c = true ->
  Url.path_set c = false /\ Url.special_query_set c = false /\ Url.fragment_set c = false
  /\ Url.one_of "/\^" c = false.
Proof.
  destruct c as [[] [] [] [] [] [] [] []]; intros H; try discriminate H;
    vm_compute; done.
Qed.

Lemma encode_with_out (set keep : ascii -> bool) s :
  (forall c, percent_char c = true -> keep c = true) ->
  (forall c, set c = false -> Url.one_of "/\^" c = false -> keep c = true) ->
  forallb (fun c => negb (Url.one_of "/\^" c)) s = true ->
  forallb keep (Url.encode_with set s) = true.
Proof.
  intros Hp Hk. unfold Url.encode_with.
  induction s as [| c s IH]; intros Hs; [reflexivity |].
  simpl in Hs. apply andb_prop in Hs as [Hc Hs]. apply negb_true_iff in Hc.
  simpl. rewrite forallb_app, IH by done. rewrite andb_true_r.
  destruct (set c) eqn:E.
  - pose proof (percent_utf8_chars c) as H. rewrite forallb_forall in H.
    apply forallb_forall. intros x Hx. apply Hp. by apply H.
  - simpl. rewrite Hk by done. reflexivity.
Qed.

Lemma encode_with_kept (set : ascii -> bool) s :
  (forall c, percent_char c = true -> set c = false) ->
  forallb (fun c => negb (set c)) (Url.encode_with set s) = true.
Proof.
  intros Hp. unfold Url.encode_with.
  induction s as [| c s IH]; [reflexivity |].
  simpl. rewrite forallb_app, IH. rewrite andb_true_r.
  destruct (set c) eqn:E.
  - pose proof (percent_utf8_chars c) as H. rewrite forallb_forall in H.
    apply forallb_forall. intros x Hx. rewrite Hp; [done | by apply H].
  - simpl. by rewrite E.
Qed.

Lemma encode_with_fixed (set : ascii -> bool) s :
  forallb (fun c => negb (set c)) s = true -> Url.encode_with set s = s.
Proof.
  unfold Url.encode_with. induction s as [| c s IH]; intros H; [reflexivity |].
  simpl in H. apply andb_prop in H as [Hc H]. apply negb_true_iff in Hc.
  simpl. rewrite Hc, IH by done. reflexivity.
Qed.

(** *** Paths *)

Lemma segment_char_step c :
  segment_char c = true ->
  Ascii.eqb c "/" || Ascii.eqb c "\" = false /\ Ascii.eqb c "^" = false
  /\ Url.encode_with Url.path_set [c] = [c].
Proof.
  unfold segment_char. intros H. apply andb_prop in H as [H1 H2].
  apply negb_true_iff in H1, H2.
  unfold Url.one_of in H2. cbn [existsb chars list_ascii_of_string] in H2.
  apply orb_false_elim in H2 as [Ha H2]. apply orb_false_elim in H2 as [Hb H2].
  apply orb_false_elim in H2 as [Hc _].
  rewrite Ha, Hb, Hc. repeat split; try done.
  unfold Url.encode_with. simpl. by rewrite H1.
Qed.

Lemma path_state_segment seg : forall acc buf t,
  forallb segment_char seg = true ->
  Url.path_state acc buf (seg ++ t) = Url.path_state acc (rev seg ++ buf) t.
Proof.
  induction seg as [| c seg IH]; intros acc buf t H; [reflexivity |].
  simpl in H. apply andb_prop in H as [Hc H].
  destruct (segment_char_step c Hc) as (E1 & E2 & E3).
  change ((c :: seg) ++ t) with (c :: (seg ++ t)).
  cbn [Url.path_state]. rewrite E1, E2, E3.
  rewrite IH by done. simpl rev. by rewrite <- !app_assoc.
Qed.

Lemma close_segment_ok acc seg slash :
  segment_ok seg = true -> Url.close_segment acc seg slash = seg :: acc.
Proof.
  unfold segment_ok, Url.close_segment. intros H.
  apply andb_prop in H as [H H2]. apply andb_prop in H as [_ H1].
  apply negb_true_iff in H1, H2. by rewrite H1, H2.
Qed.

Lemma path_state_segments rest : forall acc seg,
  segment_ok seg = true -> forallb segment_ok rest = true ->
  Url.path_state acc [] (seg ++ flat_map (fun s => "/"%char :: s) rest)
  = Ok (rev rest ++ seg :: acc).
Proof.
  induction rest as [| s2 rest IH]; intros acc seg Hs Hr.
  - simpl flat_map. pose proof Hs as Hc. unfold segment_ok in Hc.
    apply andb_prop in Hc as [Hc _]. apply andb_prop in Hc as [Hc _].
    rewrite path_state_segment by done. rewrite app_nil_r.
    cbn [Url.path_state]. rewrite rev_involutive. by rewrite close_segment_ok.
  - simpl in Hr. apply andb_prop in Hr as [Hs2 Hr].
    pose proof Hs as Hc. unfold segment_ok in Hc.
    apply andb_prop in Hc as [Hc _]. apply andb_prop in Hc as [Hc _].
    simpl flat_map. rewrite path_state_segment by done. rewrite app_nil_r.
    cbn [Url.path_state]. change (Ascii.eqb "/" "/" || _) with true. cbv iota.
    rewrite rev_involutive, close_segment_ok by done.
    rewrite IH by done. simpl rev. by rewrite <- app_assoc.
Qed.

Lemma segment_ok_nil : segment_ok [] = true.
Proof. reflexivity. Qed.

Lemma close_segment_segments acc buf slash :
  forallb segment_ok acc = true -> forallb segment_char buf = true ->
  forallb segment_ok (Url.close_segment acc buf slash) = true.
Proof.
  intros Ha Hb. unfold Url.close_segment.
  assert (forallb segment_ok (tl acc) = true) as Ht.
  { destruct acc as [| a acc]; [done |]. simpl in Ha. by apply andb_prop in Ha as [_ Ha]. }
  destruct (Url.is_double_dot buf) eqn:E2.
  - destruct slash; [done |]. simpl. by rewrite Ht.
  - destruct (Url.is_single_dot buf) eqn:E1.
    + destruct slash; [done |]. simpl. by rewrite Ha.
    + simpl. rewrite Ha. unfold segment_ok. by rewrite Hb, E1, E2.
Qed.

Lemma close_segment_nonempty acc buf : Url.close_segment acc buf false <> [].
Proof.
  unfold Url.close_segment.
  destruct (Url.is_double_dot buf); [done |]. by destruct (Url.is_single_dot buf).
Qed.

Lemma encoded_segment_chars c :
  Ascii.eqb c "/" || Ascii.eqb c "\" = false -> Ascii.eqb c "^" = false ->
  forallb segment_char (Url.encode_with Url.path_set [c]) = true.
Proof.
  intros H1 H2. unfold Url.encode_with. simpl. rewrite app_nil_r.
  destruct (Url.path_set c) eqn:E.
  - pose proof (percent_utf8_chars c) as H. rewrite forallb_forall in H.
    apply forallb_forall. intros x Hx. apply H in Hx.
    destruct (percent_char_facts x Hx) as (A & _ & _ & B).
    unfold segment_char. by rewrite A, B.
  - simpl. unfold segment_char. rewrite E. simpl.
    unfold Url.one_of. cbn [existsb chars list_ascii_of_string].
    apply orb_false_elim in H1 as [-> ->]. by rewrite H2.
Qed.

Lemma path_state_out s : forall acc buf out,
  forallb segment_ok acc = true -> forallb segment_char buf = true ->
  Url.path_state acc buf s = Ok out ->
  forallb segment_ok out = true /\ out <> [].
Proof.
  induction s as [| c s IH]; intros acc buf out Ha Hb H.
  - simpl in H. injection H as <-. split.
    + apply close_segment_segments; [done |]. by rewrite forallb_rev.
    + apply close_segment_nonempty.
  - cbn [Url.path_state] in H.
    destruct (Ascii.eqb c "/" || Ascii.eqb c "\") eqn:E1.
    + apply IH in H; [done | | done].
      apply close_segment_segments; [done |]. by rewrite forallb_rev.
    + destruct (Ascii.eqb c "^") eqn:E2; [discriminate |].
      apply IH in H; [done | done |].
      rewrite forallb_app, Hb, forallb_rev. rewrite andb_true_r.
      by apply encoded_segment_chars.
Qed.

(** A serialized path: its segments, and the characters of its text. *)
Lemma parse_path_out s p :
  Url.parse_path s = Ok p ->
  exists seg rest,
    forallb segment_ok (seg :: rest) = true
    /\ chars p = "/"%char :: seg ++ flat_map (fun x => "/"%char :: x) rest.
Proof.
  unfold Url.parse_path, omap. intros H.
  destruct (Url.path_state [] [] _) as [out | |] eqn:E; simpl in H; try discriminate.
  injection H as <-.
  apply path_state_out in E as [Hok Hne]; [| done ..].
  unfold Url.serialize_path. rewrite chars_text.
  assert (forallb segment_ok (rev out) = true) as Hr by (by rewrite forallb_rev).
  destruct (rev out) as [| seg rest] eqn:Er.
  - apply (f_equal (@rev _)) in Er. rewrite rev_involutive in Er. by subst out.
  - exists seg, rest. split; [done |]. simpl. reflexivity.
Qed.

Lemma parse_path_fixed s p :
  Url.parse_path s = Ok p -> Url.parse_path (chars p) = Ok p.
Proof.
  intros H. destruct (parse_path_out _ _ H) as (seg & rest & Hok & E).
  simpl in Hok. apply andb_prop in Hok as [Hs Hr].
  assert (p = text ("/"%char :: seg ++ flat_map (fun x => "/"%char :: x) rest)) as Ep
    by (rewrite <- E; symmetry; apply text_chars).
  rewrite E. unfold Url.parse_path. cbv zeta. cbv beta iota.
  change (Ascii.eqb "/" "/" || Ascii.eqb "/" "\") with true. cbv iota.
  rewrite path_state_segments by done. unfold omap, obind. f_equal.
  unfold Url.serialize_path. rewrite rev_app_distr, rev_involutive. by rewrite Ep.
Qed.

(** *** Reading a URL *)

Lemma drop_while_fixed {A} (f : A -> bool) l :
  forallb (fun x => negb (f x)) l = true -> Url.drop_while f l = l.
Proof.
  destruct l as [| x l]; [reflexivity |]. simpl. intros H.
  apply andb_prop in H as [H _]. apply negb_true_iff in H. by rewrite H.
Qed.

Lemma printable_facts c :
  printable c = true -> Url.is_c0_or_space c = false /\ Url.is_tab_or_newline c = false.
Proof.
  destruct c as [[] [] [] [] [] [] [] []]; intros H; try discriminate H; done.
Qed.

Lemma strip_fixed s : forallb printable s = true -> Url.strip s = s.
Proof.
  intros H. unfold Url.strip.
  assert (forall l, forallb printable l = true ->
                    forallb (fun x => negb (Url.is_c0_or_space x)) l = true) as A.
  { intros l Hl. apply forallb_forall. intros x Hx. rewrite forallb_forall in Hl.
    by destruct (printable_facts x (Hl x Hx)) as [-> _]. }
  rewrite (drop_while_fixed _ s) by (by apply A).
  rewrite drop_while_fixed by (apply A; by rewrite forallb_rev).
  apply rev_involutive.
Qed.

Lemma without_tab_fixed s :
  forallb printable s = true -> Url.without_tab_or_newline s = s.
Proof.
  unfold Url.without_tab_or_newline. induction s as [| c s IH]; intros H; [reflexivity |].
  simpl in H. apply andb_prop in H as [Hc H].
  destruct (printable_facts c Hc) as [_ E]. simpl. rewrite E. simpl. by rewrite IH.
Qed.

Lemma span_fixed {A} (f : A -> bool) h rest :
  forallb (fun x => negb (f x)) h = true ->
  match rest with [] => True | x :: _ => f x = true end ->
  Url.span f (h ++ rest) = (h, rest).
Proof.
  induction h as [| c h IH]; intros Hh Hr.
  - destruct rest as [| x rest]; [reflexivity |]. simpl. by rewrite Hr.
  - simpl in Hh. apply andb_prop in Hh as [Hc Hh]. apply negb_true_iff in Hc.
    simpl. rewrite Hc, IH by done. reflexivity.
Qed.

Lemma span_inv {A} (f : A -> bool) : forall l h rest,
  Url.span f l = (h, rest) ->
  l = h ++ rest /\ forallb (fun x => negb (f x)) h = true
  /\ match rest with [] => True | x :: _ => f x = true end.
Proof.
  induction l as [| c l IH]; intros h rest H; simpl in H.
  - by injection H as <- <-.
  - destruct (f c) eqn:E.
    + injection H as <- <-. by repeat split.
    + destruct (Url.span f l) as [a b] eqn:Es. injection H as <- <-.
      destruct (IH a b eq_refl) as (-> & H1 & H2).
      repeat split; try done. simpl. by rewrite E, H1.
Qed.

(** *** The authority *)

Lemma split_on_chars (Q : ascii -> bool) sep : forall h,
  forallb (forallb Q) (Url.split_on sep h) = true ->
  forallb (fun c => Q c || Ascii.eqb c sep) h = true.
Proof.
  induction h as [| c h IH]; intros H; [reflexivity |].
  cbn [Url.split_on] in H. cbn [forallb].
  destruct (Ascii.eqb c sep) eqn:E.
  - rewrite orb_true_r. simpl. apply IH. simpl in H. exact H.
  - destruct (Url.split_on sep h) as [| piece pieces] eqn:Es.
    + simpl in H. rewrite andb_true_r in H. apply andb_prop in H as [H _].
      rewrite H. simpl. by apply IH.
    + simpl in H. apply andb_prop in H as [H1 H2]. apply andb_prop in H1 as [H0 H1].
      rewrite H0. simpl. apply IH. simpl. by rewrite H1, H2.
Qed.

Lemma host_chars h :
  Url.host_ok h = true ->
  forallb (fun c => Url.is_label_char c || Ascii.eqb c ".") h = true.
Proof.
  unfold Url.host_ok. intros H. apply andb_prop in H as [H _].
  apply split_on_chars. apply forallb_forall. intros l Hl.
  rewrite forallb_forall in H. specialize (H l Hl). unfold Url.label_ok in H.
  apply andb_prop in H as [H _]. by apply andb_prop in H as [_ H].
Qed.

Lemma label_char_facts c :
  Url.is_label_char c || Ascii.eqb c "." = true ->
  authority_char c = true /\ Ascii.eqb ":" c = false.
Proof.
  destruct c as [[] [] [] [] [] [] [] []]; intros H; try discriminate H; done.
Qed.

Lemma authority_char_facts c :
  authority_char c = true -> printable c = true /\ Url.one_of "/\?#" c = false.
Proof.
  destruct c as [[] [] [] [] [] [] [] []]; intros H; try discriminate H; done.
Qed.

Lemma digit_authority c : is_digit c = true -> authority_char c = true.
Proof.
  destruct c as [[] [] [] [] [] [] [] []]; intros H; try discriminate H; done.
Qed.

Lemma uint_digits d : forallb is_digit (chars (NilEmpty.string_of_uint d)) = true.
Proof. induction d; simpl; try exact IHd; reflexivity. Qed.

Lemma number_digits n :
  (0 <= n)%Z -> forallb is_digit (number_text n) = true /\ number_text n <> [].
Proof.
  intros Hn. unfold number_text, NilZero.string_of_int.
  destruct n as [| p | p]; [done | | lia].
  change (Z.to_int (Z.pos p)) with (Decimal.Pos (Pos.to_uint p)). cbv iota.
  pose proof (to_uint_head p) as Hh.
  unfold NilZero.string_of_uint.
  destruct (Pos.to_uint p) as [| u | u | u | u | u | u | u | u | u | u]; try done;
    (split; [| done]);
    [ exact (uint_digits (Decimal.D1 u)) | exact (uint_digits (Decimal.D2 u))
    | exact (uint_digits (Decimal.D3 u)) | exact (uint_digits (Decimal.D4 u))
    | exact (uint_digits (Decimal.D5 u)) | exact (uint_digits (Decimal.D6 u))
    | exact (uint_digits (Decimal.D7 u)) | exact (uint_digits (Decimal.D8 u))
    | exact (uint_digits (Decimal.D9 u)) ].
Qed.

Lemma parse_digits_number n :
  (0 <= n)%Z -> parse_digits 0 (number_text n) = (n, []).
Proof.
  intros Hn. unfold number_text, NilZero.string_of_int.
  destruct n as [| p | p]; [reflexivity | | lia].
  change (Z.to_int (Z.pos p)) with (Decimal.Pos (Pos.to_uint p)). cbv iota.
  pose proof (to_uint_head p) as Hh. pose proof (Unsigned.of_to p) as Hof.
  unfold NilZero.string_of_uint.
  destruct (Pos.to_uint p) as [| u | u | u | u | u | u | u | u | u | u]; try done;
    cbn [NilEmpty.string_of_uint chars list_ascii_of_string parse_digits];
    change (is_digit _) with true; cbv iota;
    vm_compute (10 * 0 + Z.of_nat _)%Z;
    rewrite <- (app_nil_r (list_ascii_of_string _));
    change (list_ascii_of_string (NilEmpty.string_of_uint u))
      with (chars (NilEmpty.string_of_uint u));
    rewrite parse_digits_uint by reflexivity;
    simpl in Hof; injection Hof as ->; reflexivity.
Qed.

Lemma parse_digits_nonneg : forall p acc,
  (0 <= acc)%Z -> (0 <= fst (parse_digits acc p))%Z.
Proof.
  induction p as [| c p IH]; intros acc H; [exact H |].
  simpl. destruct (is_digit c); [| exact H]. apply IH. lia.
Qed.

Lemma append_empty s : (s ++ "")%string = s.
Proof.
  induction s as [| c s IH]; [reflexivity |].
  change (String c (s ++ "")%string = String c s). by rewrite IH.
Qed.

Lemma authority_fixed default a host :
  Url.parse_authority default a = Ok host ->
  forallb authority_char (chars host) = true
  /\ Url.parse_authority default (chars host) = Ok host.
Proof.
  unfold Url.parse_authority. destruct (Url.span (Ascii.eqb ":"%char) a) as [h rest] eqn:Es.
  destruct (Url.host_ok h) eqn:Hok; [| discriminate].
  pose proof (host_chars h Hok) as Hc.
  assert (forallb authority_char h = true
          /\ forallb (fun x => negb (Ascii.eqb ":" x)) h = true) as [Ha Hn].
  { split; apply forallb_forall; intros x Hx; rewrite forallb_forall in Hc;
      destruct (label_char_facts x (Hc x Hx)) as [A B]; [done | by rewrite B]. }
  assert (forall port,
            (port = "" \/ exists n, (0 <= n)%Z /\ (65535 <? n)%Z = false
                                    /\ (n =? default)%Z = false
                                    /\ port = (":" ++ text (number_text n))%string) ->
            forallb authority_char (chars (text h ++ port)) = true
            /\ (let '(h0, rest0) := Url.span (Ascii.eqb ":"%char) (chars (text h ++ port)) in
                if Url.host_ok h0 then
                  match rest0 with
                  | [] => Ok (text h0)
                  | _ :: p =>
                    omap (fun port0 => (text h0 ++ port0)%string) (Url.parse_port default p)
                  end
                else Beyond) = Ok (text h ++ port)%string) as Main.
  { intros port [-> | (n & Hn0 & Hmax & Hdef & ->)].
    - rewrite append_empty, chars_text. split; [exact Ha |].
      rewrite <- (app_nil_r h) at 1. rewrite span_fixed by done. by rewrite Hok.
    - rewrite chars_app, chars_text.
      change (chars (":" ++ text (number_text n)))
        with (":"%char :: chars (text (number_text n))).
      rewrite chars_text.
      destruct (number_digits n Hn0) as [Hd Hne].
      split.
      + rewrite forallb_app, Ha. simpl. apply forallb_forall. intros x Hx.
        rewrite forallb_forall in Hd. by apply digit_authority, Hd.
      + rewrite span_fixed by done. rewrite Hok.
        unfold Url.parse_port. rewrite Hd.
        destruct (number_text n) as [| x l] eqn:E; [done |].
        rewrite <- E. rewrite parse_digits_number by done. cbn [fst].
        by rewrite Hmax, Hdef. }
  destruct rest as [| c p].
  - intros [= <-]. specialize (Main "" (or_introl eq_refl)).
    by rewrite append_empty in Main.
  - unfold Url.parse_port.
    destruct (forallb is_digit p) eqn:Hd; [| discriminate].
    destruct p as [| x l].
    + simpl. intros [= <-]. apply Main. by left.
    + set (n := fst (parse_digits 0 (x :: l))).
      assert (0 <= n)%Z as Hn0 by (apply parse_digits_nonneg; lia).
      destruct (65535 <? n)%Z eqn:Hmax; [discriminate |].
      destruct (n =? default)%Z eqn:Hdef.
      * simpl. intros [= <-]. apply Main. by left.
      * simpl. intros [= <-]. apply Main. right. by exists n.
Qed.

(** *** A URL that is written and read again *)

Lemma path_char_facts c :
  path_char c = true -> printable c = true /\ Url.one_of "?#" c = false.
Proof.
  destruct c as [[] [] [] [] [] [] [] []]; intros H; try discriminate H; vm_compute; done.
Qed.

Lemma query_char_facts c :
  Url.special_query_set c = false -> printable c = true /\ Ascii.eqb "#" c = false.
Proof.
  destruct c as [[] [] [] [] [] [] [] []]; intros H; try discriminate H; vm_compute; done.
Qed.

Lemma fragment_char_facts c : Url.fragment_set c = false -> printable c = true.
Proof.
  destruct c as [[] [] [] [] [] [] [] []]; intros H; try discriminate H; vm_compute; done.
Qed.

Lemma forallb_impl {A} (f g : A -> bool) l :
  (forall x, f x = true -> g x = true) -> forallb f l = true -> forallb g l = true.
Proof.
  intros I H. apply forallb_forall. intros x Hx. rewrite forallb_forall in H. by apply I, H.
Qed.

Lemma segments_path_chars rest :
  forallb segment_ok rest = true ->
  forallb path_char (flat_map (fun x => "/"%char :: x) rest) = true.
Proof.
  induction rest as [| s rest IH]; [reflexivity |]. simpl. intros H.
  apply andb_prop in H as [Hs H]. rewrite forallb_app, IH by done.
  rewrite andb_true_r. unfold segment_ok in Hs.
  apply andb_prop in Hs as [Hs _]. apply andb_prop in Hs as [Hs _].
  apply (forallb_impl segment_char); [| done]. intros x Hx. unfold path_char. by rewrite Hx.
Qed.

Lemma parse_path_chars s p :
  Url.parse_path s = Ok p ->
  exists rest, chars p = "/"%char :: rest /\ forallb path_char rest = true.
Proof.
  intros H. destruct (parse_path_out _ _ H) as (seg & rest & Hok & E).
  eexists. split; [exact E |]. simpl in Hok. apply andb_prop in Hok as [Hs Hr].
  rewrite forallb_app, segments_path_chars by done. rewrite andb_true_r.
  unfold segment_ok in Hs. apply andb_prop in Hs as [Hs _]. apply andb_prop in Hs as [Hs _].
  apply (forallb_impl segment_char); [| done]. intros x Hx. unfold path_char. by rewrite Hx.
Qed.

Lemma parse_after_scheme_inv scheme default s u :
  Url.parse_after_scheme scheme default s = Ok u ->
  (exists a host, Url.parse_authority default a = Ok host
                  /\ Url.origin u = (scheme ++ "://" ++ host)%string)
  /\ parts_ok u.
Proof.
  unfold Url.parse_after_scheme.
  destruct (Url.span (Url.one_of "/\?#") s) as [a rest].
  destruct (Url.span (Url.one_of "?#") rest) as [p rest1].
  destruct (Url.span _ _) as [q rest2].
  destruct (Url.parse_authority default a) as [host | |] eqn:Ea; try discriminate.
  cbn [obind].
  destruct (Url.parse_path p) as [path | |] eqn:Ep; try discriminate.
  cbn [obind].
  destruct (Url.parse_query _) as [params | |] eqn:Eq; try discriminate.
  cbn [obind]. intros [= <-]. split; [by exists a, host |].
  unfold parts_ok. cbn [Url.pathname Url.query Url.fragment Url.searchParams].
  rewrite !chars_text. repeat split.
  - by eapply parse_path_fixed.
  - by eapply parse_path_chars.
  - apply encode_with_kept. intros c Hc. by destruct (percent_char_facts c Hc) as (_ & -> & _).
  - apply encode_with_kept. intros c Hc. by destruct (percent_char_facts c Hc) as (_ & _ & -> & _).
  - exact Eq.
Qed.

Lemma new_URL_inv input u :
  Url.new_URL input = Ok u -> origin_ok (Url.origin u) /\ parts_ok u.
Proof.
  unfold Url.new_URL.
  destruct (starts_with (chars "https://") _).
  - intros H. apply parse_after_scheme_inv in H as [(a & host & Ha & Eo) Hp].
    split; [| done]. destruct (authority_fixed _ _ _ Ha) as [H1 H2].
    exists "https", 443%Z, host. repeat split; try done. by left.
  - destruct (starts_with (chars "http://") _); [| discriminate].
    intros H. apply parse_after_scheme_inv in H as [(a & host & Ha & Eo) Hp].
    split; [| done]. destruct (authority_fixed _ _ _ Ha) as [H1 H2].
    exists "http", 80%Z, host. repeat split; try done. by right.
Qed.

Lemma set_pathname_inv u value u' :
  Url.set_pathname u value = Ok u' -> parts_ok u ->
  parts_ok u' /\ Url.query u' = Url.query u /\ Url.fragment u' = Url.fragment u
  /\ Url.searchParams u' = Url.searchParams u.
Proof.
  unfold Url.set_pathname, omap.
  destruct (Url.parse_path _) as [p | |] eqn:Ep; try discriminate.
  intros [= <-] (_ & _ & Hq & Hf & Hs). split; [| done].
  unfold parts_ok. cbn [Url.pathname Url.query Url.fragment Url.searchParams].
  repeat split; try done.
  - by eapply parse_path_fixed.
  - by eapply parse_path_chars.
Qed.

Lemma chars_cons c s : chars (String c s) = c :: chars s.
Proof. reflexivity. Qed.

Lemma parse_after_scheme_fixed scheme default host u :
  forallb authority_char (chars host) = true ->
  Url.parse_authority default (chars host) = Ok host ->
  parts_ok u ->
  Url.parse_after_scheme scheme default (chars host ++ chars (path_of u))
  = Ok (with_origin (scheme ++ "://" ++ host) u).
Proof.
  intros Hh Ha (Hp & (rest & Er & Hrest) & Hq & Hf & Hs).
  unfold path_of, Url.search, Url.hash, with_origin.
  destruct u as [o p q f sp]. cbn [Url.pathname Url.query Url.fragment Url.searchParams] in *.
  set (tailq := chars ((if String.eqb q "" then "" else "?" ++ q)
                       ++ (if String.eqb f "" then "" else "#" ++ f))).
  assert (Et : chars (p ++ (if String.eqb q "" then "" else "?" ++ q)
                        ++ (if String.eqb f "" then "" else "#" ++ f))
               = ("/"%char :: rest) ++ tailq)
    by (by rewrite chars_app, Er).
  rewrite Et. unfold Url.parse_after_scheme.
  rewrite span_fixed; [| | reflexivity].
  2: { apply (forallb_impl authority_char); [| done]. intros x Hx.
       by destruct (authority_char_facts x Hx) as [_ ->]. }
  assert (Hh' : chars (if String.eqb f "" then "" else "#" ++ f)
                = match chars f with [] => [] | _ => "#"%char :: chars f end
                /\ tl (chars (if String.eqb f "" then "" else "#" ++ f)) = chars f)
    by (by destruct f).
  destruct Hh' as [Eh Etl].
  assert (Hq' : forallb (fun x => negb (Ascii.eqb "#" x)) (chars q) = true).
  { apply (forallb_impl (fun c => negb (Url.special_query_set c))); [| done].
    intros x Hx. apply negb_true_iff in Hx. by destruct (query_char_facts x Hx) as [_ ->]. }
  assert (Hspan : Url.span (Url.one_of "?#") (("/"%char :: rest) ++ tailq)
                  = ("/"%char :: rest, tailq)).
  { apply span_fixed.
    - simpl. apply (forallb_impl path_char); [| done]. intros x Hx.
      by destruct (path_char_facts x Hx) as [_ ->].
    - subst tailq. destruct q as [| c q]; [| reflexivity].
      by destruct f. }
  rewrite Hspan.
  assert (Hrest1 : match tailq with
                   | "?"%char :: r => r
                   | _ => tailq
                   end = chars q ++ chars (if String.eqb f "" then "" else "#" ++ f)).
  { subst tailq. destruct q as [| c q]; [by destruct f |].
    change (String.eqb (String c q) "") with false. cbv iota.
    rewrite chars_app. reflexivity. }
  rewrite Hrest1.
  rewrite span_fixed; [| done |].
  2: { rewrite Eh. by destruct (chars f). }
  rewrite Etl, Ha. cbn [obind]. rewrite <- Er, Hp. cbn [obind].
  rewrite (encode_with_fixed _ (chars q)) by done.
  rewrite (encode_with_fixed _ (chars f)) by done.
  rewrite !text_chars, Hs. reflexivity.
Qed.

Lemma parts_printable u :
  parts_ok u -> forallb printable (chars (path_of u)) = true.
Proof.
  intros (Hp & (rest & Er & Hrest) & Hq & Hf & Hs).
  unfold path_of, Url.search, Url.hash. rewrite !chars_app, !forallb_app, Er.
  assert (forallb printable rest = true) as A.
  { apply (forallb_impl path_char); [| done]. intros x Hx.
    by destruct (path_char_facts x Hx) as [-> _]. }
  assert (forallb printable (chars (Url.query u)) = true) as B.
  { apply (forallb_impl (fun c => negb (Url.special_query_set c))); [| done].
    intros x Hx. apply negb_true_iff in Hx. by destruct (query_char_facts x Hx) as [-> _]. }
  assert (forallb printable (chars (Url.fragment u)) = true) as C.
  { apply (forallb_impl (fun c => negb (Url.fragment_set c))); [| done].
    intros x Hx. apply negb_true_iff in Hx. by apply fragment_char_facts. }
  cbn [forallb]. rewrite A. change (printable "/") with true. cbn [andb].
  apply andb_true_intro. split.
  - destruct (Url.query u); [reflexivity |]. exact B.
  - destruct (Url.fragment u); [reflexivity |]. exact C.
Qed.

Lemma read_back o u :
  origin_ok o -> parts_ok u -> Url.new_URL (o ++ path_of u) = Ok (with_origin o u).
Proof.
  intros (scheme & default & host & Hsd & -> & Hh & Ha) Hu.
  pose proof (parts_printable u Hu) as Hp.
  assert (Hhp : forallb printable (chars host) = true).
  { apply (forallb_impl authority_char); [| done]. intros x Hx.
    by destruct (authority_char_facts x Hx) as [-> _]. }
  pose proof (parse_after_scheme_fixed scheme default host u Hh Ha Hu) as K.
  unfold Url.new_URL.
  destruct Hsd as [[-> ->] | [-> ->]].
  - assert (E : chars (("https" ++ "://" ++ host) ++ path_of u)
               = chars "https://" ++ chars host ++ chars (path_of u))
      by (by rewrite !chars_app, <- !app_assoc).
    rewrite E, strip_fixed, without_tab_fixed;
      try (rewrite !forallb_app, Hhp, Hp; reflexivity).
    rewrite starts_with_app. change (chars "https://") with (firstn 8 (chars "https://")).
    cbn [firstn chars list_ascii_of_string app skipn]. exact K.
  - assert (E : chars (("http" ++ "://" ++ host) ++ path_of u)
               = chars "http://" ++ chars host ++ chars (path_of u))
      by (by rewrite !chars_app, <- !app_assoc).
    rewrite E, strip_fixed, without_tab_fixed;
      try (rewrite !forallb_app, Hhp, Hp; reflexivity).
    rewrite starts_with_app.
    change (starts_with (chars "https://") (chars "http://" ++ _)) with false.
    cbv iota. change (chars "http://") with (firstn 7 (chars "http://")).
    cbn [firstn chars list_ascii_of_string app skipn]. exact K.
Qed.

Lemma definitionURL_inv baseUrl d u :
  definitionURL baseUrl d = Ok u ->
  exists base, Url.new_URL baseUrl = Ok base /\ origin_ok (Url.origin base) /\ parts_ok u.
Proof.
  unfold definitionURL. destruct (Url.new_URL baseUrl) as [base | |] eqn:Eb; try discriminate.
  cbn [obind]. intros H. exists base. split; [done |].
  apply new_URL_inv in Eb as [Ho _]. apply new_URL_inv in H as [_ Hp]. done.
Qed.

Lemma definitionURL_written baseUrl base u d :
  Url.new_URL baseUrl = Ok base -> parts_ok u ->
  definitionURL baseUrl (with_path (path_of u) d) = Ok (with_origin (Url.origin base) u).
Proof.
  intros Hb Hu. unfold definitionURL. rewrite Hb. cbn [obind].
  apply new_URL_inv in Hb as [Ho _]. cbn [path with_path]. by apply read_back.
Qed.

(** *** The path editor *)

Lemma path_editor_inv baseUrl credential placeholder d d' :
  replaceCredentialInPath baseUrl credential placeholder d = (Ok tt, d') ->
  exists u u',
    definitionURL baseUrl d = Ok u
    /\ (if includes (Url.pathname u) credential
        then obind (replaceCredential (Url.pathname u) credential placeholder)
                   (Url.set_pathname u)
        else Ok u) = Ok u'
    /\ d' = with_path (path_of u') d.
Proof.
  intros H. unfold replaceCredentialInPath in H.
  apply bind_ok_inv in H as (d0 & d1 & H0 & H). apply get_ok_inv in H0 as [-> ->].
  apply bind_ok_inv in H as (u & d1 & H1 & H). apply lift_ok_inv in H1 as [H1 ->].
  apply bind_ok_inv in H as (u' & d1 & H2 & H). apply lift_ok_inv in H2 as [H2 ->].
  apply modify_ok_inv in H. by exists u, u'.
Qed.

Lemma path_of_with_origin o u : path_of (with_origin o u) = path_of u.
Proof. reflexivity. Qed.

Lemma path_editor_reads_back_aux baseUrl credential placeholder d d' u :
  replaceCredentialInPath baseUrl credential placeholder d = (Ok tt, d') ->
  definitionURL baseUrl d = Ok u ->
  exists u',
    definitionURL baseUrl d' = Ok u'
    /\ path d' = path_of u'
    /\ Url.query u' = Url.query u /\ Url.fragment u' = Url.fragment u
    /\ Url.searchParams u' = Url.searchParams u.
Proof.
  intros H Hu. apply path_editor_inv in H as (u0 & u1 & Hu0 & Hstep & ->).
  rewrite Hu in Hu0. injection Hu0 as <-.
  destruct (definitionURL_inv _ _ _ Hu) as (base & Hb & _ & Hp).
  assert (parts_ok u1 /\ Url.query u1 = Url.query u /\ Url.fragment u1 = Url.fragment u
          /\ Url.searchParams u1 = Url.searchParams u) as (Hp1 & Eq & Ef & Es).
  { destruct (includes (Url.pathname u) credential).
    - destruct (replaceCredential _ _ _) as [r | |]; try discriminate.
      by apply set_pathname_inv in Hstep.
    - by injection Hstep as <-. }
  exists (with_origin (Url.origin base) u1). split; [by apply definitionURL_written |].
  by repeat split.
Qed.

Lemma with_path_same d : with_path (path d) d = d.
Proof. by destruct d. Qed.

Lemma with_path_twice p q d : with_path p (with_path q d) = with_path p d.
Proof. reflexivity. Qed.

Lemma query_loop_clean credential placeholder u : forall fuel i,
  params_clean credential u = true ->
  query_loop fuel i credential placeholder u = Ok u.
Proof.
  intros fuel i H. revert i. induction fuel as [| fuel IH]; intros i; [reflexivity |].
  simpl. destruct (nth_error (Url.searchParams u) i) as [[key value] |] eqn:Hn; [| done].
  unfold params_clean in H. rewrite forallb_forall in H.
  apply nth_error_In in Hn. apply H in Hn. simpl in Hn. apply negb_true_iff in Hn.
  rewrite Hn. apply IH.
Qed.

Lemma url_editors_fixed_aux baseUrl credential placeholder d u :
  definitionURL baseUrl d = Ok u ->
  includes (Url.pathname u) credential = false ->
  params_clean credential u = true ->
  let d1 := with_path (path_of u) d in
  replaceCredentialInPath baseUrl credential placeholder d = (Ok tt, d1)
  /\ replaceCredentialInQuery baseUrl credential placeholder d = (Ok tt, d1)
  /\ replaceCredentialInPath baseUrl credential placeholder d1 = (Ok tt, d1)
  /\ replaceCredentialInQuery baseUrl credential placeholder d1 = (Ok tt, d1).
Proof.
  intros Hu Hp Hq d1.
  destruct (definitionURL_inv _ _ _ Hu) as (base & Hb & _ & Hparts).
  pose proof (definitionURL_written baseUrl base u d Hb Hparts) as Hw. fold d1 in Hw.
  assert (forall e v, definitionURL baseUrl e = Ok v ->
            includes (Url.pathname v) credential = false ->
            params_clean credential v = true ->
            replaceCredentialInPath baseUrl credential placeholder e
            = (Ok tt, with_path (path_of v) e)
            /\ replaceCredentialInQuery baseUrl credential placeholder e
               = (Ok tt, with_path (path_of v) e)) as A.
  { intros e v He Hpv Hqv. split.
    - unfold replaceCredentialInPath, bind, get, lift, modify. by rewrite He, Hpv.
    - unfold replaceCredentialInQuery, bind, get, lift, modify.
      by rewrite He, query_loop_clean. }
  destruct (A d u Hu Hp Hq) as [A1 A2].
  destruct (A d1 _ Hw Hp Hq) as [B1 B2].
  rewrite path_of_with_origin in B1, B2. subst d1.
  rewrite with_path_twice in B1, B2. done.
Qed.

(** *** The header named by an API-key scheme *)

Lemma apikey_header_string_aux n credential placeholder d d' h v :
  reqheaders d = Some h -> h !! n = Some v ->
  replaceApiKeyInHeader (Some n) credential placeholder d = (Ok tt, d') ->
  exists r,
    reqheaders d' ≫= (.!! n) = Some (HStr r)
    /\ (forallb plain (chars credential) = true ->
        includes (toString v) credential = false -> r = toString v).
Proof.
  intros Hh Hn H. unfold replaceApiKeyInHeader in H.
  apply bind_ok_inv in H as (d0 & d1 & H0 & H). apply get_ok_inv in H0 as [-> ->].
  rewrite Hh in H. cbn [mbind option_bind] in H. rewrite Hn in H.
  apply bind_ok_inv in H as ([] & d1 & H1 & H).
  apply bind_ok_inv in H1 as (r & d2 & H1 & H2). apply lift_ok_inv in H1 as [H1 ->].
  unfold set_reqheader in H2. apply modify_ok_inv in H2. rewrite Hh in H2. subst d1.
  apply (headers_editor_ok_inv _ _ _ (<[n := HStr r]> h)) in H as [-> Hs]; [| done].
  cbn [reqheaders with_reqheaders mbind option_bind].
  rewrite lookup_fmap, lookup_insert_eq. cbn [fmap option_fmap option_map].
  unfold redact_value. cbn [toString].
  destruct (includes r credential) eqn:Hin.
  - destruct (Hs n (HStr r)) as [s E]; [by rewrite lookup_insert_eq | done |].
    cbn [toString] in E. unfold redacted. cbn [toString]. rewrite E.
    exists s. split; [done |].
    intros HV Hno. rewrite redactor_absent in H1 by done. injection H1 as <-.
    congruence.
  - exists r. split; [done |]. intros HV Hno.
    rewrite redactor_absent in H1 by done. by injection H1 as <-.
Qed.

Lemma headers_free_clean secret d : headers_free secret d = true -> headers_clean secret d.
Proof.
  unfold headers_free. intros H h k v Hh Hk. rewrite Hh in H.
  rewrite forallb_forall in H. apply negb_true_iff.
  apply (H (k, v)). apply list_elem_of_In. by apply elem_of_map_to_list.
Qed.

Lemma raw_headers_free_clean secret d :
  raw_headers_free secret d = true -> raw_headers_clean secret d.
Proof.
  unfold raw_headers_free. intros H raw x Hr Hx. rewrite Hr in H.
  rewrite forallb_forall in H. apply negb_true_iff. by apply H.
Qed.

Lemma body_free_inv secret d b :
  body_free secret d = true -> body d = Some b -> includes (stringify b) secret = false.
Proof. unfold body_free. intros H E. rewrite E in H. by apply negb_true_iff. Qed.





(** X17. What the path editor writes is read back as it was written: when
    the editor completes, the path of the exchange is the path, query and
    fragment of the URL that the next editor builds from it, and that URL
    has the query, the fragment and the parameters of the URL the path
    editor read.  So the query editor that runs after the path editor sees
    the recorded parameters. *)
Theorem path_editor_reads_back baseUrl credential placeholder d d' u :
  replaceCredentialInPath baseUrl credential placeholder d = (Ok tt, d') ->
  definitionURL baseUrl d = Ok u ->
  exists u',
    definitionURL baseUrl d' = Ok u'
    /\ path d' = path_of u'
    /\ Url.query u' = Url.query u /\ Url.fragment u' = Url.fragment u
    /\ Url.searchParams u' = Url.searchParams u.
Proof. apply path_editor_reads_back_aux. Qed.

Lemma path_editor_reads_back_witness :
  exists u',
    definitionURL "https://localhost"
      (with_path "/a/%3CHIDDEN%3E/x?q=1#f" (exchange_with_path "/a/./s3cr3t/x?q=1#f")) = Ok u'
    /\ path (with_path "/a/%3CHIDDEN%3E/x?q=1#f" (exchange_with_path "/a/./s3cr3t/x?q=1#f"))
       = path_of u'
    /\ Url.query u' = "q=1" /\ Url.fragment u' = "f"
    /\ Url.searchParams u' = [("q", "1")].
Proof.
  apply (path_editor_reads_back "https://localhost" "s3cr3t" "<HIDDEN>"
           (exchange_with_path "/a/./s3cr3t/x?q=1#f")
           (with_path "/a/%3CHIDDEN%3E/x?q=1#f" (exchange_with_path "/a/./s3cr3t/x?q=1#f"))
           (Url.mkURL "https://localhost" "/a/s3cr3t/x" "q=1" "f" [("q", "1")]));
    vm_compute; reflexivity.
Defined.

(** X18. With the secret neither in the pathname nor in a parameter of
    the URL of the exchange, the path editor and the query editor both
    write the path as the URL parser serializes it (dot segments removed,
    characters percent-encoded), which may differ from the recorded path;
    applied to that path, each of them leaves the exchange unchanged. *)
Theorem url_editors_fixed_point baseUrl credential placeholder d u :
  definitionURL baseUrl d = Ok u ->
  includes (Url.pathname u) credential = false ->
  params_clean credential u = true ->
  let d1 := with_path (path_of u) d in
  replaceCredentialInPath baseUrl credential placeholder d = (Ok tt, d1)
  /\ replaceCredentialInQuery baseUrl credential placeholder d = (Ok tt, d1)
  /\ replaceCredentialInPath baseUrl credential placeholder d1 = (Ok tt, d1)
  /\ replaceCredentialInQuery baseUrl credential placeholder d1 = (Ok tt, d1).
Proof. apply url_editors_fixed_aux. Qed.

Lemma url_editors_fixed_point_witness :
  let d1 := with_path "/items/?page=2#top" listed_exchange in
  replaceCredentialInPath "https://api.test" "s3cr3t" "HIDDEN" listed_exchange = (Ok tt, d1)
  /\ replaceCredentialInQuery "https://api.test" "s3cr3t" "HIDDEN" listed_exchange = (Ok tt, d1)
  /\ replaceCredentialInPath "https://api.test" "s3cr3t" "HIDDEN" d1 = (Ok tt, d1)
  /\ replaceCredentialInQuery "https://api.test" "s3cr3t" "HIDDEN" d1 = (Ok tt, d1).
Proof.
  apply (url_editors_fixed_point "https://api.test" "s3cr3t" "HIDDEN" listed_exchange
           (Url.mkURL "https://api.test" "/items/" "page=2" "top" [("page", "2")]));
    vm_compute; reflexivity.
Defined.

(** X19. The header named by an API-key scheme is written back as a
    string: when the header is there and the header redaction completes,
    its value is a string, also when it was an array; with a secret
    without pattern syntax that the value does not hold, it is the value's
    [toString()], the elements joined by commas. *)
Theorem apikey_header_written_as_string n credential placeholder d d' h v :
  reqheaders d = Some h -> h !! n = Some v ->
  replaceApiKeyInHeader (Some n) credential placeholder d = (Ok tt, d') ->
  exists r,
    reqheaders d' ≫= (.!! n) = Some (HStr r)
    /\ (forallb plain (chars credential) = true ->
        includes (toString v) credential = false -> r = toString v).
Proof. apply apikey_header_string_aux. Qed.

Lemma apikey_header_written_as_string_witness :
  exists r,
    reqheaders (replaceApiKeyInHeader (Some "X-Api-Key") "s3cr3t" "HIDDEN" listed_exchange).2
      ≫= (.!! "X-Api-Key") = Some (HStr r)
    /\ (forallb plain (chars "s3cr3t") = true ->
        includes (toString (HArr ["k1"; "k2"])) "s3cr3t" = false ->
        r = toString (HArr ["k1"; "k2"])).
Proof.
  apply (apikey_header_written_as_string "X-Api-Key" "s3cr3t" "HIDDEN" listed_exchange
           (replaceApiKeyInHeader (Some "X-Api-Key") "s3cr3t" "HIDDEN" listed_exchange).2
           {[ "X-Api-Key" := HArr ["k1"; "k2"]; "Accept" := HStr "*/*" ]}
           (HArr ["k1"; "k2"]));
    vm_compute; reflexivity.
Defined.
